(** * ProtoKernel: MSI vector allocator and RISC-V IMSIC driver

    A shallow embedding of [kernel/irq/msi.c], [kernel/lib/ffs.c],
    [kernel/drivers/irqchip/riscv-imsic.c] and
    [kernel/drivers/irqchip/riscv-aplic-msi.c], with the properties of the
    design document proved (or refuted) on the embedding, and further
    properties of the code: of the descriptor interface, of the IRQ domain
    under allocation and release, of the register interface of the IMSIC,
    and of two of the allocation tests.

    Conventions.
    - C integers are [Z]; a [uint32_t] result that can wrap is written with
      [wrap32].
    - Pointers are [Z] addresses, [NULL] is [0].  Kernel memory is a finite
      map from addresses to objects.
    - A function whose C execution dereferences a pointer to no live
      object, or whose loop does not come back, has no result ([None]). *)

From stdpp Require Import gmap list strings numbers.

Open Scope Z_scope.

(** ** Machine integers *)

Definition wrap32 (x : Z) : Z := x `mod` 2 ^ 32.

(** Conversion of a [uint32_t] to [int] (two's complement). *)
Definition to_int32 (x : Z) : Z :=
  if wrap32 x <? 2 ^ 31 then wrap32 x else wrap32 x - 2 ^ 32.

Lemma wrap32_small x : 0 ≤ x < 2 ^ 32 → wrap32 x = x.
Proof. intros. unfold wrap32. by apply Z.mod_small. Qed.

(** [k] is the index of the lowest set bit of [x]. *)
Definition lowest_set_bit (x k : Z) : Prop :=
  0 ≤ k ∧ Z.testbit x k = true ∧ ∀ j, 0 ≤ j < k → Z.testbit x j = false.

(** ** kernel/lib/ffs.c *)

Module Ffs.

(** One halving stage of the scan:
    [if ((i & mask) == 0) { n += w; i >>= w; }]. *)
Definition stage (w : Z) (ni : Z * Z) : Z * Z :=
  let '(n, i) := ni in
  if Z.land i (Z.ones w) =? 0 then (n + w, i ≫ w) else (n, i).

(** [int ffs(int i)]; the masks 0xffff, 0xff, 0xf, 0x3, 0x1 are
    [Z.ones 16], ..., [Z.ones 1], and [>>] on a negative [int] is the
    arithmetic shift. *)
Definition ffs (i : Z) : Z :=
  if i =? 0 then 0
  else
    let n := 1 in
    let '(n, i) :=
      if Z.land i 0xffff =? 0 then (n + 16, i ≫ 16) else (n, i) in
    let '(n, i) :=
      if Z.land i 0xff =? 0 then (n + 8, i ≫ 8) else (n, i) in
    let '(n, i) :=
      if Z.land i 0xf =? 0 then (n + 4, i ≫ 4) else (n, i) in
    let '(n, i) :=
      if Z.land i 0x3 =? 0 then (n + 2, i ≫ 2) else (n, i) in
    let n := if Z.land i 0x1 =? 0 then n + 1 else n in
    n.

Lemma ffs_stages i :
  i ≠ 0 →
  ffs i =
    let '(n, i) := stage 2 (stage 4 (stage 8 (stage 16 (1, i)))) in
    if Z.land i 1 =? 0 then n + 1 else n.
Proof.
  intros Hi. unfold ffs, stage.
  destruct (Z.eqb_spec i 0) as [|_]; [done|].
  change 0xffff with (Z.ones 16). change 0xff with (Z.ones 8).
  change 0xf with (Z.ones 4). change 0x3 with (Z.ones 2).
  repeat match goal with |- context [if ?c then _ else _] =>
    destruct c end; reflexivity.
Qed.

(** *** Bit-level facts *)

Lemma mod_pow2_zero_bits i w :
  0 ≤ w → (i `mod` 2 ^ w = 0 ↔ ∀ j, 0 ≤ j < w → Z.testbit i j = false).
Proof.
  intros Hw. split.
  - intros H0 j Hj.
    rewrite <- (Z.mod_pow2_bits_low i w j) by lia.
    rewrite H0. apply Z.bits_0.
  - intros Hbits. apply Z.bits_inj'. intros j Hj.
    rewrite Z.bits_0, Z.testbit_mod_pow2 by lia.
    destruct (Z.ltb_spec j w); [|done]. rewrite Hbits by lia. done.
Qed.

Lemma lsb_land_ones i k w :
  lowest_set_bit i k → 0 ≤ w → (Z.land i (Z.ones w) = 0 ↔ w ≤ k).
Proof.
  intros (Hk & Hbit & Hlow) Hw.
  rewrite Z.land_ones, mod_pow2_zero_bits by lia. split.
  - intros Hz. destruct (Z.le_gt_cases w k) as [|Hlt]; [done|].
    rewrite Hz in Hbit by lia. done.
  - intros Hle j Hj. apply Hlow. lia.
Qed.

Lemma lsb_shiftr i k w :
  lowest_set_bit i k → 0 ≤ w ≤ k → lowest_set_bit (i ≫ w) (k - w).
Proof.
  intros (Hk & Hbit & Hlow) Hw. split; [lia|]. split.
  - rewrite Z.shiftr_spec by lia. by replace (k - w + w) with k by lia.
  - intros j Hj. rewrite Z.shiftr_spec by lia. apply Hlow. lia.
Qed.

Lemma lsb_exists (n : nat) i :
  i `mod` 2 ^ Z.of_nat n ≠ 0 → ∃ k, k < Z.of_nat n ∧ lowest_set_bit i k.
Proof.
  induction n as [|n IH]; intros Hne.
  - change (2 ^ Z.of_nat 0) with 1 in Hne. rewrite Z.mod_1_r in Hne. done.
  - destruct (decide (i `mod` 2 ^ Z.of_nat n = 0)) as [Hz|Hnz].
    + exists (Z.of_nat n). split; [lia|]. split; [lia|].
      pose proof (proj1 (mod_pow2_zero_bits i (Z.of_nat n) ltac:(lia)) Hz)
        as Hlow.
      split; [|done].
      destruct (Z.testbit i (Z.of_nat n)) eqn:Hb; [done|].
      exfalso. apply Hne. apply mod_pow2_zero_bits; [lia|].
      intros j Hj. destruct (decide (j = Z.of_nat n)) as [->|]; [done|].
      apply Hlow. lia.
    + destruct (IH Hnz) as (k & Hk & Hlsb). exists k. split; [lia|done].
Qed.

Lemma stage_spec w n i k n' i' :
  stage w (n, i) = (n', i') →
  lowest_set_bit i k → 0 ≤ w → k < 2 * w →
  ∃ k', lowest_set_bit i' k' ∧ k' < w ∧ n' + k' = n + k.
Proof.
  unfold stage. intros Hst Hlsb Hw Hk.
  pose proof (lsb_land_ones i k w Hlsb Hw) as Hland.
  destruct (Z.eqb_spec (Z.land i (Z.ones w)) 0) as [Hz|Hnz];
    injection Hst as <- <-.
  - exists (k - w). split; [apply lsb_shiftr; [done|]|]; lia.
  - exists k. split; [done|]. lia.
Qed.

Lemma ffs_lowest_set_bit i k :
  lowest_set_bit i k → k < 32 → ffs i = k + 1.
Proof.
  intros Hlsb Hk.
  assert (i ≠ 0) as Hi.
  { intros ->. destruct Hlsb as (_ & Hb & _). by rewrite Z.bits_0 in Hb. }
  rewrite ffs_stages by done.
  destruct (stage 16 (1, i)) as [n1 i1] eqn:S1.
  destruct (stage_spec _ _ _ k _ _ S1) as (k1 & H1 & Hk1 & E1); [done|lia..|].
  destruct (stage 8 (n1, i1)) as [n2 i2] eqn:S2.
  destruct (stage_spec _ _ _ k1 _ _ S2) as (k2 & H2 & Hk2 & E2); [done|lia..|].
  destruct (stage 4 (n2, i2)) as [n3 i3] eqn:S3.
  destruct (stage_spec _ _ _ k2 _ _ S3) as (k3 & H3 & Hk3 & E3); [done|lia..|].
  destruct (stage 2 (n3, i3)) as [n4 i4] eqn:S4.
  destruct (stage_spec _ _ _ k3 _ _ S4) as (k4 & H4 & Hk4 & E4); [done|lia..|].
  pose proof (lsb_land_ones i4 k4 1 H4 ltac:(lia)) as Hland.
  change (Z.ones 1) with 1 in Hland.
  destruct H4 as (? & _ & _).
  destruct (Z.eqb_spec (Z.land i4 1) 0); lia.
Qed.

Lemma to_int32_testbit x j :
  0 ≤ j < 32 → Z.testbit (to_int32 x) j = Z.testbit x j.
Proof.
  intros Hj. unfold to_int32, wrap32.
  assert (Z.testbit (x `mod` 2 ^ 32) j = Z.testbit x j) as Hm
    by (apply Z.mod_pow2_bits_low; lia).
  destruct (_ <? _); [done|].
  rewrite <- Hm.
  rewrite <- (Z.mod_pow2_bits_low (x `mod` 2 ^ 32 - 2 ^ 32) 32 j) by lia.
  rewrite <- (Z.mod_pow2_bits_low (x `mod` 2 ^ 32) 32 j) by lia.
  f_equal.
  rewrite <- Zminus_mod_idemp_r, Z.mod_same by lia.
  by rewrite Z.sub_0_r.
Qed.

Lemma to_int32_lsb x k :
  k < 32 → lowest_set_bit x k → lowest_set_bit (to_int32 x) k.
Proof.
  intros Hk (H0 & Hb & Hl). split; [done|]. split.
  - rewrite to_int32_testbit by lia. done.
  - intros j Hj. rewrite to_int32_testbit by lia. auto.
Qed.

Lemma pow2_lsb k : 0 ≤ k → lowest_set_bit (2 ^ k) k.
Proof.
  intros Hk. split; [done|]. split.
  - apply Z.pow2_bits_true. done.
  - intros j Hj. apply Z.pow2_bits_false. lia.
Qed.

(** [ffs] of a non-zero 32-bit word. *)
Lemma ffs_word w :
  0 < w < 2 ^ 32 →
  ∃ b, 0 ≤ b < 32 ∧ lowest_set_bit w b ∧ ffs (to_int32 w) = b + 1.
Proof.
  intros Hw. destruct (lsb_exists 32 w) as (b & Hb & Hlsb).
  { change (2 ^ Z.of_nat 32) with (2 ^ 32). rewrite Z.mod_small; lia. }
  change (Z.of_nat 32) with 32 in Hb. exists b.
  pose proof Hlsb as (Hb0 & _). split; [lia|]. split; [done|].
  apply ffs_lowest_set_bit; [|done]. by apply to_int32_lsb.
Qed.

(** C8.  For every 32-bit word [x] (passed to [ffs] as an [int]):
    [ffs x = 0] iff [x = 0]; the result lies in [0..32]; when [x ≠ 0] it is
    one more than the index of the lowest set bit, so bit [ffs x - 1] is set
    and all bits below it are clear; and [ffs (1 << k) = k + 1] for every
    [k] in [0..31]. *)
Theorem ffs_correct (x : Z) :
  0 ≤ x < 2 ^ 32 →
  (ffs (to_int32 x) = 0 ↔ x = 0) ∧
  0 ≤ ffs (to_int32 x) ≤ 32 ∧
  (x ≠ 0 →
     lowest_set_bit x (ffs (to_int32 x) - 1) ∧
     Z.testbit x (ffs (to_int32 x) - 1) = true ∧
     ∀ j, 0 ≤ j ≤ ffs (to_int32 x) - 2 → Z.testbit x j = false) ∧
  (∀ k, 0 ≤ k ≤ 31 → ffs (to_int32 (1 ≪ k)) = k + 1).
Proof.
  intros Hx.
  assert (∀ k, 0 ≤ k ≤ 31 → ffs (to_int32 (1 ≪ k)) = k + 1) as Hpow.
  { intros k Hk. rewrite Z.shiftl_1_l.
    apply ffs_lowest_set_bit; [|lia].
    apply to_int32_lsb; [lia|]. apply pow2_lsb. lia. }
  destruct (decide (x = 0)) as [->|Hne].
  { split; [done|]. split; [done|]. split; [done|]. exact Hpow. }
  destruct (lsb_exists 32 x) as (k & Hk & Hlsb).
  { change (2 ^ Z.of_nat 32) with (2 ^ 32). rewrite Z.mod_small; done. }
  change (Z.of_nat 32) with 32 in Hk.
  rewrite (ffs_lowest_set_bit (to_int32 x) k)
    by (try apply to_int32_lsb; done).
  replace (k + 1 - 1) with k by lia.
  pose proof Hlsb as (Hk0 & Hbit & Hlow).
  split; [split; [lia|done]|]. split; [lia|]. split; [|exact Hpow].
  intros _. split; [done|]. split; [done|].
  intros j Hj. apply Hlow. lia.
Qed.

Lemma ffs_correct_witness :
  0 ≤ 0x80000000 < 2 ^ 32 ∧ ffs (to_int32 0x80000000) = 32.
Proof.
  split; [lia|].
  destruct (ffs_correct 0x80000000 ltac:(lia)) as (_ & _ & _ & Hp).
  exact (Hp 31 ltac:(lia)).
Defined.

End Ffs.

(** ** kernel/irq/msi.c *)

Module Msi.

Definition NULL : Z := 0.

(** Modelled from the spec: [MSI_MAX_VECTORS] is declared in [irq/msi.h],
    which is not among the sources; the design document fixes it at 32. *)
Definition MSI_MAX_VECTORS : Z := 32.

(** *** Objects in kernel memory

    [struct list_head], [struct msi_desc] and [struct msi_device_data].
    The list head is the first member of a descriptor (the code casts a
    [list_head *] to a [msi_desc *]), so a descriptor and its list head
    share one address; the registry and its sentinel head are likewise kept
    at one address.  The message of a descriptor, its [multiple] field
    (written by [msi_desc_alloc] only, and read by nothing) and the registry
    lock are left out.

    Modelled from the spec: the declarations of the structures are in
    [irq/msi.h], which is not among the sources.  [hwirq] and [irq] are
    32-bit; [num_vectors] is "a counter" and [refcount] "a non-negative
    integer", kept here as integers without a width. *)

Record list_head := ListHead { next : Z; prev : Z }.

Record msi_desc := MsiDesc {
  desc_list : list_head;
  irq : Z;
  hwirq : Z;
  dev : Z;
  msi_attrib : Z;
  refcount : Z;
}.

Record msi_device_data := MsiDeviceData {
  data_list : list_head;
  num_vectors : Z;
}.

Inductive object :=
  | ODesc (d : msi_desc)
  | OData (m : msi_device_data).

Global Instance list_head_eq_dec : EqDecision list_head.
Proof. solve_decision. Defined.
Global Instance msi_desc_eq_dec : EqDecision msi_desc.
Proof. solve_decision. Defined.
Global Instance msi_device_data_eq_dec : EqDecision msi_device_data.
Proof. solve_decision. Defined.
Global Instance object_eq_dec : EqDecision object.
Proof. solve_decision. Defined.

(** Field updates. *)
Definition desc_set_list (l : list_head) (d : msi_desc) : msi_desc :=
  MsiDesc l (irq d) (hwirq d) (dev d) (msi_attrib d) (refcount d).
Definition desc_set_irq (v : Z) (d : msi_desc) : msi_desc :=
  MsiDesc (desc_list d) v (hwirq d) (dev d) (msi_attrib d) (refcount d).
Definition desc_set_hwirq (v : Z) (d : msi_desc) : msi_desc :=
  MsiDesc (desc_list d) (irq d) v (dev d) (msi_attrib d) (refcount d).
Definition desc_set_dev (v : Z) (d : msi_desc) : msi_desc :=
  MsiDesc (desc_list d) (irq d) (hwirq d) v (msi_attrib d) (refcount d).
Definition desc_set_msi_attrib (v : Z) (d : msi_desc) : msi_desc :=
  MsiDesc (desc_list d) (irq d) (hwirq d) (dev d) v (refcount d).
Definition desc_set_refcount (v : Z) (d : msi_desc) : msi_desc :=
  MsiDesc (desc_list d) (irq d) (hwirq d) (dev d) (msi_attrib d) v.
Definition desc_set_next (v : Z) (d : msi_desc) : msi_desc :=
  desc_set_list (ListHead v (prev (desc_list d))) d.
Definition desc_set_prev (v : Z) (d : msi_desc) : msi_desc :=
  desc_set_list (ListHead (next (desc_list d)) v) d.
Definition data_set_list (l : list_head) (m : msi_device_data)
  : msi_device_data := MsiDeviceData l (num_vectors m).
Definition data_set_next (v : Z) (m : msi_device_data) : msi_device_data :=
  data_set_list (ListHead v (prev (data_list m))) m.
Definition data_set_prev (v : Z) (m : msi_device_data) : msi_device_data :=
  data_set_list (ListHead (next (data_list m)) v) m.
Definition data_set_num_vectors (v : Z) (m : msi_device_data)
  : msi_device_data := MsiDeviceData (data_list m) v.

Definition obj_list (o : object) : list_head :=
  match o with ODesc d => desc_list d | OData m => data_list m end.
Definition obj_set_list (l : list_head) (o : object) : object :=
  match o with
  | ODesc d => ODesc (desc_set_list l d)
  | OData m => OData (data_set_list l m)
  end.
(** [p->next = v] and [p->prev = v] through a [list_head *]. *)
Definition obj_set_next (v : Z) (o : object) : object :=
  obj_set_list (ListHead v (prev (obj_list o))) o.
Definition obj_set_prev (v : Z) (o : object) : object :=
  obj_set_list (ListHead (next (obj_list o)) v) o.
Definition on_desc (f : msi_desc → msi_desc) (o : object) : object :=
  match o with ODesc d => ODesc (f d) | OData m => OData m end.
Definition on_data (f : msi_device_data → msi_device_data) (o : object)
  : object :=
  match o with ODesc d => ODesc d | OData m => OData (f m) end.

(** *** Memory accesses

    A load or store through a pointer to no live object of the expected
    type has no result. *)

Definition load_list (h : gmap Z object) (p : Z) : option list_head :=
  obj_list <$> h !! p.
Definition load_desc (h : gmap Z object) (p : Z) : option msi_desc :=
  match h !! p with Some (ODesc d) => Some d | _ => None end.
Definition load_data (h : gmap Z object) (p : Z) : option msi_device_data :=
  match h !! p with Some (OData m) => Some m | _ => None end.

Definition store_list (h : gmap Z object) (p : Z) (f : object → object)
  : option (gmap Z object) :=
  match h !! p with Some _ => Some (alter f p h) | None => None end.
Definition store_desc (h : gmap Z object) (p : Z) (f : msi_desc → msi_desc)
  : option (gmap Z object) :=
  match h !! p with
  | Some (ODesc _) => Some (alter (on_desc f) p h)
  | _ => None
  end.
Definition store_data (h : gmap Z object) (p : Z)
    (f : msi_device_data → msi_device_data) : option (gmap Z object) :=
  match h !! p with
  | Some (OData _) => Some (alter (on_data f) p h)
  | _ => None
  end.

(** [kfree(p)] of a live object. *)
Definition kfree (h : gmap Z object) (p : Z) : option (gmap Z object) :=
  match h !! p with Some _ => Some (delete p h) | None => None end.

(** The two statements that take a node out of its list:
    [p->list.next->prev = p->list.prev; p->list.prev->next = p->list.next;] *)
Definition list_unlink (h : gmap Z object) (p : Z)
  : option (gmap Z object) :=
  l ← load_list h p;
  h ← store_list h (next l) (obj_set_prev (prev l));
  l ← load_list h p;
  store_list h (prev l) (obj_set_next (next l)).

(** *** The IRQ domain behind [dev->msi_domain]

    Modelled from the spec: the IRQ-domain core ([irq/irq_domain.h]) is not
    among the sources.  A domain is the set of reserved hardware ids and the
    table of mappings from hardware ids to virtual IRQs. *)

Record irq_domain := IrqDomain {
  reserved : gset Z;
  mapping : gmap Z Z;
}.

Global Instance irq_domain_eq_dec : EqDecision irq_domain.
Proof. solve_decision. Defined.

(** *** The device

    [struct device] as far as this file uses it: its own address,
    [dev->msi_data] and the domain [dev->msi_domain] points to ([None] for a
    NULL pointer); together with kernel memory this is the state. *)

Record state := State {
  heap : gmap Z object;
  dev_self : Z;
  dev_msi_data : Z;
  dev_msi_domain : option irq_domain;
}.

Definition set_heap (h : gmap Z object) (st : state) : state :=
  State h (dev_self st) (dev_msi_data st) (dev_msi_domain st).
Definition set_domain (d : irq_domain) (st : state) : state :=
  State (heap st) (dev_self st) (dev_msi_data st) (Some d).
Definition set_msi_data (p : Z) (st : state) : state :=
  State (heap st) (dev_self st) p (dev_msi_domain st).

(** *** The environment

    What the allocator and the IRQ-domain core decide: the address
    [kmalloc] returns for a given memory ([NULL] when it fails), the base the
    domain proposes for a range of [n] ids ([None] when it has none), and the
    virtual IRQ proposed for a new mapping ([0] when it fails). *)

Record environment := Environment {
  kmalloc_pick : gmap Z object → Z;
  hwirq_pick : irq_domain → Z → option Z;
  virq_pick : irq_domain → Z → Z;
}.

Definition hwirq_range (base n : Z) : gset Z := list_to_set (seqZ base n).

Section Model.

Variable env : environment.

(** Modelled from the spec: [kmalloc(size, KM_ZERO)] returns the address of
    fresh memory or NULL; an address that is NULL or already live is a
    failed allocation. *)
Definition kmalloc (h : gmap Z object) : Z :=
  let p := kmalloc_pick env h in
  if bool_decide (p ≠ NULL ∧ h !! p = None) then p else NULL.

(** Modelled from the spec: "Reserves n consecutive ids; returns 0 on success
    and writes base, negative on failure."  The ids are 32-bit and a reserved
    id is not handed out again. *)
Definition irq_domain_alloc_hwirq_range (d : irq_domain) (n : Z)
  : option (Z * irq_domain) :=
  match hwirq_pick env d n with
  | Some base =>
      if bool_decide (0 ≤ base ∧ base + n ≤ 2 ^ 32 ∧
                      hwirq_range base n ## reserved d)
      then Some (base, IrqDomain (reserved d ∪ hwirq_range base n) (mapping d))
      else None
  | None => None
  end.

(** Modelled from the spec: "Releases the inclusive range". *)
Definition irq_domain_free_hwirq_range (d : irq_domain) (base n : Z)
  : irq_domain :=
  IrqDomain (reserved d ∖ hwirq_range base n) (mapping d).

(** Modelled from the spec: "Returns a non-zero virq or 0 on failure;
    repeated calls with the same hwirq may return the same virq."  A virtual
    IRQ is a non-zero 32-bit number not in use by another mapping. *)
Definition irq_create_mapping (d : irq_domain) (hw : Z) : Z * irq_domain :=
  match mapping d !! hw with
  | Some virq => (virq, d)
  | None =>
      let virq := virq_pick env d hw in
      if bool_decide (0 < virq < 2 ^ 32 ∧
                      map_Forall (λ _ v, v ≠ virq) (mapping d))
      then (virq, IrqDomain (reserved d) (<[hw := virq]> (mapping d)))
      else (0, d)
  end.

(** Modelled from the spec: "Tears down the mapping". *)
Definition irq_dispose_mapping (d : irq_domain) (virq : Z) : irq_domain :=
  IrqDomain (reserved d) (filter (λ kv, kv.2 ≠ virq) (mapping d)).

(** [msi_desc_alloc_internal]: the new descriptor's address ([NULL] on
    failure) and the memory. *)
Definition msi_desc_alloc_internal (h : gmap Z object)
  : Z * gmap Z object :=
  let desc := kmalloc h in
  if desc =? NULL then (NULL, h)
  else (desc, <[desc := ODesc (MsiDesc (ListHead desc desc) 0 0 0 0 1)]> h).

(** [msi_desc_free] *)
Definition msi_desc_free (h : gmap Z object) (desc : Z)
  : option (gmap Z object) :=
  if desc =? NULL then Some h
  else
    d ← load_desc h desc;
    h ← store_desc h desc (desc_set_refcount (refcount d - 1));
    d ← load_desc h desc;
    if 0 <? refcount d then Some h
    else
      h ← (if next (desc_list d) =? desc then Some h
           else list_unlink h desc);
      kfree h desc.

(** [msi_desc_list_add_locked]: the return value and the memory. *)
Definition msi_desc_list_add_locked (h : gmap Z object) (msi_data desc : Z)
  : option (Z * gmap Z object) :=
  if (msi_data =? NULL) || (desc =? NULL) then Some (-1, h)
  else
    h ← store_desc h desc (desc_set_next msi_data);
    m ← load_data h msi_data;
    h ← store_desc h desc (desc_set_prev (prev (data_list m)));
    m ← load_data h msi_data;
    h ← store_list h (prev (data_list m)) (obj_set_next desc);
    h ← store_data h msi_data (data_set_prev desc);
    m ← load_data h msi_data;
    h ← store_data h msi_data (data_set_num_vectors (num_vectors m + 1));
    d ← load_desc h desc;
    h ← store_desc h desc (desc_set_refcount (refcount d + 1));
    Some (0, h).

(** [msi_device_init] *)
Definition msi_device_init (st : state) : Z * state :=
  let msi_data := kmalloc (heap st) in
  if msi_data =? NULL then (-1, st)
  else
    let h :=
      <[msi_data := OData (MsiDeviceData (ListHead msi_data msi_data) 0)]>
        (heap st) in
    (0, set_msi_data msi_data (set_heap h st)).

(** A list walk that has not come back to the sentinel after visiting more
    nodes than there are live objects never comes back; this is the bound on
    the walks below. *)
Definition walk_fuel (h : gmap Z object) : nat := S (size h).

(** The loop of [msi_device_cleanup], entered at [desc]. *)
Fixpoint device_cleanup_walk (fuel : nat) (h : gmap Z object)
    (msi_data desc : Z) : option (gmap Z object) :=
  match fuel with
  | O => None
  | S fuel =>
      if desc =? msi_data then Some h
      else
        d ← load_desc h desc;
        let next := next (desc_list d) in
        h ← list_unlink h desc;
        d ← load_desc h desc;
        h ← store_desc h desc (desc_set_refcount (refcount d - 1));
        d ← load_desc h desc;
        h ← (if refcount d =? 0 then kfree h desc else Some h);
        device_cleanup_walk fuel h msi_data next
  end.

(** [msi_device_cleanup] *)
Definition msi_device_cleanup (st : state) : option state :=
  if dev_msi_data st =? NULL then Some st
  else
    let msi_data := dev_msi_data st in
    m ← load_data (heap st) msi_data;
    h ← device_cleanup_walk (walk_fuel (heap st)) (heap st) msi_data
          (next (data_list m));
    h ← kfree h msi_data;
    Some (set_msi_data NULL (set_heap h st)).

(** The size selection of [msi_alloc_vectors]:
    [nvec = 1; while (nvec <= max_vecs) nvec <<= 1; nvec >>= 1;]
    on [uint32_t].  After 32 doublings [nvec] is 0 for good, so a loop that
    has not stopped after 33 tests never stops. *)
Fixpoint nvec_loop (fuel : nat) (nvec max_vecs : Z) : option Z :=
  match fuel with
  | O => None
  | S fuel =>
      if nvec <=? max_vecs then nvec_loop fuel (wrap32 (nvec ≪ 1)) max_vecs
      else Some nvec
  end.

Definition msi_nvec (max_vecs : Z) : option Z :=
  nvec ← nvec_loop 33 1 max_vecs; Some (nvec ≫ 1).

(** How one iteration of the population loop ends. *)
Inductive step_result :=
  | Continue (st : state)
  | GotoCleanup (st : state).

(** The body of [for (i = 0; i < nvec; i++)] in [msi_alloc_vectors]. *)
Definition populate_body (st : state) (hwirq_base flags : Z) (i : nat)
  : option step_result :=
  dom ← dev_msi_domain st;
  let '(desc, h) := msi_desc_alloc_internal (heap st) in
  if desc =? NULL then Some (GotoCleanup st)
  else
    h ← store_desc h desc (desc_set_dev (dev_self st));
    h ← store_desc h desc
          (desc_set_hwirq (wrap32 (hwirq_base + Z.of_nat i)));
    h ← store_desc h desc (desc_set_msi_attrib (Z.land flags 0xFFFF));
    d ← load_desc h desc;
    let '(virq, dom) := irq_create_mapping dom (hwirq d) in
    h ← store_desc h desc (desc_set_irq virq);
    d ← load_desc h desc;
    if irq d =? 0 then
      h ← kfree h desc;
      Some (GotoCleanup (set_domain dom (set_heap h st)))
    else
      '(r, h) ← msi_desc_list_add_locked h (dev_msi_data st) desc;
      if r <? 0 then
        d ← load_desc h desc;
        let dom := irq_dispose_mapping dom (irq d) in
        h ← kfree h desc;
        Some (GotoCleanup (set_domain dom (set_heap h st)))
      else Some (Continue (set_domain dom (set_heap h st))).

(** The population loop with [n] iterations left, at index [i]: the state
    when it runs to the end ([None]) or when it leaves for [cleanup] with
    the index [i] it stopped at. *)
Fixpoint populate (n i : nat) (st : state) (hwirq_base flags : Z)
  : option (option nat * state) :=
  match n with
  | O => Some (None, st)
  | S n =>
      r ← populate_body st hwirq_base flags i;
      match r with
      | GotoCleanup st => Some (Some i, st)
      | Continue st => populate n (S i) st hwirq_base flags
      end
  end.

(** The inner loop of the rollback: look from [d] on for the descriptor
    with hardware id [hw], and take it out. *)
Fixpoint cleanup_scan (fuel : nat) (st : state) (hw d : Z) : option state :=
  match fuel with
  | O => None
  | S fuel =>
      if d =? dev_msi_data st then Some st
      else
        desc ← load_desc (heap st) d;
        if hwirq desc =? hw then
          dom ← dev_msi_domain st;
          let dom := irq_dispose_mapping dom (irq desc) in
          h ← list_unlink (heap st) d;
          m ← load_data h (dev_msi_data st);
          h ← store_data h (dev_msi_data st)
                (data_set_num_vectors (num_vectors m - 1));
          h ← kfree h d;
          Some (set_domain dom (set_heap h st))
        else cleanup_scan fuel st hw (next (desc_list desc))
  end.

(** One turn of [while (i > 0)] after [i--]. *)
Definition cleanup_step (st : state) (hw : Z) : option state :=
  m ← load_data (heap st) (dev_msi_data st);
  cleanup_scan (walk_fuel (heap st)) st hw (next (data_list m)).

(** The rollback loop [while (i > 0) { i--; ... }]. *)
Fixpoint cleanup (i : nat) (st : state) (hwirq_base : Z) : option state :=
  match i with
  | O => Some st
  | S i =>
      st ← cleanup_step st (wrap32 (hwirq_base + Z.of_nat i));
      cleanup i st hwirq_base
  end.

(** [msi_alloc_vectors] from the range reservation on (the part under the
    registry lock), for the block size [nvec] chosen by size selection. *)
Definition msi_alloc_block (st : state) (nvec flags : Z)
  : option (Z * state) :=
  dom ← dev_msi_domain st;
  match irq_domain_alloc_hwirq_range dom nvec with
  | None => Some (-1, st)
  | Some (hwirq_base, dom) =>
      r ← populate (Z.to_nat nvec) 0 (set_domain dom st) hwirq_base flags;
      match r with
      | (None, st) => Some (nvec, st)
      | (Some i, st) =>
          st ← cleanup i st hwirq_base;
          dom ← dev_msi_domain st;
          Some (-1, set_domain
                      (irq_domain_free_hwirq_range dom hwirq_base nvec) st)
      end
  end.

(** [msi_alloc_vectors]: the return value and the state.  (The device
    pointer itself is never NULL here.) *)
Definition msi_alloc_vectors (st : state) (min_vecs max_vecs flags : Z)
  : option (Z * state) :=
  if (dev_msi_data st =? NULL) || bool_decide (dev_msi_domain st = None)
     || (min_vecs =? 0) || (max_vecs <? min_vecs)
     || (MSI_MAX_VECTORS <? max_vecs)
  then Some (-1, st)
  else
    nvec ← msi_nvec max_vecs;
    if nvec <? min_vecs then Some (-1, st)
    else msi_alloc_block st nvec flags.

(** The loop of [msi_free_vectors], entered at [desc]. *)
Fixpoint free_walk (fuel : nat) (st : state) (desc : Z) : option state :=
  match fuel with
  | O => None
  | S fuel =>
      if desc =? dev_msi_data st then Some st
      else
        d ← load_desc (heap st) desc;
        let next := next (desc_list d) in
        dom ← dev_msi_domain st;
        let dom :=
          if irq d =? 0 then dom else irq_dispose_mapping dom (irq d) in
        let dom := irq_domain_free_hwirq_range dom (hwirq d) 1 in
        h ← list_unlink (heap st) desc;
        m ← load_data h (dev_msi_data st);
        h ← store_data h (dev_msi_data st)
              (data_set_num_vectors (num_vectors m - 1));
        h ← kfree h desc;
        free_walk fuel (set_domain dom (set_heap h st)) next
  end.

(** [msi_free_vectors] *)
Definition msi_free_vectors (st : state) : option state :=
  if (dev_msi_data st =? NULL) || bool_decide (dev_msi_domain st = None)
  then Some st
  else
    m ← load_data (heap st) (dev_msi_data st);
    free_walk (walk_fuel (heap st)) st (next (data_list m)).

End Model.

(** *** Reasoning about memory *)

Lemma store_list_Some h p f o :
  h !! p = Some o → store_list h p f = Some (alter f p h).
Proof. unfold store_list. by intros ->. Qed.

Lemma store_desc_Some h p f d :
  h !! p = Some (ODesc d) → store_desc h p f = Some (alter (on_desc f) p h).
Proof. unfold store_desc. by intros ->. Qed.

Lemma store_data_Some h p f m :
  h !! p = Some (OData m) → store_data h p f = Some (alter (on_data f) p h).
Proof. unfold store_data. by intros ->. Qed.

Lemma load_desc_Some h p d :
  h !! p = Some (ODesc d) → load_desc h p = Some d.
Proof. unfold load_desc. by intros ->. Qed.

Lemma load_data_Some h p m :
  h !! p = Some (OData m) → load_data h p = Some m.
Proof. unfold load_data. by intros ->. Qed.

Lemma load_list_Some h p o :
  h !! p = Some o → load_list h p = Some (obj_list o).
Proof. unfold load_list. by intros ->. Qed.

Lemma kfree_Some h p o : h !! p = Some o → kfree h p = Some (delete p h).
Proof. unfold kfree. by intros ->. Qed.

(** Lookups through [alter], [insert] and [delete] at keys known to be
    equal or different. *)
Ltac heap_lookup :=
  repeat first
    [ rewrite lookup_alter_eq
    | rewrite lookup_insert_eq
    | rewrite lookup_delete_eq
    | rewrite lookup_alter_ne by congruence
    | rewrite lookup_insert_ne by congruence
    | rewrite lookup_delete_ne by congruence
    | match goal with
      | H : ?h !! ?p = _ |- context [?h !! ?p] => rewrite H
      end ];
  simpl.

(** One memory access of a monadic computation whose pointer is live. *)
Ltac heap_step :=
  let side := (heap_lookup; try eassumption; simpl; reflexivity) in
  first
    [ erewrite store_desc_Some by side
    | erewrite store_data_Some by side
    | erewrite store_list_Some by side
    | erewrite load_desc_Some by side
    | erewrite load_data_Some by side
    | erewrite load_list_Some by side
    | erewrite kfree_Some by side ];
  simpl.

(** Equality of two memories written with [alter], [insert], [delete]. *)
Ltac heap_eq :=
  apply map_eq; intros ?k;
  repeat (rewrite ?lookup_alter, ?lookup_insert, ?lookup_delete;
          case_decide; subst; simpl);
  try congruence;
  repeat match goal with
         | H : ?h !! ?p = _ |- context [?h !! ?p] => rewrite H
         end;
  simpl; try done.

(** *** The doubly-linked list of a registry

    [dseg h pp p q qn l]: in memory [h] the descriptors at the addresses
    [l], in this order, form a doubly-linked segment entered at [p] from
    [pp], whose last node is [q] and leads on to [qn]. *)
Fixpoint dseg (h : gmap Z object) (pp p q qn : Z) (l : list Z) : Prop :=
  match l with
  | [] => p = qn ∧ pp = q
  | x :: l =>
      p = x ∧
      ∃ d, h !! x = Some (ODesc d) ∧ prev (desc_list d) = pp ∧
           dseg h x (next (desc_list d)) q qn l
  end.

(** [registry h s l]: the registry at [s] lists exactly the descriptors at
    [l], its sentinel closing the circle, and counts them. *)
Definition registry (h : gmap Z object) (s : Z) (l : list Z) : Prop :=
  ∃ m, h !! s = Some (OData m) ∧
       dseg h s (next (data_list m)) (prev (data_list m)) s l ∧
       NoDup l ∧
       num_vectors m = Z.of_nat (length l).

Lemma dseg_frame h h' pp p q qn l :
  (∀ x, x ∈ l → h' !! x = h !! x) →
  dseg h pp p q qn l → dseg h' pp p q qn l.
Proof.
  revert pp p. induction l as [|x l IH]; intros pp p Hfr; simpl; [done|].
  intros (-> & d & Hx & Hp & Hseg). split; [done|]. exists d.
  rewrite Hfr by left. split; [done|]. split; [done|].
  apply IH; [|done]. intros y Hy. apply Hfr. by right.
Qed.

Lemma dseg_snoc h pp p q qn l x :
  dseg h pp p q qn (l ++ [x]) ↔
  q = x ∧ ∃ d, h !! x = Some (ODesc d) ∧ next (desc_list d) = qn ∧
               dseg h pp p (prev (desc_list d)) x l.
Proof.
  revert pp p. induction l as [|y l IH]; intros pp p; simpl.
  - split.
    + intros (-> & d & Hx & Hp & Hn & Hq). split; [done|]. by exists d.
    + intros (-> & d & Hx & Hn & -> & Hp). split; [done|]. by exists d.
  - split.
    + intros (-> & d & Hy & Hp & Hseg).
      apply IH in Hseg as (-> & dx & Hx & Hn & Hseg).
      split; [done|]. exists dx. do 3 (split; [done|]). by exists d.
    + intros (-> & dx & Hx & Hn & -> & d & Hy & Hp & Hseg).
      split; [done|]. exists d. do 2 (split; [done|]).
      apply IH. split; [done|]. by exists dx.
Qed.

Lemma dseg_lookup h pp p q qn l x :
  dseg h pp p q qn l → x ∈ l → ∃ d, h !! x = Some (ODesc d).
Proof.
  revert pp p. induction l as [|y l IH]; intros pp p; simpl.
  - intros _ Hx. by apply elem_of_nil in Hx.
  - intros (-> & d & Hy & _ & Hseg) [->|Hx]%elem_of_cons; eauto.
Qed.

Lemma registry_sentinel_notin h s l : registry h s l → s ∉ l.
Proof.
  intros (m & Hs & Hseg & _) Hin.
  destruct (dseg_lookup _ _ _ _ _ _ _ Hseg Hin) as [d Hd]. congruence.
Qed.

(** The node before the sentinel (the tail, or the sentinel itself in an
    empty list) leads on to the sentinel. *)
Lemma dseg_tail h s m l :
  h !! s = Some (OData m) →
  dseg h s (next (data_list m)) (prev (data_list m)) s l →
  ∃ o, h !! prev (data_list m) = Some o ∧ next (obj_list o) = s ∧
       (l = [] ∧ prev (data_list m) = s ∨
        ∃ l0, l = l0 ++ [prev (data_list m)]).
Proof.
  intros Hs Hseg. destruct l as [|x l0 _] using rev_ind.
  - destruct Hseg as [Hn Hp]. exists (OData m). rewrite <- Hp.
    split; [done|]. split; [done|]. left. done.
  - apply dseg_snoc in Hseg as (Hq & d & Hx & Hn & _).
    exists (ODesc d). rewrite Hq. split; [done|]. split; [done|].
    right. by exists l0.
Qed.

Lemma NoDup_live_length (h : gmap Z object) (l : list Z) :
  NoDup l → (∀ x, x ∈ l → is_Some (h !! x)) → (length l ≤ size h)%nat.
Proof.
  intros Hnd Hlive.
  rewrite <- (size_list_to_set (C := gset Z) l Hnd), <- (size_dom h).
  apply subseteq_size. intros x Hx. apply elem_of_list_to_set in Hx.
  apply elem_of_dom. auto.
Qed.

Lemma registry_length_lt h s l :
  registry h s l → (length l < size h)%nat.
Proof.
  intros Hreg. pose proof (registry_sentinel_notin _ _ _ Hreg) as Hs.
  destruct Hreg as (m & Hm & Hseg & Hnd & _).
  assert (length (s :: l) ≤ size h)%nat as Hle; [|simpl in Hle; lia].
  apply NoDup_live_length; [by constructor|].
  intros x [->|Hx]%elem_of_cons; [eauto|].
  destruct (dseg_lookup _ _ _ _ _ _ _ Hseg Hx); eauto.
Qed.


(** *** Appending a descriptor *)

Definition desc_payload (d : msi_desc) : Z * Z * Z * Z * Z :=
  (irq d, hwirq d, dev d, msi_attrib d, refcount d).

(** The memory after [msi_desc_list_add_locked] has appended the
    descriptor [d] at [a] to the registry [m] at [s]. *)
Definition added (h : gmap Z object) (s a : Z) (m : msi_device_data)
    (d : msi_desc) : gmap Z object :=
  let q := prev (data_list m) in
  let first := if decide (q = s) then a else next (data_list m) in
  <[a := ODesc (MsiDesc (ListHead s q) (irq d) (hwirq d) (dev d)
                        (msi_attrib d) (refcount d + 1))]>
    (<[s := OData (MsiDeviceData (ListHead first a) (num_vectors m + 1))]>
       (alter (obj_set_next a) q h)).

Lemma list_add_locked_eq h s a m d :
  s ≠ NULL → a ≠ NULL → a ≠ s →
  h !! s = Some (OData m) → h !! a = Some (ODesc d) →
  is_Some (h !! prev (data_list m)) → prev (data_list m) ≠ a →
  msi_desc_list_add_locked h s a = Some (0, added h s a m d).
Proof.
  intros Hs Ha Has Hm Hd [oq Hq] Hqa. unfold msi_desc_list_add_locked.
  destruct (Z.eqb_spec s NULL); [done|].
  destruct (Z.eqb_spec a NULL); [done|].
  simpl. unfold added.
  destruct (decide (prev (data_list m) = s)) as [Hqs|Hqs].
  - rewrite Hqs in *. clear Hq. repeat (heap_step; rewrite ?Hqs).
    apply (f_equal (λ x, Some (0, x))). clear Hqs.
    heap_eq; destruct m as [[??]?], d as [[??]?????]; done.
  - repeat heap_step.
    apply (f_equal (λ x, Some (0, x))).
    heap_eq; destruct m as [[??]?], d as [[??]?????]; done.
Qed.

Lemma added_lookup_new h s a m d :
  added h s a m d !! a =
    Some (ODesc (MsiDesc (ListHead s (prev (data_list m))) (irq d) (hwirq d)
                         (dev d) (msi_attrib d) (refcount d + 1))).
Proof. unfold added. by rewrite lookup_insert_eq. Qed.

Lemma added_lookup_sentinel h s a m d :
  a ≠ s →
  added h s a m d !! s =
    Some (OData (MsiDeviceData
      (ListHead (if decide (prev (data_list m) = s) then a
                 else next (data_list m)) a)
      (num_vectors m + 1))).
Proof.
  intros. unfold added. by rewrite lookup_insert_ne, lookup_insert_eq.
Qed.

Lemma added_lookup_desc h s a m d x dx :
  x ≠ a → x ≠ s → h !! x = Some (ODesc dx) →
  ∃ dx', added h s a m d !! x = Some (ODesc dx') ∧
         desc_payload dx' = desc_payload dx ∧
         prev (desc_list dx') = prev (desc_list dx) ∧
         next (desc_list dx') =
           if decide (prev (data_list m) = x) then a
           else next (desc_list dx).
Proof.
  intros Hxa Hxs Hx. unfold added.
  rewrite !lookup_insert_ne, lookup_alter by done.
  case_decide as Hq.
  - rewrite Hq, Hx. simpl. eauto.
  - eauto.
Qed.

Lemma added_lookup_other h s a m d k :
  k ≠ a → k ≠ s → k ≠ prev (data_list m) →
  added h s a m d !! k = h !! k.
Proof.
  intros. unfold added. by rewrite !lookup_insert_ne, lookup_alter_ne.
Qed.

Lemma added_dseg_frame h s a m d pp p q qn l :
  a ∉ l → s ∉ l → prev (data_list m) ∉ l →
  dseg h pp p q qn l → dseg (added h s a m d) pp p q qn l.
Proof.
  intros Ha Hs Hq. apply dseg_frame. intros x Hx.
  apply added_lookup_other; intros ->; done.
Qed.

Lemma added_registry h s a m d l :
  h !! s = Some (OData m) → h !! a = Some (ODesc d) →
  registry h s l → a ∉ l →
  registry (added h s a m d) s (l ++ [a]).
Proof.
  intros Hm Ha Hreg Hal.
  pose proof (registry_sentinel_notin _ _ _ Hreg) as Hsl.
  destruct Hreg as (m' & Hm' & Hseg & Hnd & Hnv).
  assert (m' = m) as -> by congruence. clear Hm'.
  assert (a ≠ s) as Has by congruence.
  eexists. split; [by apply added_lookup_sentinel|]. simpl.
  split; [|split].
  - apply dseg_snoc. split; [done|]. eexists.
    split; [apply added_lookup_new|]. simpl. split; [done|].
    destruct (dseg_tail _ _ _ _ Hm Hseg) as (o & Ho & Hon & [[-> Hq]|[l0 ->]]).
    + rewrite decide_True by done. simpl. done.
    + apply dseg_snoc in Hseg as (_ & dq & Hdq & Hnq & Hseg).
      apply list.NoDup_app in Hnd as (_ & Hdisj & _).
      assert (prev (data_list m) ≠ s) as Hqs by congruence.
      assert (prev (data_list m) ≠ a) as Hqa.
      { intros E. apply Hal. rewrite <- E. apply elem_of_app. right. left. }
      rewrite decide_False by done.
      destruct (added_lookup_desc h s a m d _ _ Hqa Hqs Hdq)
        as (dq' & Hdq' & _ & Hpq & Hnq').
      rewrite decide_True in Hnq' by done.
      apply dseg_snoc. split; [done|]. exists dq'.
      split; [done|]. split; [done|]. rewrite Hpq.
      apply added_dseg_frame; [| |..|done].
      * intros ?. apply Hal. apply elem_of_app. by left.
      * intros ?. apply Hsl. apply elem_of_app. by left.
      * intros Hin. apply (Hdisj _ Hin). by left.
  - apply list.NoDup_app. split; [done|]. split; [|apply NoDup_singleton].
    intros x Hx Hxa%list_elem_of_singleton. by subst.
  - simpl. rewrite length_app. simpl. lia.
Qed.


(** *** The IRQ domain *)

Lemma elem_of_hwirq_range x base n :
  x ∈ hwirq_range base n ↔ base ≤ x < base + n.
Proof. unfold hwirq_range. by rewrite elem_of_list_to_set, elem_of_seqZ. Qed.

Lemma alloc_hwirq_range_Some env dom n base dom1 :
  irq_domain_alloc_hwirq_range env dom n = Some (base, dom1) →
  0 ≤ base ∧ base + n ≤ 2 ^ 32 ∧ hwirq_range base n ## reserved dom ∧
  dom1 = IrqDomain (reserved dom ∪ hwirq_range base n) (mapping dom).
Proof.
  unfold irq_domain_alloc_hwirq_range.
  destruct (hwirq_pick env dom n) as [b|]; [|done].
  case_bool_decide as Hok; [|done].
  intros [= <- <-]. destruct Hok as (? & ? & ?). done.
Qed.

Lemma free_alloc_hwirq_range dom base n :
  hwirq_range base n ## reserved dom →
  irq_domain_free_hwirq_range
    (IrqDomain (reserved dom ∪ hwirq_range base n) (mapping dom)) base n
  = dom.
Proof.
  intros Hdisj. unfold irq_domain_free_hwirq_range. destruct dom as [r mp].
  simpl in *. f_equal. apply set_eq. intros x.
  rewrite elem_of_difference, elem_of_union. specialize (Hdisj x). tauto.
Qed.

Lemma create_mapping_spec env dom hw v dom' :
  mapping dom !! hw = None →
  irq_create_mapping env dom hw = (v, dom') →
  (v = 0 ∧ dom' = dom) ∨
  (0 < v < 2 ^ 32 ∧ map_Forall (λ _ v', v' ≠ v) (mapping dom) ∧
   dom' = IrqDomain (reserved dom) (<[hw := v]> (mapping dom))).
Proof.
  unfold irq_create_mapping. intros ->.
  case_bool_decide as Hok; intros [= <- <-]; [right|left; done].
  destruct Hok. done.
Qed.

Lemma dispose_created dom hw v :
  mapping dom !! hw = None →
  map_Forall (λ _ v', v' ≠ v) (mapping dom) →
  irq_dispose_mapping
    (IrqDomain (reserved dom) (<[hw := v]> (mapping dom))) v = dom.
Proof.
  intros Hhw Hfresh. unfold irq_dispose_mapping. destruct dom as [r mp].
  simpl in *. f_equal.
  rewrite map_filter_insert_False by (simpl; intros H; by apply H).
  rewrite delete_id by done.
  apply map_filter_id. intros k x Hk. simpl. by apply (Hfresh k).
Qed.

(** *** Consistent states

    A descriptor of the registry holds a mapped virtual IRQ, is counted
    twice (creation and insertion), and its hardware id is the one the
    domain maps to its virtual IRQ. *)
Definition desc_ok (dom : irq_domain) (d : msi_desc) : Prop :=
  irq d ≠ 0 ∧ refcount d = 2 ∧ mapping dom !! hwirq d = Some (irq d).

(** Mapped hardware ids are reserved, and no virtual IRQ is mapped twice. *)
Definition domain_ok (dom : irq_domain) : Prop :=
  (∀ hw v, mapping dom !! hw = Some v → hw ∈ reserved dom) ∧
  (∀ hw1 hw2 v,
     mapping dom !! hw1 = Some v → mapping dom !! hw2 = Some v → hw1 = hw2).

(** [msi_inv st l]: the device has a registry, whose list holds exactly
    the descriptors at [l] in this order, and a domain; the descriptors are
    well-formed and carry distinct hardware ids. *)
Record msi_inv (st : state) (l : list Z) : Prop := MsiInv {
  inv_data : dev_msi_data st ≠ NULL;
  inv_registry : registry (heap st) (dev_msi_data st) l;
  inv_domain :
    ∃ dom, dev_msi_domain st = Some dom ∧ domain_ok dom ∧
           ∀ x, x ∈ l → ∃ d, heap st !! x = Some (ODesc d) ∧ desc_ok dom d;
  inv_hwirq :
    ∀ x y dx dy, x ∈ l → y ∈ l →
      heap st !! x = Some (ODesc dx) → heap st !! y = Some (ODesc dy) →
      hwirq dx = hwirq dy → x = y;
}.

(** During the population loop at index [i]: the block [base .. base+n-1]
    is reserved, and nothing is mapped yet from [base+i] on. *)
Record loop_inv (st : state) (l : list Z) (base n : Z) (i : nat)
  : Prop := LoopInv {
  loop_msi : msi_inv st l;
  loop_bounds : 0 ≤ base ∧ base + n ≤ 2 ^ 32;
  loop_reserved :
    ∀ dom hw, dev_msi_domain st = Some dom →
      base ≤ hw < base + n → hw ∈ reserved dom;
  loop_unmapped :
    ∀ dom hw, dev_msi_domain st = Some dom →
      base + Z.of_nat i ≤ hw < base + n → mapping dom !! hw = None;
}.

Lemma state_eq st h dom :
  heap st = h → dev_msi_domain st = Some dom →
  set_domain dom (set_heap h st) = st.
Proof. destruct st. simpl. by intros -> ->. Qed.

Lemma kmalloc_spec env h :
  kmalloc env h = NULL ∨ (kmalloc env h ≠ NULL ∧ h !! kmalloc env h = None).
Proof.
  unfold kmalloc. case_bool_decide as Hok; [right|left; done].
  destruct Hok. done.
Qed.

(** *** The rollback finds what the loop has appended *)

Lemma cleanup_scan_skip l fuel st hw pp p q qn :
  dseg (heap st) pp p q qn l →
  dev_msi_data st ∉ l →
  (∀ x d, x ∈ l → heap st !! x = Some (ODesc d) → hwirq d ≠ hw) →
  cleanup_scan (length l + fuel) st hw p = cleanup_scan fuel st hw qn.
Proof.
  revert pp p. induction l as [|x l IH]; intros pp p Hseg Hs Hhw.
  - destruct Hseg as [-> _]. done.
  - destruct Hseg as (-> & d & Hx & _ & Hseg). simpl.
    destruct (Z.eqb_spec x (dev_msi_data st)) as [E|_].
    { exfalso. apply Hs. rewrite <- E. left. }
    rewrite (load_desc_Some _ _ _ Hx). simpl.
    destruct (Z.eqb_spec (hwirq d) hw) as [E|_].
    { exfalso. by apply (Hhw x d); [left|..]. }
    apply (IH _ _ Hseg).
    + intros Hin. apply Hs. by right.
    + intros y dy Hy. apply Hhw. by right.
Qed.

Lemma cleanup_scan_found fuel h dv s a m d dom oq :
  a ≠ s → h !! a = None → h !! s = Some (OData m) →
  h !! prev (data_list m) = Some oq → next (obj_list oq) = s →
  (prev (data_list m) = s → next (data_list m) = s) →
  cleanup_scan (S fuel)
    (State (added (<[a := ODesc d]> h) s a m d) dv s (Some dom))
    (hwirq d) a
  = Some (State h dv s (Some (irq_dispose_mapping dom (irq d)))).
Proof.
  intros Has Ha Hm Hq Hqn Hempty. simpl.
  destruct (Z.eqb_spec a s) as [|_]; [done|].
  rewrite (load_desc_Some _ _ _ (added_lookup_new _ _ _ _ _)). simpl.
  rewrite Z.eqb_refl. simpl.
  assert (prev (data_list m) ≠ a) as Hqa by congruence.
  unfold list_unlink, added.
  destruct (decide (prev (data_list m) = s)) as [Hqs|Hqs].
  - specialize (Hempty Hqs). destruct m as [[mn mp] nv]. simpl in *.
    subst mn mp. clear Hq. repeat heap_step.
    unfold set_domain, set_heap. simpl. do 2 f_equal.
    heap_eq. unfold data_set_num_vectors. simpl. do 3 f_equal. lia.
  - repeat heap_step.
    unfold set_domain, set_heap. simpl. do 2 f_equal.
    heap_eq.
    + destruct m as [[??]?]. unfold data_set_num_vectors. simpl.
      do 3 f_equal. lia.
    + destruct oq as [[[??]?????]|[[??]?]]; simpl in *; by subst.
Qed.


Lemma registry_frame h h' s l :
  h' !! s = h !! s → (∀ x, x ∈ l → h' !! x = h !! x) →
  registry h s l → registry h' s l.
Proof.
  intros Hs Hl (m & Hm & Hseg & Hnd & Hnv). exists m.
  rewrite Hs. split; [done|]. split; [|done].
  by apply (dseg_frame h).
Qed.

Lemma registry_empty_next h s m l :
  h !! s = Some (OData m) → registry h s l →
  prev (data_list m) = s → next (data_list m) = s.
Proof.
  intros Hm (m' & Hm' & Hseg & _) Hp.
  assert (m' = m) as -> by congruence.
  destruct (dseg_tail _ _ _ _ Hm Hseg) as (o & Ho & Hn & _).
  rewrite Hp in Ho. assert (o = OData m) as -> by congruence. done.
Qed.

Lemma domain_ok_insert dom hw v :
  domain_ok dom → hw ∈ reserved dom →
  map_Forall (λ _ v', v' ≠ v) (mapping dom) →
  domain_ok (IrqDomain (reserved dom) (<[hw := v]> (mapping dom))).
Proof.
  intros [Hres Hinj] Hhw Hfresh. split; simpl.
  - intros hw' v'. rewrite lookup_insert. case_decide; [by intros; subst|].
    apply Hres.
  - intros h1 h2 v'. rewrite !lookup_insert.
    repeat case_decide; subst; try done.
    + intros [= <-] Hh2. by destruct (Hfresh _ _ Hh2).
    + intros Hh1 [= <-]. by destruct (Hfresh _ _ Hh1).
    + apply Hinj.
Qed.

Lemma prepare_desc (h : gmap Z object) a dv hw attr virq :
  alter (on_desc (desc_set_irq virq)) a
    (alter (on_desc (desc_set_msi_attrib attr)) a
       (alter (on_desc (desc_set_hwirq hw)) a
          (alter (on_desc (desc_set_dev dv)) a
             (<[a := ODesc (MsiDesc (ListHead a a) 0 0 0 0 1)]> h))))
  = <[a := ODesc (MsiDesc (ListHead a a) virq hw dv attr 1)]> h.
Proof. by rewrite !alter_insert_eq. Qed.

Lemma cleanup_step_eq st hw m :
  heap st !! dev_msi_data st = Some (OData m) →
  cleanup_step st hw =
    cleanup_scan (walk_fuel (heap st)) st hw (next (data_list m)).
Proof. intros Hm. unfold cleanup_step. by rewrite (load_data_Some _ _ _ Hm). Qed.

Section Alloc.

Variable env : environment.

(** What one iteration of the population loop does. *)
Lemma populate_body_spec st l base n i flags :
  loop_inv st l base n i → Z.of_nat i < n →
  ∃ r, populate_body env st base flags i = Some r ∧
    match r with
    | GotoCleanup st' => st' = st
    | Continue st' =>
        ∃ a d,
          loop_inv st' (l ++ [a]) base n (S i) ∧
          heap st !! a = None ∧
          heap st' !! a = Some (ODesc d) ∧
          hwirq d = base + Z.of_nat i ∧ irq d ≠ 0 ∧ refcount d = 2 ∧
          msi_attrib d = Z.land flags 0xFFFF ∧ dev d = dev_self st ∧
          (∀ x dx, x ∈ l → heap st !! x = Some (ODesc dx) →
             ∃ dx', heap st' !! x = Some (ODesc dx') ∧
                    desc_payload dx' = desc_payload dx) ∧
          (∀ k, k ∉ l → k ≠ a → k ≠ dev_msi_data st →
             heap st' !! k = heap st !! k) ∧
          dev_self st' = dev_self st ∧
          dev_msi_data st' = dev_msi_data st ∧
          cleanup_step st' (wrap32 (base + Z.of_nat i)) = Some st
    end.
Proof.
  intros [[Hs Hreg (dom & Hdom & Hdok & Hdescs) Hinj] Hb Hres Hunm] Hi.
  specialize (Hres dom). specialize (Hunm dom).
  set (hw := base + Z.of_nat i).
  assert (mapping dom !! hw = None) as Hhw by (apply Hunm; [done|lia]).
  assert (hw ∈ reserved dom) as Hhwr by (apply Hres; [done|lia]).
  assert (∀ x dx, x ∈ l → heap st !! x = Some (ODesc dx) → hwirq dx ≠ hw)
    as Hold.
  { intros x dx Hx Hdx E. destruct (Hdescs x Hx) as (dx' & Hdx' & _ & _ & Hm).
    assert (dx' = dx) as -> by congruence. congruence. }
  unfold populate_body. rewrite Hdom. simpl. unfold msi_desc_alloc_internal.
  cbv zeta.
  destruct (kmalloc_spec env (heap st)) as [E|[Hne Hfresh]].
  { rewrite E. simpl. eexists. split; [done|]. done. }
  set (a := kmalloc env (heap st)) in *.
  assert ((a =? NULL) = false) as Hanull by (by apply Z.eqb_neq).
  rewrite Hanull. simpl. rewrite Hanull.
  repeat heap_step. rewrite wrap32_small by lia. fold hw.
  destruct (irq_create_mapping env dom hw) as [virq dom'] eqn:Hcreate.
  repeat heap_step.
  destruct (create_mapping_spec _ _ _ _ _ Hhw Hcreate)
    as [[-> ->]|(Hv & Hvfresh & ->)].
  { simpl. repeat heap_step. eexists. split; [done|].
    apply state_eq; [|done]. simpl. heap_eq. }
  destruct (Z.eqb_spec virq 0) as [|_]; [lia|].
  rewrite prepare_desc.
  set (D := MsiDesc (ListHead a a) virq hw (dev_self st)
                    (Z.land flags 0xFFFF) 1).
  set (h1 := <[a := ODesc D]> (heap st)).
  set (s := dev_msi_data st) in *.
  pose proof Hreg as (m & Hm & Hseg & Hnd & Hnv).
  destruct (dseg_tail _ _ _ _ Hm Hseg) as (oq & Hq & Hqn & _).
  assert (a ≠ s) as Has by congruence.
  assert (prev (data_list m) ≠ a) as Hqa by congruence.
  assert (a ∉ l) as Hal.
  { intros Hin. destruct (dseg_lookup _ _ _ _ _ _ _ Hseg Hin). congruence. }
  assert (registry h1 s l) as Hreg1.
  { apply (registry_frame (heap st)); [|intros x Hx|done].
    - unfold h1. by rewrite lookup_insert_ne.
    - unfold h1. rewrite lookup_insert_ne; [done|]. by intros ->. }
  assert (h1 !! s = Some (OData m)) as Hm1
    by (unfold h1; by rewrite lookup_insert_ne).
  assert (h1 !! a = Some (ODesc D)) as Ha1
    by (unfold h1; by rewrite lookup_insert_eq).
  rewrite (list_add_locked_eq h1 s a m D); try done; cycle 1.
  { unfold h1. rewrite lookup_insert_ne by done. eauto. }
  simpl. eexists. split; [done|].
  set (h2 := added h1 s a m D).
  set (dom' := IrqDomain (reserved dom) (<[hw := virq]> (mapping dom))).
  pose proof (added_registry _ _ _ _ _ _ Hm1 Ha1 Hreg1 Hal) as Hreg2.
  fold h2 in Hreg2.
  assert (∀ x dx, x ∈ l → heap st !! x = Some (ODesc dx) →
            ∃ dx', h2 !! x = Some (ODesc dx') ∧
                   desc_payload dx' = desc_payload dx) as Hpay.
  { intros x dx Hx Hdx.
    assert (x ≠ a) as Hxa by (by intros ->).
    assert (x ≠ s) as Hxs by congruence.
    destruct (added_lookup_desc h1 s a m D x dx Hxa Hxs)
      as (dx' & Hdx' & Hp & _).
    { unfold h1. by rewrite lookup_insert_ne. }
    eauto. }
  exists a. eexists. split; [|split; [done|split; [apply added_lookup_new|]]].
  { split; [split|..]; simpl; try done.
    - exists dom'. split; [done|]. split; [by apply domain_ok_insert|].
      intros x [Hx|Hx%list_elem_of_singleton]%elem_of_app; [|subst x].
      + destruct (Hdescs x Hx) as (dx & Hdx & Hirq & Href & Hmap).
        destruct (Hpay x dx Hx Hdx) as (dx' & Hdx' & [= E1 E2 _ _ E5]).
        exists dx'. split; [done|]. unfold desc_ok. rewrite E1, E2, E5.
        split; [done|]. split; [done|]. simpl.
        rewrite lookup_insert_ne; [done|]. intros E. by apply (Hold x dx).
      + eexists. split; [apply added_lookup_new|]. unfold desc_ok. simpl.
        split; [lia|]. split; [done|]. by rewrite lookup_insert_eq.
    - intros x y dx dy Hx Hy Hdx Hdy E.
      assert (∀ z dz, z ∈ l ++ [a] → h2 !! z = Some (ODesc dz) →
                z ≠ a → z ∈ l ∧ hwirq dz ≠ hw) as Hold2.
      { intros z dz [Hz|Hz%list_elem_of_singleton]%elem_of_app Hdz Hza;
          [|done].
        split; [done|].
        destruct (dseg_lookup _ _ _ _ _ _ _ Hseg Hz) as [dz0 Hdz0].
        destruct (Hpay z dz0 Hz Hdz0) as (dz' & Hdz' & [= _ E2 _ _ _]).
        assert (dz' = dz) as -> by congruence. rewrite E2.
        by apply (Hold z). }
      assert (∀ dz, h2 !! a = Some (ODesc dz) → hwirq dz = hw) as Hnew.
      { intros dz. unfold h2. rewrite added_lookup_new. by intros [= <-]. }
      destruct (decide (x = a)) as [->|Hxa];
        destruct (decide (y = a)) as [->|Hya]; [done| | |].
      + destruct (Hold2 y dy Hy Hdy Hya) as [_ Hne'].
        rewrite <- E, (Hnew dx Hdx) in Hne'. done.
      + destruct (Hold2 x dx Hx Hdx Hxa) as [_ Hne'].
        rewrite E, (Hnew dy Hdy) in Hne'. done.
      + destruct (Hold2 x dx Hx Hdx Hxa) as [Hxl _].
        destruct (Hold2 y dy Hy Hdy Hya) as [Hyl _].
        destruct (dseg_lookup _ _ _ _ _ _ _ Hseg Hxl) as [dx0 Hdx0].
        destruct (dseg_lookup _ _ _ _ _ _ _ Hseg Hyl) as [dy0 Hdy0].
        destruct (Hpay x dx0 Hxl Hdx0) as (dx' & Hdx' & [= _ Ex _ _ _]).
        destruct (Hpay y dy0 Hyl Hdy0) as (dy' & Hdy' & [= _ Ey _ _ _]).
        assert (dx' = dx) as -> by congruence.
        assert (dy' = dy) as -> by congruence.
        apply (Hinj x y dx0 dy0); try done. congruence.
    - intros ? hw' [= <-]. simpl. apply Hres. done.
    - intros ? hw' [= <-] Hhw'. simpl.
      rewrite lookup_insert_ne by (unfold hw; lia). apply Hunm; [done|lia]. }
  simpl. split; [done|]. split; [lia|]. split; [done|].
  split; [done|]. split; [done|]. split; [exact Hpay|].
  split.
  { intros k Hkl Hka Hks. unfold h2.
    destruct (decide (k = prev (data_list m))) as [->|Hkq].
    - destruct (dseg_tail _ _ _ _ Hm Hseg) as (_ & _ & _ & [[_ E]|[l0 ->]]);
        [done|].
      exfalso. apply Hkl. apply elem_of_app. right. left.
    - rewrite added_lookup_other by done. unfold h1.
      by rewrite lookup_insert_ne. }
  split; [done|]. split; [done|].
  (* the rollback step undoes the iteration *)
  pose proof (registry_length_lt _ _ _ Hreg2) as Hlen.
  rewrite length_app in Hlen. simpl in Hlen.
  pose proof (registry_sentinel_notin _ _ _ Hreg) as Hsl.
  destruct Hreg2 as (m2 & Hm2 & Hseg2 & _).
  apply dseg_snoc in Hseg2 as (_ & d2 & Hd2 & _ & Hseg2).
  unfold h2 in Hd2. rewrite added_lookup_new in Hd2. injection Hd2 as <-.
  simpl in Hseg2.
  rewrite wrap32_small by lia.
  set (st' := set_domain dom' (set_heap h2 st)).
  rewrite (cleanup_step_eq st' hw m2) by done.
  unfold walk_fuel. change (heap st') with h2.
  replace (S (size h2))
    with (length l + S (size h2 - length l))%nat by lia.
  rewrite (cleanup_scan_skip l _ st' hw _ _ _ _ Hseg2); [|done|]; cycle 1.
  { intros x dx' Hx Hdx'.
    destruct (dseg_lookup _ _ _ _ _ _ _ Hseg Hx) as [dx Hdx].
    destruct (Hpay x dx Hx Hdx) as (dx'' & Hdx'' & [= _ E2 _ _ _]).
    change (heap st') with h2 in Hdx'.
    assert (dx'' = dx') as -> by congruence.
    rewrite E2. by apply (Hold x). }
  etrans.
  { apply (cleanup_scan_found _ (heap st) (dev_self st) s a m D dom' oq);
      try done.
    by apply (registry_empty_next _ _ _ l Hm). }
  unfold dom'. simpl. rewrite dispose_created by done.
  f_equal. destruct st. simpl in *. by subst.
Qed.

End Alloc.


(** The new block of a successful allocation: the descriptor at position
    [k] carries hardware id [base + k], a mapped virtual IRQ, the low 16 bits
    of the flags, and is counted twice. *)
Definition block_at (h : gmap Z object) (base flags dv : Z) (new : list Z)
  : Prop :=
  ∀ k a, new !! k = Some a →
    ∃ d, h !! a = Some (ODesc d) ∧ hwirq d = base + Z.of_nat k ∧
         irq d ≠ 0 ∧ refcount d = 2 ∧
         msi_attrib d = Z.land flags 0xFFFF ∧ dev d = dv.

(** Descriptors of [l] keep all but their links from [h] to [h']. *)
Definition payload_kept (h h' : gmap Z object) (l : list Z) : Prop :=
  ∀ x dx, x ∈ l → h !! x = Some (ODesc dx) →
    ∃ dx', h' !! x = Some (ODesc dx') ∧ desc_payload dx' = desc_payload dx.

Lemma payload_kept_refl h l : payload_kept h h l.
Proof. intros x dx _ Hx. by exists dx. Qed.

Lemma payload_kept_trans h1 h2 h3 l :
  payload_kept h1 h2 l → payload_kept h2 h3 l → payload_kept h1 h3 l.
Proof.
  intros H12 H23 x dx Hx Hdx.
  destruct (H12 x dx Hx Hdx) as (dx2 & Hdx2 & E2).
  destruct (H23 x dx2 Hx Hdx2) as (dx3 & Hdx3 & E3).
  exists dx3. split; [done|]. congruence.
Qed.

Lemma payload_kept_mono h h' l l' :
  l' ⊆ l → payload_kept h h' l → payload_kept h h' l'.
Proof. intros Hsub Hk x dx Hx. apply Hk. by apply Hsub. Qed.

Section AllocLoop.

Variable env : environment.

(** The population loop: it either runs to the end, having appended a
    well-formed block, or it leaves for the rollback in a state from which
    the rollback goes back to where the loop started. *)
Lemma populate_spec n st l base N i flags :
  loop_inv st l base N i → Z.of_nat i + Z.of_nat n = N →
  ∃ r st', populate env n i st base flags = Some (r, st') ∧
    match r with
    | Some j => cleanup j st' base = cleanup i st base
    | None =>
        ∃ new,
          loop_inv st' (l ++ new) base N (i + n) ∧
          length new = n ∧
          block_at (heap st') (base + Z.of_nat i) flags (dev_self st) new ∧
          payload_kept (heap st) (heap st') l ∧
          (∀ a, a ∈ new → heap st !! a = None) ∧
          (∀ k, k ∉ l → k ∉ new → k ≠ dev_msi_data st →
             heap st' !! k = heap st !! k) ∧
          dev_self st' = dev_self st ∧
          dev_msi_data st' = dev_msi_data st
    end.
Proof.
  revert st l i. induction n as [|n IH]; intros st l i Hinv HN.
  { exists None, st. split; [done|]. exists [].
    rewrite app_nil_r, Nat.add_0_r. split; [done|]. split; [done|].
    split; [by intros k a ?|]. split; [apply payload_kept_refl|].
    split; [by intros a ?%elem_of_nil|]. done. }
  simpl.
  destruct (populate_body_spec env st l base N i flags Hinv)
    as (r & Hbody & Hr); [lia|].
  rewrite Hbody. simpl. destruct r as [st1|st1].
  - destruct Hr as (a & d & Hinv1 & Hafresh & Ha1 & Hhw & Hirq & Href &
                    Hattr & Hdev & Hpay & Hframe & Hself & Hdata & Hundo).
    destruct (IH st1 (l ++ [a]) (S i) Hinv1) as (r & st' & Hpop & Hr);
      [lia|].
    exists r, st'. split; [done|]. destruct r as [j|].
    + rewrite Hr. simpl. rewrite Hundo. done.
    + destruct Hr as (new & Hinv' & Hlen & Hblock & Hpay' & Hfresh' &
                      Hframe' & Hself' & Hdata').
      exists (a :: new).
      rewrite <- app_assoc in Hinv'. simpl in Hinv'.
      replace (i + S n)%nat with (S i + n)%nat by lia.
      split; [done|]. split; [simpl; lia|]. split; [|split; [|split; [|split]]].
      * intros k x Hk. destruct k as [|k]; simpl in Hk.
        -- injection Hk as <-.
           destruct (Hpay' a d) as (d' & Hd' & [= E1 E2 E3 E4 E5]);
             [apply elem_of_app; right; left|done|].
           exists d'. rewrite E1, E2, E3, E4, E5, Hhw.
           split; [done|]. split; [lia|]. done.
        -- destruct (Hblock k x Hk) as (dx & Hdx & Hhwx & Hrest).
           exists dx. split; [done|]. split; [lia|]. rewrite <- Hself. done.
      * apply (payload_kept_trans _ (heap st1)); [exact Hpay|].
        apply (payload_kept_mono _ _ (l ++ [a])); [|done].
        intros x Hx. apply elem_of_app. by left.
      * intros x [->|Hx]%elem_of_cons; [done|].
        rewrite <- Hframe; [by apply Hfresh'| | |].
        -- intros Hxl. destruct Hinv as [[_ Hreg _ _] _ _ _].
           destruct Hreg as (m & _ & Hseg & _).
           destruct (dseg_lookup _ _ _ _ _ _ _ Hseg Hxl) as [dx Hdx].
           destruct (Hpay x dx Hxl Hdx) as (dx' & Hdx' & _).
           rewrite Hfresh' in Hdx'; [done|done].
        -- intros ->. rewrite Hfresh' in Ha1; done.
        -- intros ->. destruct Hinv1 as [[_ Hreg _ _] _ _ _].
           destruct Hreg as (m & Hm & _). rewrite Hdata in Hm.
           rewrite Hfresh' in Hm; done.
      * intros k Hkl Hknew Hks.
        apply not_elem_of_cons in Hknew as [Hka Hknew].
        rewrite Hframe', Hframe; try done; [|congruence].
        intros [?|?%list_elem_of_singleton]%elem_of_app; done.
      * split; congruence.
  - subst st1. exists (Some i), st. done.
Qed.

End AllocLoop.


(** *** Observing a registry

    The walk of the tests over a registry,
    [for (desc = list.next; &desc->list != &msi_data->list;
          desc = desc->list.next)],
    collecting the addresses it visits. *)
Fixpoint walk (fuel : nat) (h : gmap Z object) (s desc : Z)
  : option (list Z) :=
  match fuel with
  | O => None
  | S fuel =>
      if desc =? s then Some []
      else
        d ← load_desc h desc;
        rest ← walk fuel h s (next (desc_list d));
        Some (desc :: rest)
  end.

Definition registry_walk (st : state) : option (list Z) :=
  m ← load_data (heap st) (dev_msi_data st);
  walk (walk_fuel (heap st)) (heap st) (dev_msi_data st)
       (next (data_list m)).

(** [dev->msi_data->num_vectors] *)
Definition registry_num_vectors (st : state) : option Z :=
  num_vectors <$> load_data (heap st) (dev_msi_data st).

(** The sentinel of the registry points to itself in both directions. *)
Definition registry_self_linked (st : state) : Prop :=
  ∃ m, heap st !! dev_msi_data st = Some (OData m) ∧
       next (data_list m) = dev_msi_data st ∧
       prev (data_list m) = dev_msi_data st.

Lemma walk_dseg l fuel h s pp p q :
  dseg h pp p q s l → s ∉ l →
  walk (length l + S fuel) h s p = Some l.
Proof.
  revert pp p. induction l as [|x l IH]; intros pp p Hseg Hs.
  - destruct Hseg as [-> _]. simpl. by rewrite Z.eqb_refl.
  - destruct Hseg as (-> & d & Hx & _ & Hseg). simpl.
    destruct (Z.eqb_spec x s) as [E|_].
    { exfalso. apply Hs. rewrite E. left. }
    rewrite (load_desc_Some _ _ _ Hx). simpl.
    rewrite (IH _ _ Hseg); [done|]. intros Hin. apply Hs. by right.
Qed.

Lemma registry_walk_spec st l :
  registry (heap st) (dev_msi_data st) l → registry_walk st = Some l.
Proof.
  intros Hreg. pose proof (registry_length_lt _ _ _ Hreg) as Hlen.
  pose proof (registry_sentinel_notin _ _ _ Hreg) as Hs.
  destruct Hreg as (m & Hm & Hseg & _).
  unfold registry_walk. rewrite (load_data_Some _ _ _ Hm).
  change (walk (walk_fuel (heap st)) (heap st) (dev_msi_data st)
               (next (data_list m)) = Some l).
  unfold walk_fuel.
  replace (S (size (heap st)))
    with (length l + S (size (heap st) - length l))%nat by lia.
  by apply (walk_dseg l _ _ _ _ _ _ Hseg).
Qed.

Lemma registry_num_vectors_spec st l :
  registry (heap st) (dev_msi_data st) l →
  registry_num_vectors st = Some (Z.of_nat (length l)).
Proof.
  intros (m & Hm & _ & _ & Hnv). unfold registry_num_vectors.
  rewrite (load_data_Some _ _ _ Hm). simpl. by rewrite Hnv.
Qed.

Lemma registry_nil_self_linked st :
  registry (heap st) (dev_msi_data st) [] → registry_self_linked st.
Proof. intros (m & Hm & [Hn Hp] & _). exists m. done. Qed.

(** *** Size selection *)

Lemma nvec_loop_spec max fuel j :
  0 < max < 2 ^ 31 → 0 ≤ j ≤ Z.log2 max + 1 →
  Z.log2 max + 1 - j < Z.of_nat fuel →
  nvec_loop fuel (2 ^ j) max = Some (2 ^ (Z.log2 max + 1)).
Proof.
  intros Hmax. revert j. induction fuel as [|fuel IH]; intros j Hj Hfuel.
  { lia. }
  pose proof (Z.log2_spec max ltac:(lia)) as [Hlo Hhi].
  assert (Z.log2 max < 31) as Hlog by (apply Z.log2_lt_pow2; lia).
  simpl. destruct (Z.leb_spec (2 ^ j) max) as [Hle|Hgt].
  - assert (j ≤ Z.log2 max) as Hjl.
    { destruct (Z.le_gt_cases j (Z.log2 max)) as [|Hjgt]; [done|].
      assert (j = Z.log2 max + 1) as -> by lia.
      rewrite <- Z.add_1_r in Hhi. lia. }
    rewrite Z.shiftl_mul_pow2 by lia.
    replace (2 ^ j * 2 ^ 1) with (2 ^ (j + 1))
      by (rewrite Z.pow_add_r by lia; done).
    rewrite wrap32_small.
    + apply IH; lia.
    + split; [apply Z.pow_nonneg; lia|].
      apply Z.pow_lt_mono_r; lia.
  - assert (j = Z.log2 max + 1) as ->; [|done].
    destruct (Z.le_gt_cases j (Z.log2 max)) as [Hjl|]; [|lia].
    assert (2 ^ j ≤ 2 ^ Z.log2 max) by (apply Z.pow_le_mono_r; lia). lia.
Qed.

(** For every admissible [max_vecs], size selection ends with the largest
    power of two that is at most [max_vecs]. *)
Lemma msi_nvec_spec max :
  0 < max < 2 ^ 31 → msi_nvec max = Some (2 ^ Z.log2 max).
Proof.
  intros Hmax. unfold msi_nvec.
  assert (Z.log2 max < 31) as Hlog by (apply Z.log2_lt_pow2; lia).
  pose proof (Z.log2_nonneg max).
  pose proof (nvec_loop_spec max 33 0 Hmax ltac:(lia) ltac:(lia)) as Hloop.
  change (2 ^ 0) with 1 in Hloop. rewrite Hloop. simpl. f_equal.
  rewrite Z.shiftr_div_pow2 by lia. rewrite Z.pow_add_r by lia.
  change (2 ^ 1) with 2. rewrite Z.div_mul; lia.
Qed.


(** *** The allocator as a whole *)

Lemma msi_inv_reserve st l dom base n :
  msi_inv st l → dev_msi_domain st = Some dom →
  0 ≤ base → base + n ≤ 2 ^ 32 → hwirq_range base n ## reserved dom →
  loop_inv
    (set_domain (IrqDomain (reserved dom ∪ hwirq_range base n) (mapping dom))
                st)
    l base n 0.
Proof.
  intros [Hs Hreg (dom0 & Hdom0 & [Hres Hinj] & Hdescs) Hhw] Hdom Hb0 Hb1
         Hdisj.
  assert (dom0 = dom) as -> by congruence.
  split; [split|..]; simpl; try done.
  - eexists. split; [done|]. split; [split|]; simpl.
    + intros hw v Hv. apply elem_of_union. left. by apply (Hres hw v).
    + done.
    + done.
  - intros ? hw [= <-] Hhwr. simpl. apply elem_of_union. right.
    by apply elem_of_hwirq_range.
  - intros ? hw [= <-] Hhwr. simpl.
    destruct (mapping dom !! hw) as [v|] eqn:Hv; [|done].
    exfalso. apply (Hdisj hw); [apply elem_of_hwirq_range; lia|].
    by apply (Hres hw v).
Qed.

Section AllocSpec.

Variable env : environment.

(** A successful allocation of [nvec] vectors from [st] to [st']: the
    domain has reserved a block at [base], and the registry list [l] has
    grown by the [nvec] new descriptors of this block, in order. *)
Definition alloc_success (st st' : state) (l : list Z) (nvec flags : Z)
  : Prop :=
  ∃ dom base dom1 new,
    dev_msi_domain st = Some dom ∧
    irq_domain_alloc_hwirq_range env dom nvec = Some (base, dom1) ∧
    msi_inv st' (l ++ new) ∧
    Z.of_nat (length new) = nvec ∧
    block_at (heap st') base flags (dev_self st) new ∧
    payload_kept (heap st) (heap st') l ∧
    (∀ a, a ∈ new → heap st !! a = None) ∧
    (∀ k, k ∉ l → k ∉ new → k ≠ dev_msi_data st →
       heap st' !! k = heap st !! k) ∧
    dev_self st' = dev_self st ∧
    dev_msi_data st' = dev_msi_data st.

Lemma msi_alloc_block_spec st l nvec flags :
  msi_inv st l → 0 ≤ nvec →
  ∃ r st', msi_alloc_block env st nvec flags = Some (r, st') ∧
    ((r = -1 ∧ st' = st) ∨
     (r = nvec ∧ alloc_success st st' l nvec flags)).
Proof.
  intros Hinv Hn. pose proof Hinv as [_ _ (dom & Hdom & _) _].
  unfold msi_alloc_block. rewrite Hdom. simpl.
  destruct (irq_domain_alloc_hwirq_range env dom nvec) as [[base dom1]|]
    eqn:Halloc.
  2: { exists (-1), st. split; [done|]. by left. }
  pose proof Halloc as Halloc'.
  apply alloc_hwirq_range_Some in Halloc' as (Hb0 & Hb1 & Hdisj & ->).
  destruct (populate_spec env (Z.to_nat nvec) _ l base nvec 0%nat flags
              (msi_inv_reserve _ _ _ _ _ Hinv Hdom Hb0 Hb1 Hdisj))
    as (r & st' & Hpop & Hr); [lia|].
  rewrite Hpop. simpl. destruct r as [j|].
  - rewrite Hr. simpl. eexists _, _. split; [done|]. left. split; [done|].
    rewrite free_alloc_hwirq_range by done.
    destruct st. simpl in *. by subst.
  - eexists _, _. split; [done|]. right. split; [done|].
    destruct Hr as (new & [Hinv' _ _ _] & Hlen & Hblock & Hrest).
    eexists dom, base, _, new. rewrite Z.add_0_r in Hblock.
    split; [done|]. split; [exact Halloc|]. split; [done|]. split; [lia|].
    split; [done|]. exact Hrest.
Qed.

(** Every call of [msi_alloc_vectors] on a consistent state returns: either
    it fails and the state is the one before the call, or it succeeds with
    the block size chosen by size selection. *)
Lemma msi_alloc_vectors_spec st l min_vecs max_vecs flags :
  msi_inv st l → 0 ≤ min_vecs → 0 ≤ max_vecs →
  ∃ r st', msi_alloc_vectors env st min_vecs max_vecs flags = Some (r, st') ∧
    ((r = -1 ∧ st' = st) ∨
     (1 ≤ min_vecs ≤ max_vecs ∧ max_vecs ≤ 32 ∧
      r = 2 ^ Z.log2 max_vecs ∧ min_vecs ≤ r ∧
      alloc_success st st' l r flags)).
Proof.
  intros Hinv Hmin Hmax. pose proof Hinv as [Hs _ (dom & Hdom & _) _].
  unfold msi_alloc_vectors, MSI_MAX_VECTORS.
  destruct (Z.eqb_spec (dev_msi_data st) NULL) as [|_]; [done|].
  rewrite bool_decide_eq_false_2 by (by rewrite Hdom). simpl.
  destruct (Z.eqb_spec min_vecs 0) as [|Hmin0]; simpl.
  { exists (-1), st. split; [done|]. by left. }
  destruct (Z.ltb_spec max_vecs min_vecs) as [|Hle]; simpl.
  { exists (-1), st. split; [done|]. by left. }
  destruct (Z.ltb_spec 32 max_vecs) as [|Hle32]; simpl.
  { exists (-1), st. split; [done|]. by left. }
  rewrite msi_nvec_spec by lia. simpl.
  destruct (Z.ltb_spec (2 ^ Z.log2 max_vecs) min_vecs) as [|Hfit].
  { exists (-1), st. split; [done|]. by left. }
  destruct (msi_alloc_block_spec st l (2 ^ Z.log2 max_vecs) flags Hinv)
    as (r & st' & Hcall & Hr).
  { apply Z.pow_nonneg. lia. }
  exists r, st'. split; [done|].
  destruct Hr as [?|[-> Hok]]; [by left|right].
  split; [lia|]. done.
Qed.

End AllocSpec.


(** *** Initialisation *)

Lemma domain_ok_empty : domain_ok (IrqDomain ∅ ∅).
Proof. split; intros *; simpl; by rewrite lookup_empty. Qed.

Lemma msi_device_init_inv env st dom st' :
  dev_msi_domain st = Some dom → domain_ok dom →
  msi_device_init env st = (0, st') → msi_inv st' [].
Proof.
  intros Hdom Hok. unfold msi_device_init.
  destruct (kmalloc_spec env (heap st)) as [E|[Hne Hfresh]].
  { rewrite E. simpl. done. }
  set (p := kmalloc env (heap st)) in *.
  destruct (Z.eqb_spec p NULL) as [|_]; [done|].
  intros [= <-]. split; simpl.
  - done.
  - eexists. split; [apply lookup_insert_eq|]. simpl.
    split; [done|]. split; [constructor|done].
  - exists dom. split; [done|]. split; [done|].
    by intros x ?%elem_of_nil.
  - by intros x y dx dy ?%elem_of_nil.
Qed.

(** *** A concrete environment

    Memory and virtual IRQs are handed out upwards from 1, hardware ids
    upwards from 0. *)
Definition bump_kmalloc (h : gmap Z object) : Z :=
  1 + map_fold (λ k _ acc, Z.max k acc) 0 h.
Definition bump_hwirq (d : irq_domain) (n : Z) : option Z :=
  Some (set_fold (λ k acc, Z.max (k + 1) acc) 0 (reserved d)).
Definition bump_virq (d : irq_domain) (hw : Z) : Z :=
  1 + map_fold (λ _ v acc, Z.max v acc) 0 (mapping d).
Definition bump_env : environment :=
  Environment bump_kmalloc bump_hwirq bump_virq.

(** The same, but [kmalloc] fails once [limit] objects are live. *)
Definition short_env (limit : Z) : environment :=
  Environment
    (λ h, if Z.of_nat (size h) <? limit then bump_kmalloc h else NULL)
    bump_hwirq bump_virq.

(** A device at address [0x1000] with an empty MSI domain and no registry
    yet, and the same device after [msi_device_init]. *)
Definition fresh_device : state :=
  State ∅ 0x1000 NULL (Some (IrqDomain ∅ ∅)).
Definition ready_device : state := (msi_device_init bump_env fresh_device).2.

Lemma ready_device_inv : msi_inv ready_device [].
Proof.
  apply (msi_device_init_inv bump_env fresh_device (IrqDomain ∅ ∅));
    [done|apply domain_ok_empty|]. by vm_compute.
Qed.

(** The scenarios of the allocation tests on a fresh device. *)
Example alloc_3_7 :
  fst <$> msi_alloc_vectors bump_env ready_device 3 7 0 = Some 4.
Proof. by vm_compute. Qed.
Example alloc_8_15 :
  fst <$> msi_alloc_vectors bump_env ready_device 8 15 0 = Some 8.
Proof. by vm_compute. Qed.
Example alloc_16_31 :
  fst <$> msi_alloc_vectors bump_env ready_device 16 31 0 = Some 16.
Proof. by vm_compute. Qed.
Example alloc_7_7 :
  msi_alloc_vectors bump_env ready_device 7 7 0 = Some (-1, ready_device).
Proof. by vm_compute. Qed.
Example alloc_partial_failure :
  msi_alloc_vectors (short_env 3) ready_device 4 4 0
  = Some (-1, ready_device).
Proof. by vm_compute. Qed.


Lemma msi_alloc_block_result env st nvec flags r st' :
  msi_alloc_block env st nvec flags = Some (r, st') → r = -1 ∨ r = nvec.
Proof.
  unfold msi_alloc_block.
  destruct (dev_msi_domain st) as [dom|]; [simpl|done].
  destruct (irq_domain_alloc_hwirq_range env dom nvec) as [[base dom1]|].
  2: { intros [= <- _]. by left. }
  destruct (populate env _ _ _ _ _) as [[[j|] st1]|]; simpl; [| |done].
  - destruct (cleanup j st1 base) as [st2|]; simpl; [|done].
    destruct (dev_msi_domain st2); simpl; [|done].
    intros [= <- _]. by left.
  - intros [= <- _]. by right.
Qed.



Definition four_vectors : state :=
  match msi_alloc_vectors bump_env ready_device 3 7 0 with
  | Some (_, st) => st
  | None => ready_device
  end.

(** The four vectors after one [msi_desc_free] on the descriptor at 3. *)
Definition lowered_vector : state :=
  match msi_desc_free (heap four_vectors) 3 with
  | Some h => set_heap h four_vectors
  | None => four_vectors
  end.



(** *** Taking the first descriptor out of a registry *)

Lemma unlink_head h s m x dx l :
  h !! s = Some (OData m) → h !! x = Some (ODesc dx) →
  dseg h s (next (data_list m)) (prev (data_list m)) s (x :: l) →
  NoDup (x :: l) →
  ∃ h1 m1,
    list_unlink h x = Some h1 ∧
    h1 !! s = Some (OData m1) ∧
    num_vectors m1 = num_vectors m ∧
    next (data_list m1) = next (desc_list dx) ∧
    dseg h1 s (next (data_list m1)) (prev (data_list m1)) s l ∧
    (∀ k, k ≠ s → k ∉ l → h1 !! k = h !! k) ∧
    payload_kept h h1 l.
Proof.
  intros Hm Hdx (Hx & dx' & Hdx' & Hpx & Hseg) Hnd.
  assert (dx' = dx) as -> by congruence. clear Hdx'.
  assert (x ≠ s) as Hxs by congruence.
  apply list.NoDup_cons in Hnd as [Hxl Hnd].
  destruct dx as [[nx px] ? ? ? ? ?]. simpl in *. subst px.
  unfold list_unlink. destruct l as [|y l].
  - destruct Hseg as [-> Hq]. repeat heap_step.
    eexists _, _. split; [done|]. split; [by heap_lookup|]. simpl.
    split; [done|]. split; [done|]. split; [done|].
    split; [|by intros z dz ?%elem_of_nil].
    intros k Hks _. by rewrite !lookup_alter_ne.
  - destruct Hseg as (-> & dy & Hdy & Hpy & Hseg).
    assert (y ≠ s) as Hys by congruence.
    assert (x ≠ y) as Hxy by (intros ->; apply Hxl; left).
    apply list.NoDup_cons in Hnd as [Hyl Hnd].
    repeat heap_step.
    eexists _, _. split; [done|]. split; [by heap_lookup|]. simpl.
    split; [done|]. split; [done|]. split; [|split].
    + split; [done|]. eexists. split; [by heap_lookup|]. simpl.
      split; [done|].
      apply (dseg_frame h); [|done]. intros z Hz.
      rewrite !lookup_alter_ne; [done|..].
      * intros ->. done.
      * intros ->. destruct (dseg_lookup _ _ _ _ _ _ _ Hseg Hz). congruence.
    + intros k Hks Hkl. apply not_elem_of_cons in Hkl as [Hky _].
      by rewrite !lookup_alter_ne.
    + intros z dz Hz Hdz.
      assert (z ≠ s) as Hzs by congruence.
      rewrite lookup_alter_ne by done. rewrite lookup_alter.
      case_decide as E.
      * subst z. rewrite Hdz. simpl. eexists. split; [done|]. done.
      * by exists dz.
Qed.

(** *** [msi_free_vectors] *)

(** The virtual IRQ and hardware id of the descriptors at [l]. *)
Definition desc_ids (h : gmap Z object) (l : list Z) : list (Z * Z) :=
  omap (λ x, d ← load_desc h x; Some (irq d, hwirq d)) l.

(** What [msi_free_vectors] does to the domain, descriptor by descriptor. *)
Fixpoint release (dom : irq_domain) (ids : list (Z * Z)) : irq_domain :=
  match ids with
  | [] => dom
  | (virq, hw) :: ids =>
      release
        (irq_domain_free_hwirq_range
           (if virq =? 0 then dom else irq_dispose_mapping dom virq) hw 1)
        ids
  end.

Lemma desc_ids_kept h h' l :
  payload_kept h h' l → (∀ x, x ∈ l → ∃ d, h !! x = Some (ODesc d)) →
  desc_ids h' l = desc_ids h l.
Proof.
  induction l as [|x l IH]; intros Hkept Hlive; [done|].
  destruct (Hlive x) as [d Hd]; [left|].
  destruct (Hkept x d) as (d' & Hd' & [= E1 E2 _ _ _]); [left|done|].
  unfold desc_ids in *. simpl.
  rewrite (load_desc_Some _ _ _ Hd), (load_desc_Some _ _ _ Hd'). simpl.
  rewrite E1, E2. f_equal. apply IH.
  - intros y dy Hy. apply Hkept. by right.
  - intros y Hy. apply Hlive. by right.
Qed.

Lemma free_walk_spec l : ∀ fuel st m dom,
  dev_msi_domain st = Some dom →
  heap st !! dev_msi_data st = Some (OData m) →
  dseg (heap st) (dev_msi_data st) (next (data_list m))
       (prev (data_list m)) (dev_msi_data st) l →
  NoDup l → (length l < fuel)%nat →
  ∃ st',
    free_walk fuel st (next (data_list m)) = Some st' ∧
    dev_msi_data st' = dev_msi_data st ∧
    dev_self st' = dev_self st ∧
    dev_msi_domain st' = Some (release dom (desc_ids (heap st) l)) ∧
    heap st' !! dev_msi_data st =
      Some (OData (MsiDeviceData
              (ListHead (dev_msi_data st) (dev_msi_data st))
              (num_vectors m - Z.of_nat (length l)))) ∧
    (∀ x, x ∈ l → heap st' !! x = None) ∧
    (∀ k, k ≠ dev_msi_data st → k ∉ l → heap st' !! k = heap st !! k).
Proof.
  induction l as [|x l IH]; intros fuel st m dom Hdom Hm Hseg Hnd Hfuel;
    (destruct fuel as [|fuel]; [simpl in Hfuel; lia|]).
  - destruct Hseg as [Hn Hp]. simpl. rewrite Hn, Z.eqb_refl.
    exists st. split; [done|]. split; [done|]. split; [done|].
    split; [done|].
    split; [|split; [by intros x ?%elem_of_nil|done]].
    rewrite Hm. destruct m as [[mn mp] nv]. simpl in *. subst mn.
    rewrite <- Hp. do 3 f_equal. lia.
  - pose proof Hseg as (Hx & dx & Hdx & _ & _).
    assert (x ≠ dev_msi_data st) as Hxs by congruence.
    destruct (unlink_head _ _ _ _ _ _ Hm Hdx Hseg Hnd)
      as (h1 & m1 & Hunlink & Hm1 & Hnv1 & Hnext1 & Hseg1 & Hframe1 & Hkept1).
    apply list.NoDup_cons in Hnd as [Hxl Hnd].
    assert (dev_msi_data st ∉ l) as Hsl.
    { intros Hin. destruct (dseg_lookup _ _ _ _ _ _ _ Hseg1 Hin). congruence. }
    simpl. rewrite Hx. destruct (Z.eqb_spec x (dev_msi_data st)); [done|].
    rewrite (load_desc_Some _ _ _ Hdx). simpl. rewrite Hdom. simpl.
    rewrite Hunlink. simpl.
    rewrite (load_data_Some _ _ _ Hm1). simpl.
    rewrite (store_data_Some _ _ _ _ Hm1). simpl.
    erewrite kfree_Some; cycle 1.
    { rewrite lookup_alter_ne by done. rewrite Hframe1 by done. done. }
    simpl. rewrite <- Hnext1.
    set (dom1 := irq_domain_free_hwirq_range _ _ _).
    set (h3 := delete x _).
    set (st1 := set_domain dom1 (set_heap h3 st)).
    set (m' := data_set_num_vectors (num_vectors m1 - 1) m1).
    assert (h3 !! dev_msi_data st = Some (OData m')) as Hm'.
    { unfold h3. rewrite lookup_delete_ne by done.
      rewrite lookup_alter_eq, Hm1. done. }
    destruct (IH fuel st1 m' dom1) as (st' & Hwalk & Hd' & Hs' & Hdom' & Hs &
                                       Hgone & Hframe); try done.
    { simpl. apply (dseg_frame h1); [|done]. intros z Hz. unfold h3.
      rewrite lookup_delete_ne by (by intros ->).
      rewrite lookup_alter_ne by (by intros <-). done. }
    { simpl in Hfuel. lia. }
    exists st'. split; [done|]. split; [done|]. split; [done|].
    simpl in Hs. split; [|split; [|split]].
    + rewrite Hdom'. f_equal.
      transitivity (release dom1 (desc_ids (heap st) l)); cycle 1.
      { done. }
      f_equal. apply desc_ids_kept.
      * intros z dz Hz Hdz. destruct (Hkept1 z dz Hz Hdz) as (dz' & Hdz' & E).
        exists dz'. split; [|done]. simpl. unfold h3.
        rewrite lookup_delete_ne by (by intros ->).
        rewrite lookup_alter_ne by (by intros <-). done.
      * intros z Hz. destruct Hseg as (_ & ? & _ & _ & Hseg).
        by apply (dseg_lookup _ _ _ _ _ _ _ Hseg).
    + rewrite Hs. do 3 f_equal. rewrite Hnv1.
      rewrite Nat2Z.inj_succ. lia.
    + intros z [->|Hz]%elem_of_cons; [|by apply Hgone].
      rewrite Hframe by done. simpl. unfold h3. by rewrite lookup_delete_eq.
    + intros k Hks Hkl. apply not_elem_of_cons in Hkl as [Hkx Hkl].
      rewrite Hframe by done. simpl. unfold h3.
      rewrite lookup_delete_ne by done. rewrite lookup_alter_ne by done.
      by apply Hframe1.
Qed.

Lemma msi_free_vectors_spec st l :
  dev_msi_data st ≠ NULL → is_Some (dev_msi_domain st) →
  registry (heap st) (dev_msi_data st) l →
  ∃ st',
    msi_free_vectors st = Some st' ∧
    dev_msi_data st' = dev_msi_data st ∧
    dev_self st' = dev_self st ∧
    (∀ dom, dev_msi_domain st = Some dom →
       dev_msi_domain st' = Some (release dom (desc_ids (heap st) l))) ∧
    registry (heap st') (dev_msi_data st') [] ∧
    (∀ x, x ∈ l → heap st' !! x = None) ∧
    (∀ k, k ≠ dev_msi_data st → k ∉ l → heap st' !! k = heap st !! k).
Proof.
  intros Hs [dom Hdom] Hreg.
  pose proof (registry_length_lt _ _ _ Hreg) as Hlen.
  destruct Hreg as (m & Hm & Hseg & Hnd & Hnv).
  destruct (free_walk_spec l (walk_fuel (heap st)) st m dom)
    as (st' & Hwalk & Hd' & Hs' & Hdom' & Hsent & Hgone & Hframe);
    try done.
  { unfold walk_fuel. lia. }
  exists st'. unfold msi_free_vectors.
  destruct (Z.eqb_spec (dev_msi_data st) NULL); [done|].
  rewrite bool_decide_eq_false_2 by (by rewrite Hdom). simpl.
  rewrite (load_data_Some _ _ _ Hm). simpl.
  split; [done|]. split; [done|]. split; [done|].
  split; [intros ? Hdom0; rewrite Hdom in Hdom0; by injection Hdom0 as <-|].
  split; [|done]. rewrite Hd'. eexists. split; [done|]. simpl.
  split; [done|]. split; [constructor|]. lia.
Qed.


Lemma domain_ok_release_one dom v hw :
  domain_ok dom → v ≠ 0 → mapping dom !! hw = Some v →
  domain_ok (irq_domain_free_hwirq_range
               (if v =? 0 then dom else irq_dispose_mapping dom v) hw 1).
Proof.
  intros [Hres Hinj] Hv Hhw. destruct (Z.eqb_spec v 0) as [|_]; [done|].
  split; simpl.
  - intros hw' v' [Hv' Hne]%map_lookup_filter_Some. simpl in Hne.
    apply elem_of_difference. split; [by apply (Hres hw' v')|].
    rewrite elem_of_hwirq_range. intros Hr.
    assert (hw' = hw) as -> by lia. congruence.
  - intros h1 h2 v' [H1 _]%map_lookup_filter_Some
                    [H2 _]%map_lookup_filter_Some.
    by apply (Hinj h1 h2 v').
Qed.

Lemma release_ok ids : ∀ dom,
  domain_ok dom →
  (∀ v hw, (v, hw) ∈ ids → v ≠ 0 ∧ mapping dom !! hw = Some v) →
  NoDup ids.*2 →
  domain_ok (release dom ids).
Proof.
  induction ids as [|[v hw] ids IH]; intros dom Hok Hids Hnd; [done|].
  destruct (Hids v hw) as [Hv Hhw]; [left|].
  simpl in Hnd. apply list.NoDup_cons in Hnd as [Hhwn Hnd].
  simpl. apply IH; [by apply domain_ok_release_one| |done].
  intros v2 hw2 Hin. destruct (Hids v2 hw2) as [Hv2 Hhw2]; [by right|].
  split; [done|]. destruct (Z.eqb_spec v 0) as [|_]; [done|]. simpl.
  apply map_lookup_filter_Some. split; [done|]. simpl. intros ->.
  destruct Hok as [_ Hinj]. assert (hw2 = hw) as -> by by apply (Hinj _ _ v).
  apply Hhwn. apply list_elem_of_fmap. by exists (v, hw).
Qed.

Lemma elem_of_desc_ids h l v hw :
  (v, hw) ∈ desc_ids h l →
  ∃ x d, x ∈ l ∧ h !! x = Some (ODesc d) ∧ v = irq d ∧ hw = hwirq d.
Proof.
  unfold desc_ids. intros (x & Hx & Hsome)%list_elem_of_omap.
  unfold load_desc in Hsome.
  destruct (h !! x) as [[d|m]|] eqn:Hd; simpl in Hsome; try done.
  injection Hsome as <- <-. by exists x, d.
Qed.

Lemma desc_ids_NoDup h l :
  NoDup l →
  (∀ x y dx dy, x ∈ l → y ∈ l →
     h !! x = Some (ODesc dx) → h !! y = Some (ODesc dy) →
     hwirq dx = hwirq dy → x = y) →
  NoDup (desc_ids h l).*2.
Proof.
  induction l as [|x l IH]; intros Hnd Hinj; [constructor|].
  apply list.NoDup_cons in Hnd as [Hxl Hnd].
  assert (NoDup (desc_ids h l).*2) as IH'.
  { apply IH; [done|]. intros y z dy dz Hy Hz. apply Hinj; by right. }
  unfold desc_ids in *. simpl. unfold load_desc at 1.
  destruct (h !! x) as [[dx|m]|] eqn:Hdx; simpl; try done.
  apply list.NoDup_cons. split; [|done].
  intros ([v hw] & E & Hin)%list_elem_of_fmap. simpl in E. subst hw.
  apply elem_of_desc_ids in Hin as (y & dy & Hy & Hdy & _ & E).
  apply Hxl. rewrite (Hinj x y dx dy); try done; [left|by right].
Qed.

(** [msi_free_vectors] keeps a consistent state consistent, with an empty
    registry. *)
Lemma msi_free_vectors_inv st l :
  msi_inv st l →
  ∃ st', msi_free_vectors st = Some st' ∧ msi_inv st' [] ∧
         (∀ x, x ∈ l → heap st' !! x = None).
Proof.
  intros [Hs Hreg (dom & Hdom & Hok & Hdescs) Hinj].
  destruct (msi_free_vectors_spec st l Hs) as
    (st' & Hfree & Hd' & _ & Hdom' & Hreg' & Hgone & _);
    [by rewrite Hdom|done|].
  exists st'. split; [done|]. split; [|done].
  split; [congruence|done| |by intros x y dx dy ?%elem_of_nil].
  eexists. split; [by apply Hdom'|]. split; [|by intros x ?%elem_of_nil].
  apply release_ok; [done| |].
  - intros v hw (x & d & Hx & Hd & -> & ->)%elem_of_desc_ids.
    destruct (Hdescs x Hx) as (d' & Hdx & Hirq & _ & Hmap).
    assert (d' = d) as -> by congruence. done.
  - apply desc_ids_NoDup; [|done]. by destruct Hreg as (? & _ & _ & ? & _).
Qed.



(** *** [msi_device_cleanup] and [msi_desc_free] *)

Lemma device_cleanup_walk_spec l : ∀ fuel h s m,
  h !! s = Some (OData m) →
  dseg h s (next (data_list m)) (prev (data_list m)) s l →
  NoDup l → (length l < fuel)%nat →
  ∃ h',
    device_cleanup_walk fuel h s (next (data_list m)) = Some h' ∧
    h' !! s = Some (OData (MsiDeviceData (ListHead s s) (num_vectors m))) ∧
    (∀ x dx, x ∈ l → h !! x = Some (ODesc dx) →
       if decide (refcount dx = 1) then h' !! x = None
       else ∃ dx', h' !! x = Some (ODesc dx') ∧
                   refcount dx' = refcount dx - 1 ∧
                   irq dx' = irq dx ∧ hwirq dx' = hwirq dx) ∧
    (∀ k, k ≠ s → k ∉ l → h' !! k = h !! k).
Proof.
  induction l as [|x l IH]; intros fuel h s m Hm Hseg Hnd Hfuel;
    (destruct fuel as [|fuel]; [simpl in Hfuel; lia|]).
  - destruct Hseg as [Hn Hp]. simpl. rewrite Hn, Z.eqb_refl.
    exists h. split; [done|]. split; [|split; [by intros x dx ?%elem_of_nil|done]].
    rewrite Hm. destruct m as [[mn mp] nv]. simpl in *. subst mn.
    by rewrite <- Hp.
  - pose proof Hseg as (Hx & dx & Hdx & _ & Hseg').
    assert (x ≠ s) as Hxs by congruence.
    destruct (unlink_head _ _ _ _ _ _ Hm Hdx Hseg Hnd)
      as (h1 & m1 & Hunlink & Hm1 & Hnv1 & Hnext1 & Hseg1 & Hframe1 & Hkept1).
    apply list.NoDup_cons in Hnd as [Hxl Hnd].
    assert (h1 !! x = Some (ODesc dx)) as Hdx1 by (by rewrite Hframe1).
    simpl. rewrite Hx. destruct (Z.eqb_spec x s); [done|].
    rewrite (load_desc_Some _ _ _ Hdx). simpl. rewrite Hunlink. simpl.
    rewrite (load_desc_Some _ _ _ Hdx1). simpl.
    rewrite (store_desc_Some _ _ _ _ Hdx1). simpl.
    erewrite load_desc_Some by (by rewrite lookup_alter_eq, Hdx1). simpl.
    set (h2 := alter _ x h1).
    set (h3 := if refcount dx - 1 =? 0 then delete x h2 else h2).
    assert ((if refcount dx - 1 =? 0 then kfree h2 x else Some h2) = Some h3)
      as ->.
    { unfold h3. destruct (_ =? _); [|done].
      erewrite kfree_Some; [done|]. unfold h2.
      by rewrite lookup_alter_eq, Hdx1. }
    simpl. rewrite <- Hnext1.
    assert (∀ k, k ≠ x → h3 !! k = h1 !! k) as Hframe3.
    { intros k Hk. unfold h3, h2. destruct (_ =? _).
      - rewrite lookup_delete_ne by done. by rewrite lookup_alter_ne.
      - by rewrite lookup_alter_ne. }
    destruct (IH fuel h3 s m1) as (h' & Hwalk & Hs' & Hdescs & Hframe);
      try done.
    { by rewrite Hframe3. }
    { apply (dseg_frame h1); [|done]. intros z Hz. apply Hframe3.
      by intros ->. }
    { simpl in Hfuel. lia. }
    exists h'. split; [done|]. split; [by rewrite Hs', Hnv1|]. split.
    + intros z dz [->|Hz]%elem_of_cons Hdz.
      * assert (dz = dx) as -> by congruence.
        rewrite Hframe by done. unfold h3, h2.
        destruct (Z.eqb_spec (refcount dx - 1) 0) as [E|E].
        -- rewrite decide_True by lia. by rewrite lookup_delete_eq.
        -- rewrite decide_False by lia. rewrite lookup_alter_eq, Hdx1.
           simpl. eexists. split; [done|]. done.
      * destruct (Hkept1 z dz Hz Hdz) as (dz1 & Hdz1 & [= E1 E2 _ _ E5]).
        assert (h3 !! z = Some (ODesc dz1)) as Hdz3.
        { rewrite Hframe3; [done|]. by intros ->. }
        specialize (Hdescs z dz1 Hz Hdz3). rewrite E1, E2, E5 in Hdescs.
        done.
    + intros k Hks Hkl. apply not_elem_of_cons in Hkl as [Hkx Hkl].
      rewrite Hframe, Hframe3, Hframe1; done.
Qed.


Lemma msi_device_cleanup_spec st l :
  dev_msi_data st ≠ NULL → registry (heap st) (dev_msi_data st) l →
  ∃ m h st',
    heap st !! dev_msi_data st = Some (OData m) ∧
    device_cleanup_walk (walk_fuel (heap st)) (heap st) (dev_msi_data st)
      (next (data_list m)) = Some h ∧
    h !! dev_msi_data st =
      Some (OData (MsiDeviceData
              (ListHead (dev_msi_data st) (dev_msi_data st))
              (num_vectors m))) ∧
    msi_device_cleanup st = Some st' ∧
    heap st' = delete (dev_msi_data st) h ∧
    dev_msi_data st' = NULL ∧
    (∀ x dx, x ∈ l → heap st !! x = Some (ODesc dx) →
       if decide (refcount dx = 1) then heap st' !! x = None
       else ∃ dx', heap st' !! x = Some (ODesc dx') ∧
                   refcount dx' = refcount dx - 1 ∧
                   irq dx' = irq dx ∧ hwirq dx' = hwirq dx) ∧
    (∀ k, k ≠ dev_msi_data st → k ∉ l → heap st' !! k = heap st !! k).
Proof.
  intros Hs Hreg. pose proof (registry_length_lt _ _ _ Hreg) as Hlen.
  pose proof (registry_sentinel_notin _ _ _ Hreg) as Hsl.
  destruct Hreg as (m & Hm & Hseg & Hnd & _).
  destruct (device_cleanup_walk_spec l (walk_fuel (heap st)) (heap st)
              (dev_msi_data st) m Hm Hseg Hnd)
    as (h & Hwalk & Hsent & Hdescs & Hframe).
  { unfold walk_fuel. lia. }
  exists m, h. eexists. split; [done|]. split; [done|]. split; [done|].
  unfold msi_device_cleanup.
  destruct (Z.eqb_spec (dev_msi_data st) NULL); [done|].
  rewrite (load_data_Some _ _ _ Hm). cbn [mbind option_bind].
  rewrite Hwalk. cbn [mbind option_bind].
  rewrite (kfree_Some _ _ _ Hsent). simpl.
  split; [done|]. split; [done|]. split; [done|]. split.
  - intros x dx Hx Hdx. assert (x ≠ dev_msi_data st) by (by intros ->).
    simpl. rewrite lookup_delete_ne by done. by apply Hdescs.
  - intros k Hks Hkl. simpl. rewrite lookup_delete_ne by done.
    by apply Hframe.
Qed.

(** A descriptor that is live in [h] and gone in [h'] was at its last
    reference: the one decrement brought its count to zero. *)
Definition destroys_only_at_zero (h h' : gmap Z object) : Prop :=
  ∀ x d, h !! x = Some (ODesc d) → h' !! x = None → refcount d ≤ 1.

Lemma store_list_None h p f h' k :
  store_list h p f = Some h' → h' !! k = None ↔ h !! k = None.
Proof.
  unfold store_list. destruct (h !! p); [|done]. intros [= <-].
  apply lookup_alter_None.
Qed.

Lemma list_unlink_None h p h' k :
  list_unlink h p = Some h' → h' !! k = None ↔ h !! k = None.
Proof.
  unfold list_unlink. intros Hun.
  destruct (load_list h p) as [lh|]; [simpl in Hun|done].
  destruct (store_list h _ _) as [h1|] eqn:H1; [simpl in Hun|done].
  destruct (load_list h1 p) as [lh1|]; [simpl in Hun|done].
  rewrite (store_list_None _ _ _ _ k Hun).
  apply (store_list_None _ _ _ _ k H1).
Qed.

Lemma msi_desc_free_spec h a d h' :
  a ≠ NULL → h !! a = Some (ODesc d) → msi_desc_free h a = Some h' →
  (1 < refcount d →
   h' = alter (on_desc (desc_set_refcount (refcount d - 1))) a h) ∧
  (refcount d ≤ 1 → h' !! a = None) ∧
  (∀ k, k ≠ a → h' !! k = None ↔ h !! k = None).
Proof.
  intros Ha Hd. unfold msi_desc_free.
  destruct (Z.eqb_spec a NULL); [done|].
  rewrite (load_desc_Some _ _ _ Hd). simpl.
  rewrite (store_desc_Some _ _ _ _ Hd). simpl.
  erewrite load_desc_Some by (by rewrite lookup_alter_eq, Hd). simpl.
  set (h1 := alter _ a h).
  destruct (Z.ltb_spec 0 (refcount d - 1)) as [Hpos|Hzero].
  { intros [= <-]. split; [done|]. split; [lia|].
    intros k Hk. unfold h1. by rewrite lookup_alter_ne. }
  intros Hfree. split; [lia|].
  destruct (if next (desc_list d) =? a then Some h1 else list_unlink h1 a)
    as [h2|] eqn:H2; [simpl in Hfree|done].
  unfold kfree in Hfree. destruct (h2 !! a); [|done].
  injection Hfree as <-. split; [by rewrite lookup_delete_eq|].
  intros k Hk. rewrite lookup_delete_ne by done.
  assert (h2 !! k = None ↔ h1 !! k = None) as ->.
  { destruct (_ =? _); [by injection H2 as <-|].
    by apply (list_unlink_None _ a). }
  unfold h1. by rewrite lookup_alter_ne.
Qed.

Lemma msi_desc_free_only_at_zero h a h' :
  msi_desc_free h a = Some h' → destroys_only_at_zero h h'.
Proof.
  intros Hfree x d Hx Hgone.
  destruct (decide (a = NULL)) as [->|Ha].
  { unfold msi_desc_free in Hfree. simpl in Hfree. injection Hfree as <-.
    congruence. }
  destruct (decide (x = a)) as [->|Hxa].
  - destruct (msi_desc_free_spec h a d h' Ha Hx Hfree) as (Hkeep & _ & _).
    destruct (Z.le_gt_cases (refcount d) 1) as [|Hgt]; [done|].
    rewrite (Hkeep Hgt), lookup_alter_eq, Hx in Hgone. done.
  - unfold msi_desc_free in Hfree.
    destruct (Z.eqb_spec a NULL); [done|].
    destruct (load_desc h a) as [da|] eqn:Hda; [|done].
    unfold load_desc in Hda.
    destruct (h !! a) as [[da'|]|] eqn:Hda'; try done.
    injection Hda as ->.
    assert (msi_desc_free h a = Some h') as Hfree'.
    { unfold msi_desc_free. destruct (Z.eqb_spec a NULL); [done|].
      by rewrite (load_desc_Some _ _ _ Hda'). }
    destruct (msi_desc_free_spec h a da h' Ha Hda' Hfree') as (_ & _ & Hdom).
    apply Hdom in Hgone; [congruence|done].
Qed.


Lemma msi_device_cleanup_only_at_zero st l st' :
  dev_msi_data st ≠ NULL → registry (heap st) (dev_msi_data st) l →
  msi_device_cleanup st = Some st' →
  destroys_only_at_zero (heap st) (heap st').
Proof.
  intros Hs Hreg Hclean x d Hx Hgone.
  destruct (msi_device_cleanup_spec st l Hs Hreg)
    as (m & h & st0 & Hm & _ & _ & Hclean0 & _ & _ & Hdescs & Hframe).
  rewrite Hclean in Hclean0. injection Hclean0 as <-.
  destruct (decide (x = dev_msi_data st)) as [->|Hxs]; [congruence|].
  destruct (decide (x ∈ l)) as [Hxl|Hxl].
  - specialize (Hdescs x d Hxl Hx). case_decide; [lia|].
    destruct Hdescs as (d' & Hd' & _). congruence.
  - rewrite Hframe in Hgone by done. congruence.
Qed.

Lemma four_vectors_inv : msi_inv four_vectors [2; 3; 4; 5].
Proof.
  assert (msi_alloc_vectors bump_env ready_device 3 7 0
          = Some (4, four_vectors)) as Hcall by (vm_compute; reflexivity).
  destruct (msi_alloc_vectors_spec bump_env ready_device [] 3 7 0
              ready_device_inv ltac:(lia) ltac:(lia))
    as (r & st' & Hcall' & Hr).
  rewrite Hcall in Hcall'. apply (inj Some) in Hcall'.
  apply pair_equal_spec in Hcall' as [<- <-].
  destruct Hr as [[? _]|(_ & _ & _ & _ & Hok)]; [lia|].
  destruct Hok as (_ & _ & _ & new & _ & _ & Hinv & _).
  pose proof (registry_walk_spec _ _ (inv_registry _ _ Hinv)) as Hwalk.
  assert (registry_walk four_vectors = Some [2; 3; 4; 5]) as Hwalk'
    by (vm_compute; reflexivity).
  rewrite Hwalk in Hwalk'. injection Hwalk' as Hnew. simpl in Hnew.
  by rewrite Hnew in Hinv.
Qed.





(** *** The states of a device under the allocator

    A device whose registry was set up by [msi_device_init] and then taken
    through any calls of [msi_alloc_vectors] (successful or not) and
    [msi_free_vectors]. *)
Inductive reachable (env : environment) : state → Prop :=
  | reach_init st dom st' :
      dev_msi_domain st = Some dom → domain_ok dom →
      msi_device_init env st = (0, st') →
      reachable env st'
  | reach_alloc st min_vecs max_vecs flags r st' :
      reachable env st → 0 ≤ min_vecs → 0 ≤ max_vecs →
      msi_alloc_vectors env st min_vecs max_vecs flags = Some (r, st') →
      reachable env st'
  | reach_free st st' :
      reachable env st → msi_free_vectors st = Some st' →
      reachable env st'.

(** All of them are consistent. *)
Lemma reachable_inv env st : reachable env st → ∃ l, msi_inv st l.
Proof.
  induction 1 as [st dom st' Hdom Hok Hinit
                 |st mn mx fl r st' _ [l Hinv] Hmn Hmx Hcall
                 |st st' _ [l Hinv] Hfree].
  - exists []. by apply (msi_device_init_inv env st dom).
  - destruct (msi_alloc_vectors_spec env st l mn mx fl Hinv Hmn Hmx)
      as (r0 & st0 & Hcall0 & Hr).
    rewrite Hcall in Hcall0. injection Hcall0 as <- <-.
    destruct Hr as [[_ ->]|(_ & _ & _ & _ & Hok)]; [by exists l|].
    destruct Hok as (_ & _ & _ & new & _ & _ & Hinv' & _).
    by exists (l ++ new).
  - destruct (msi_free_vectors_inv st l Hinv) as (st0 & Hfree0 & Hinv' & _).
    rewrite Hfree in Hfree0. injection Hfree0 as <-. by exists [].
Qed.


(** *** The descriptor interface outside [msi_alloc_vectors] *)

(** The loop of [msi_desc_alloc],
    [while ((1U << desc->multiple) < nvec) desc->multiple++;], with
    [desc->multiple] at [multiple].  [nvec] is at most 32 when the loop is
    entered, so it has stopped by the sixth test. *)
Fixpoint multiple_loop (fuel : nat) (multiple nvec : Z) : option Z :=
  match fuel with
  | O => None
  | S fuel =>
      if wrap32 (1 ≪ multiple) <? nvec
      then multiple_loop fuel (multiple + 1) nvec
      else Some multiple
  end.

(** [msi_desc_alloc]: the descriptor ([NULL] on failure), the value left in
    its [multiple] field, which the record above does not carry, and the
    memory. *)
Definition msi_desc_alloc (env : environment) (h : gmap Z object)
    (dev nvec : Z) : option (Z * Z * gmap Z object) :=
  if (dev =? NULL) || (nvec =? 0) || (MSI_MAX_VECTORS <? nvec)
  then Some (NULL, 0, h)
  else
    let '(desc, h) := msi_desc_alloc_internal env h in
    if desc =? NULL then Some (NULL, 0, h)
    else
      h ← store_desc h desc (desc_set_dev dev);
      multiple ← multiple_loop 33 0 nvec;
      Some (desc, multiple, h).

(** [msi_desc_list_add]: the checks, then [msi_desc_list_add_locked] under
    the registry lock. *)
Definition msi_desc_list_add (h : gmap Z object) (msi_data desc : Z)
  : option (Z * gmap Z object) :=
  if (msi_data =? NULL) || (desc =? NULL) then Some (-1, h)
  else msi_desc_list_add_locked h msi_data desc.

(** [msi_mask_irq] and [msi_unmask_irq]: the calls they make into the
    generic interrupt layer. *)
Inductive irq_call :=
  | DisableIrqNosync (irq : Z)
  | EnableIrq (irq : Z).

Definition msi_mask_irq (h : gmap Z object) (desc : Z)
  : option (list irq_call) :=
  if desc =? NULL then Some []
  else
    d ← load_desc h desc;
    if irq d =? 0 then Some [] else Some [DisableIrqNosync (irq d)].

Definition msi_unmask_irq (h : gmap Z object) (desc : Z)
  : option (list irq_call) :=
  if desc =? NULL then Some []
  else
    d ← load_desc h desc;
    if irq d =? 0 then Some [] else Some [EnableIrq (irq d)].

Lemma multiple_loop_spec nvec :
  1 ≤ nvec ≤ 32 →
  ∃ m, multiple_loop 33 0 nvec = Some m ∧ 0 ≤ m ≤ 5 ∧ nvec ≤ 2 ^ m ∧
       (m = 0 ∨ 2 ^ (m - 1) < nvec).
Proof.
  intros Hn. assert (nvec ∈ seqZ 1 32) as Hin by (apply elem_of_seqZ; lia).
  vm_compute in Hin.
  repeat (apply elem_of_cons in Hin as [->|Hin];
          [eexists; split; [vm_compute; reflexivity|]; vm_compute; intuition congruence|]).
  by apply elem_of_nil in Hin.
Qed.

Lemma msi_desc_alloc_eq env h dev nvec :
  dev ≠ NULL → 1 ≤ nvec ≤ 32 → kmalloc env h ≠ NULL →
  ∃ m, multiple_loop 33 0 nvec = Some m ∧
    msi_desc_alloc env h dev nvec =
      Some (kmalloc env h, m,
            <[kmalloc env h :=
                ODesc (MsiDesc (ListHead (kmalloc env h) (kmalloc env h))
                               0 0 dev 0 1)]> h).
Proof.
  intros Hdev Hn Hk. destruct (multiple_loop_spec nvec Hn) as (m & Hm & _).
  exists m. split; [done|]. unfold msi_desc_alloc, MSI_MAX_VECTORS.
  destruct (Z.eqb_spec dev NULL); [done|].
  destruct (Z.eqb_spec nvec 0); [lia|].
  destruct (Z.ltb_spec 32 nvec); [lia|]. cbn [orb].
  rewrite Hm. unfold msi_desc_alloc_internal.
  destruct (Z.eqb_spec (kmalloc env h) NULL); [done|].
  destruct (Z.eqb_spec (kmalloc env h) NULL); [done|].
  erewrite store_desc_Some by apply lookup_insert_eq.
  cbn [mbind option_bind]. do 2 f_equal. heap_eq.
Qed.


Lemma msi_desc_alloc_inv env h dev nvec desc multiple h' :
  msi_desc_alloc env h dev nvec = Some (desc, multiple, h') →
  (desc = NULL ∧ h' = h) ∨
  (desc ≠ NULL ∧ h !! desc = None ∧
   h' = <[desc := ODesc (MsiDesc (ListHead desc desc) 0 0 dev 0 1)]> h).
Proof.
  unfold msi_desc_alloc.
  destruct ((dev =? NULL) || (nvec =? 0) || (MSI_MAX_VECTORS <? nvec)).
  { intros [= <- _ <-]. by left. }
  unfold msi_desc_alloc_internal.
  destruct (kmalloc_spec env h) as [E|[Hne Hfresh]].
  { rewrite E. simpl. intros [= <- _ <-]. by left. }
  destruct (Z.eqb_spec (kmalloc env h) NULL); [done|].
  destruct (Z.eqb_spec (kmalloc env h) NULL); [done|].
  erewrite store_desc_Some by apply lookup_insert_eq.
  cbn [mbind option_bind].
  destruct (multiple_loop 33 0 nvec); [|done]. intros [= <- _ <-].
  right. split; [done|]. split; [done|]. heap_eq.
Qed.

(** Descriptors whose links are the same form the same list. *)
Lemma dseg_links h h' pp p q qn l :
  (∀ x d, x ∈ l → h !! x = Some (ODesc d) →
     ∃ d', h' !! x = Some (ODesc d') ∧ desc_list d' = desc_list d) →
  dseg h pp p q qn l → dseg h' pp p q qn l.
Proof.
  revert pp p. induction l as [|x l IH]; intros pp p Hsame; [done|].
  intros [-> (d & Hd & Hprev & Hseg)]. split; [done|].
  destruct (Hsame x d) as (d' & Hd' & E); [left|done|].
  exists d'. rewrite E. split; [done|]. split; [done|].
  apply IH; [|done]. intros y dy Hy. apply Hsame. by right.
Qed.

Lemma registry_set_refcount h s l a v :
  registry h s l →
  registry (alter (on_desc (desc_set_refcount v)) a h) s l.
Proof.
  intros (m & Hm & Hseg & Hnd & Hnv). exists m.
  split.
  { rewrite lookup_alter. case_decide; [subst; by rewrite Hm|done]. }
  split; [|done]. apply (dseg_links h); [|done].
  intros x d _ Hd. rewrite lookup_alter.
  case_decide; [subst; rewrite Hd; by eexists|by exists d].
Qed.

Lemma msi_desc_free_decrement h a d :
  a ≠ NULL → h !! a = Some (ODesc d) → 1 < refcount d →
  msi_desc_free h a =
    Some (alter (on_desc (desc_set_refcount (refcount d - 1))) a h).
Proof.
  intros Ha Hd Href. unfold msi_desc_free.
  destruct (Z.eqb_spec a NULL); [done|].
  rewrite (load_desc_Some _ _ _ Hd). simpl.
  rewrite (store_desc_Some _ _ _ _ Hd). simpl.
  erewrite load_desc_Some by (by rewrite lookup_alter_eq, Hd). simpl.
  destruct (Z.ltb_spec 0 (refcount d - 1)); [done|lia].
Qed.

Lemma msi_desc_list_add_spec h s l a d :
  s ≠ NULL → a ≠ NULL → registry h s l → a ∉ l →
  h !! a = Some (ODesc d) →
  ∃ m, h !! s = Some (OData m) ∧
    msi_desc_list_add h s a = Some (0, added h s a m d) ∧
    registry (added h s a m d) s (l ++ [a]) ∧
    payload_kept h (added h s a m d) l ∧
    (∀ k, k ∉ l → k ≠ a → k ≠ s → added h s a m d !! k = h !! k).
Proof.
  intros Hs Ha Hreg Hal Hd. pose proof Hreg as (m & Hm & Hseg & Hnd & Hnv).
  pose proof (registry_sentinel_notin _ _ _ Hreg) as Hsl.
  assert (a ≠ s) as Has by congruence.
  destruct (dseg_tail _ _ _ _ Hm Hseg) as (oq & Hq & Hqn & Htail).
  assert (prev (data_list m) = s ∨ prev (data_list m) ∈ l) as Hq'.
  { destruct Htail as [[_ ?]|[l0 ->]]; [by left|right].
    apply elem_of_app. right. left. }
  assert (prev (data_list m) ≠ a) as Hqa.
  { destruct Hq' as [?|?]; [congruence|by intros <-]. }
  exists m. split; [done|]. split.
  { unfold msi_desc_list_add.
    destruct (Z.eqb_spec s NULL); [done|].
    destruct (Z.eqb_spec a NULL); [done|]. simpl.
    apply list_add_locked_eq; eauto. }
  split; [by apply added_registry|]. split.
  - intros x dx Hx Hdx.
    destruct (added_lookup_desc h s a m d x dx) as (dx' & Hdx' & Hp & _);
      [by intros ->|by intros ->|done|].
    by exists dx'.
  - intros k Hkl Hka Hks. apply added_lookup_other; [done|done|].
    destruct Hq' as [?|?]; [congruence|by intros ->].
Qed.

Lemma msi_device_cleanup_fields st st' :
  msi_device_cleanup st = Some st' →
  dev_msi_domain st' = dev_msi_domain st ∧ dev_self st' = dev_self st.
Proof.
  unfold msi_device_cleanup. destruct (dev_msi_data st =? NULL).
  { by intros [= <-]. }
  intros Hrun. destruct (load_data _ _); [|done].
  cbn [mbind option_bind] in Hrun.
  destruct (device_cleanup_walk _ _ _ _); [|done].
  cbn [mbind option_bind] in Hrun.
  destruct (kfree _ _); [|done]. by injection Hrun as <-.
Qed.

(** X1.  [msi_desc_alloc] returns NULL and leaves memory alone when the
    device is NULL, when [nvec] is 0 or above 32, or when [kmalloc] fails.
    Otherwise it returns a fresh descriptor that is linked to itself, counted
    once, owned by the device and without ids, and the [multiple] it computes
    is the least exponent with [nvec ≤ 2^multiple], at most 5. *)
Theorem msi_desc_alloc_multiple env h dev nvec :
  (dev = NULL ∨ nvec = 0 ∨ MSI_MAX_VECTORS < nvec ∨ kmalloc env h = NULL →
   msi_desc_alloc env h dev nvec = Some (NULL, 0, h)) ∧
  (dev ≠ NULL → 1 ≤ nvec ≤ MSI_MAX_VECTORS → kmalloc env h ≠ NULL →
   ∃ multiple,
     msi_desc_alloc env h dev nvec =
       Some (kmalloc env h, multiple,
             <[kmalloc env h :=
                 ODesc (MsiDesc (ListHead (kmalloc env h) (kmalloc env h))
                                0 0 dev 0 1)]> h) ∧
     h !! kmalloc env h = None ∧
     0 ≤ multiple ≤ 5 ∧ nvec ≤ 2 ^ multiple ∧
     ∀ j, 0 ≤ j < multiple → 2 ^ j < nvec).
Proof.
  split.
  - intros Hfail. unfold msi_desc_alloc, MSI_MAX_VECTORS in *.
    destruct (Z.eqb_spec dev NULL); [done|].
    destruct (Z.eqb_spec nvec 0); [done|].
    destruct (Z.ltb_spec 32 nvec); [done|]. cbn [orb].
    destruct Hfail as [?|[?|[?|E]]]; [done|done|lia|].
    unfold msi_desc_alloc_internal. rewrite E. done.
  - intros Hdev Hn Hk. unfold MSI_MAX_VECTORS in Hn.
    destruct (msi_desc_alloc_eq env h dev nvec Hdev Hn Hk) as (m & Hm & ->).
    destruct (multiple_loop_spec nvec Hn) as (m' & Hm' & Hb & Hup & Hlow).
    assert (m' = m) as -> by congruence.
    exists m. split; [done|].
    split; [by destruct (kmalloc_spec env h) as [?|[_ ?]]|].
    split; [done|]. split; [done|].
    intros j Hj. destruct Hlow as [->|Hlow]; [lia|].
    eapply Z.le_lt_trans; [|exact Hlow].
    apply Z.pow_le_mono_r; lia.
Qed.

Lemma msi_desc_alloc_multiple_witness :
  0x1000 ≠ NULL ∧ 1 ≤ 5 ≤ MSI_MAX_VECTORS ∧ kmalloc bump_env ∅ ≠ NULL ∧
  ∃ multiple,
    msi_desc_alloc bump_env ∅ 0x1000 5 =
      Some (kmalloc bump_env ∅, multiple,
            <[kmalloc bump_env ∅ :=
                ODesc (MsiDesc (ListHead (kmalloc bump_env ∅)
                                         (kmalloc bump_env ∅))
                               0 0 0x1000 0 1)]> ∅) ∧
    5 ≤ 2 ^ multiple ∧ 2 ^ (multiple - 1) < 5.
Proof.
  assert (0x1000 ≠ NULL) as Hdev by done.
  assert (1 ≤ 5 ≤ MSI_MAX_VECTORS) as Hn by (by vm_compute).
  assert (kmalloc bump_env ∅ ≠ NULL) as Hk by done.
  split; [exact Hdev|]. split; [exact Hn|]. split; [exact Hk|].
  destruct (msi_desc_alloc_multiple bump_env ∅ 0x1000 5) as [_ Hok].
  destruct (Hok Hdev Hn Hk) as (m & Hcall & _ & Hm & Hup & Hlow).
  exists m. split; [exact Hcall|]. split; [exact Hup|].
  destruct (decide (m = 0)) as [->|Hm0]; [vm_compute in Hup; lia|].
  apply Hlow. lia.
Defined.

(** X2.  A descriptor obtained from [msi_desc_alloc] and given back to
    [msi_desc_free] leaves memory exactly as it was before the allocation;
    this includes the failed allocation, whose NULL result [msi_desc_free]
    ignores. *)
Theorem msi_desc_alloc_free env h dev nvec desc multiple h' :
  msi_desc_alloc env h dev nvec = Some (desc, multiple, h') →
  msi_desc_free h' desc = Some h.
Proof.
  intros [[-> ->]|(Hne & Hfresh & ->)]%msi_desc_alloc_inv; [done|].
  unfold msi_desc_free. destruct (Z.eqb_spec desc NULL); [done|].
  repeat heap_step. rewrite Z.eqb_refl. simpl. heap_step.
  f_equal. heap_eq.
Qed.

Lemma msi_desc_alloc_free_witness :
  msi_desc_alloc bump_env ∅ 0x1000 5
  = Some (1, 3, {[1 := ODesc (MsiDesc (ListHead 1 1) 0 0 0x1000 0 1)]}) ∧
  msi_desc_free {[1 := ODesc (MsiDesc (ListHead 1 1) 0 0 0x1000 0 1)]} 1
  = Some ∅.
Proof.
  assert (msi_desc_alloc bump_env ∅ 0x1000 5
    = Some (1, 3, {[1 := ODesc (MsiDesc (ListHead 1 1) 0 0 0x1000 0 1)]}))
    as Hcall by (vm_compute; reflexivity).
  split; [exact Hcall|].
  exact (msi_desc_alloc_free bump_env ∅ 0x1000 5 1 3 _ Hcall).
Defined.


(** The ready device with one more object in memory: a descriptor as
    [msi_desc_alloc] leaves it, not yet in the list. *)
Definition loose_descriptor : state :=
  set_heap (<[2 := ODesc (MsiDesc (ListHead 2 2) 0 0 0x1000 0 1)]>
              (heap ready_device)) ready_device.

Lemma loose_descriptor_registry :
  registry (heap loose_descriptor) (dev_msi_data loose_descriptor) [].
Proof.
  eexists. split; [vm_compute; reflexivity|]. simpl.
  split; [split; reflexivity|]. split; [constructor|reflexivity].
Qed.

(** X3.  [msi_desc_list_add] refuses a NULL registry or descriptor with -1
    and no effect.  On a registry and a descriptor that is not in its list it
    returns 0 and appends the descriptor at the tail: the walk from the
    sentinel finds the old descriptors and then the new one, [num_vectors]
    has grown by one, the count of the descriptor has grown by one and its
    other fields are unchanged, the other descriptors keep all but their
    links, and the rest of memory is untouched. *)
Theorem msi_desc_list_add_tail st l desc d :
  dev_msi_data st ≠ NULL → desc ≠ NULL →
  registry (heap st) (dev_msi_data st) l → desc ∉ l →
  heap st !! desc = Some (ODesc d) →
  (∀ h p, msi_desc_list_add h NULL p = Some (-1, h) ∧
          msi_desc_list_add h p NULL = Some (-1, h)) ∧
  ∃ h',
    msi_desc_list_add (heap st) (dev_msi_data st) desc = Some (0, h') ∧
    registry_walk (set_heap h' st) = Some (l ++ [desc]) ∧
    registry_num_vectors (set_heap h' st) = Some (Z.of_nat (length l) + 1) ∧
    (∃ d', h' !! desc = Some (ODesc d') ∧ refcount d' = refcount d + 1 ∧
           irq d' = irq d ∧ hwirq d' = hwirq d ∧ dev d' = dev d ∧
           msi_attrib d' = msi_attrib d) ∧
    payload_kept (heap st) h' l ∧
    (∀ k, k ∉ l → k ≠ desc → k ≠ dev_msi_data st → h' !! k = heap st !! k).
Proof.
  intros Hs Ha Hreg Hal Hd. split.
  { intros h p. unfold msi_desc_list_add. simpl.
    by rewrite orb_true_r. }
  destruct (msi_desc_list_add_spec _ _ _ _ _ Hs Ha Hreg Hal Hd)
    as (m & Hm & Hadd & Hreg' & Hpay & Hframe).
  exists (added (heap st) (dev_msi_data st) desc m d).
  split; [done|]. split; [by apply registry_walk_spec|].
  split.
  { rewrite (registry_num_vectors_spec _ (l ++ [desc])) by done.
    rewrite length_app. simpl. f_equal. lia. }
  split; [|done]. eexists. split; [apply added_lookup_new|]. done.
Qed.

Lemma msi_desc_list_add_tail_witness :
  dev_msi_data loose_descriptor ≠ NULL ∧ 2 ≠ NULL ∧
  registry (heap loose_descriptor) (dev_msi_data loose_descriptor) [] ∧
  ∃ h',
    msi_desc_list_add (heap loose_descriptor) (dev_msi_data loose_descriptor)
      2 = Some (0, h') ∧
    registry_walk (set_heap h' loose_descriptor) = Some [2].
Proof.
  assert (dev_msi_data loose_descriptor ≠ NULL) as Hs by done.
  assert (2 ≠ NULL) as Ha by done.
  split; [exact Hs|]. split; [exact Ha|].
  split; [exact loose_descriptor_registry|].
  destruct (msi_desc_list_add_tail loose_descriptor [] 2
              (MsiDesc (ListHead 2 2) 0 0 0x1000 0 1) Hs Ha
              loose_descriptor_registry)
    as [_ (h' & Hadd & Hwalk & _)].
  { apply not_elem_of_nil. }
  { vm_compute. reflexivity. }
  exists h'. split; [exact Hadd|exact Hwalk].
Defined.

(** X4.  The life of a descriptor handled by hand.  Created by
    [msi_desc_alloc] it is counted once; [msi_desc_list_add] puts it at the
    tail of the registry and counts it twice; the [msi_desc_free] of its
    creator brings the count back to one and leaves it in the list; and
    [msi_device_cleanup] then unlinks and destroys it, together with the
    registry. *)
Theorem msi_desc_lifecycle env st l dev nvec desc multiple h1 :
  dev_msi_data st ≠ NULL → registry (heap st) (dev_msi_data st) l →
  msi_desc_alloc env (heap st) dev nvec = Some (desc, multiple, h1) →
  desc ≠ NULL →
  ∃ h2 h3 st',
    (∃ d, h1 !! desc = Some (ODesc d) ∧ refcount d = 1) ∧
    msi_desc_list_add h1 (dev_msi_data st) desc = Some (0, h2) ∧
    (∃ d, h2 !! desc = Some (ODesc d) ∧ refcount d = 2) ∧
    msi_desc_free h2 desc = Some h3 ∧
    (∃ d, h3 !! desc = Some (ODesc d) ∧ refcount d = 1) ∧
    registry_walk (set_heap h3 st) = Some (l ++ [desc]) ∧
    msi_device_cleanup (set_heap h3 st) = Some st' ∧
    heap st' !! desc = None ∧
    heap st' !! dev_msi_data st = None ∧
    dev_msi_data st' = NULL.
Proof.
  intros Hs Hreg Halloc Hne.
  apply msi_desc_alloc_inv in Halloc as [[? _]|(_ & Hfresh & ->)]; [done|].
  set (s := dev_msi_data st) in *.
  set (D := MsiDesc (ListHead desc desc) 0 0 dev 0 1).
  set (h1 := <[desc := ODesc D]> (heap st)).
  pose proof Hreg as (m & Hm & Hseg & _).
  assert (desc ≠ s) as Has by congruence.
  assert (desc ∉ l) as Hal.
  { intros Hin. destruct (dseg_lookup _ _ _ _ _ _ _ Hseg Hin). congruence. }
  assert (registry h1 s l) as Hreg1.
  { apply (registry_frame (heap st)); [|intros x Hx|done]; unfold h1.
    - by rewrite lookup_insert_ne.
    - rewrite lookup_insert_ne; [done|]. by intros ->. }
  assert (h1 !! desc = Some (ODesc D)) as Hd1
    by (unfold h1; by rewrite lookup_insert_eq).
  destruct (msi_desc_list_add_spec h1 s l desc D Hs Hne Hreg1 Hal Hd1)
    as (m1 & Hm1 & Hadd & Hreg2 & _).
  set (h2 := added h1 s desc m1 D) in *.
  pose proof (added_lookup_new h1 s desc m1 D) as Hd2. fold h2 in Hd2.
  simpl in Hd2.
  pose proof (msi_desc_free_decrement h2 desc _ Hne Hd2 ltac:(simpl; lia))
    as Hfree.
  simpl in Hfree.
  set (h3 := alter (on_desc (desc_set_refcount (1 + 1 - 1))) desc h2) in *.
  assert (registry h3 s (l ++ [desc])) as Hreg3
    by (by apply registry_set_refcount).
  assert (∃ d, h3 !! desc = Some (ODesc d) ∧ refcount d = 1) as Hd3.
  { unfold h3. rewrite lookup_alter_eq, Hd2. simpl. eexists.
    split; [done|]. simpl. lia. }
  destruct (msi_device_cleanup_spec (set_heap h3 st) (l ++ [desc]) Hs Hreg3)
    as (m3 & h & st' & _ & _ & _ & Hclean & Hheap & Hnull & Hdescs & _).
  exists h2, h3, st'. split; [by exists D|]. split; [done|].
  split; [by eexists|]. split; [done|]. split; [done|].
  split; [by apply (registry_walk_spec (set_heap h3 st))|].
  split; [done|]. split; [|split; [|done]].
  - destruct Hd3 as (d3 & Hd3 & Href).
    specialize (Hdescs desc d3). simpl in Hdescs.
    rewrite decide_True in Hdescs by done. apply Hdescs; [|done].
    apply elem_of_app. right. left.
  - rewrite Hheap. simpl. apply lookup_delete_eq.
Qed.

Lemma msi_desc_lifecycle_witness :
  dev_msi_data ready_device ≠ NULL ∧
  registry (heap ready_device) (dev_msi_data ready_device) [] ∧
  msi_desc_alloc bump_env (heap ready_device) 0x1000 1
    = Some (2, 0, heap loose_descriptor) ∧
  ∃ h3 st',
    registry_walk (set_heap h3 ready_device) = Some [2] ∧
    msi_device_cleanup (set_heap h3 ready_device) = Some st' ∧
    heap st' !! 2 = None.
Proof.
  assert (dev_msi_data ready_device ≠ NULL) as Hs by done.
  assert (msi_desc_alloc bump_env (heap ready_device) 0x1000 1
          = Some (2, 0, heap loose_descriptor)) as Halloc
    by (vm_compute; reflexivity).
  split; [exact Hs|]. split; [exact (inv_registry _ _ ready_device_inv)|].
  split; [exact Halloc|].
  destruct (msi_desc_lifecycle bump_env ready_device [] 0x1000 1 2 0 _ Hs
              (inv_registry _ _ ready_device_inv) Halloc)
    as (h2 & h3 & st' & _ & _ & _ & _ & _ & Hwalk & Hclean & Hgone & _).
  { intros E. vm_compute in E. lia. }
  exists h3, st'. split; [exact Hwalk|]. split; [exact Hclean|exact Hgone].
Defined.

(** X5.  [msi_device_cleanup] on a device with a registry: it returns; the
    registry is freed and [dev->msi_data] is NULL; a descriptor of the list
    counted once is destroyed, any other survives with its count one lower
    and the same ids; memory outside the list and the IRQ domain, with the
    ids and mappings of the descriptors, are untouched.  After it a second
    [msi_device_cleanup] and [msi_free_vectors] change nothing. *)
Theorem msi_device_cleanup_by_refcount st l :
  dev_msi_data st ≠ NULL → registry (heap st) (dev_msi_data st) l →
  ∃ st',
    msi_device_cleanup st = Some st' ∧
    dev_msi_data st' = NULL ∧
    heap st' !! dev_msi_data st = None ∧
    (∀ x dx, x ∈ l → heap st !! x = Some (ODesc dx) →
       if decide (refcount dx = 1) then heap st' !! x = None
       else ∃ dx', heap st' !! x = Some (ODesc dx') ∧
                   refcount dx' = refcount dx - 1 ∧
                   irq dx' = irq dx ∧ hwirq dx' = hwirq dx) ∧
    (∀ k, k ≠ dev_msi_data st → k ∉ l → heap st' !! k = heap st !! k) ∧
    dev_msi_domain st' = dev_msi_domain st ∧
    dev_self st' = dev_self st ∧
    msi_device_cleanup st' = Some st' ∧
    msi_free_vectors st' = Some st'.
Proof.
  intros Hs Hreg.
  destruct (msi_device_cleanup_spec st l Hs Hreg)
    as (m & h & st' & _ & _ & _ & Hclean & Hheap & Hnull & Hdescs & Hframe).
  destruct (msi_device_cleanup_fields _ _ Hclean) as [Hdom Hself].
  exists st'. split; [done|]. split; [done|].
  split; [rewrite Hheap; apply lookup_delete_eq|].
  split; [done|]. split; [done|]. split; [done|]. split; [done|].
  unfold msi_device_cleanup, msi_free_vectors. by rewrite Hnull.
Qed.

Lemma msi_device_cleanup_by_refcount_witness :
  dev_msi_data lowered_vector ≠ NULL ∧
  registry (heap lowered_vector) (dev_msi_data lowered_vector) [2; 3; 4; 5] ∧
  (∃ d, heap lowered_vector !! 3 = Some (ODesc d) ∧ refcount d = 1) ∧
  ∃ st',
    msi_device_cleanup lowered_vector = Some st' ∧
    dev_msi_data st' = NULL ∧
    heap st' !! dev_msi_data lowered_vector = None ∧
    heap st' !! 3 = None ∧
    (∀ x, x ∈ [2; 4; 5] →
       ∃ d d', heap lowered_vector !! x = Some (ODesc d) ∧
               heap st' !! x = Some (ODesc d') ∧
               refcount d = 2 ∧ refcount d' = 1 ∧
               irq d' = irq d ∧ hwirq d' = hwirq d) ∧
    dev_msi_domain st' = dev_msi_domain lowered_vector ∧
    msi_device_cleanup st' = Some st' ∧
    msi_free_vectors st' = Some st'.
Proof.
  assert (dev_msi_data lowered_vector ≠ NULL) as Hs
    by (intros E; vm_compute in E; discriminate E).
  assert (registry (heap lowered_vector) (dev_msi_data lowered_vector)
            [2; 3; 4; 5]) as Hreg.
  { assert (dev_msi_data lowered_vector = dev_msi_data four_vectors) as ->
      by (vm_compute; reflexivity).
    assert (heap lowered_vector
            = alter (on_desc (desc_set_refcount 1)) 3 (heap four_vectors))
      as -> by (vm_compute; reflexivity).
    apply registry_set_refcount. exact (inv_registry _ _ four_vectors_inv). }
  assert (heap lowered_vector !! 3
          = Some (ODesc (MsiDesc (ListHead 4 2) 2 1 0x1000 0 1))) as H3
    by (vm_compute; reflexivity).
  assert (heap lowered_vector !! 2
          = Some (ODesc (MsiDesc (ListHead 3 1) 1 0 0x1000 0 2))) as H2
    by (vm_compute; reflexivity).
  assert (heap lowered_vector !! 4
          = Some (ODesc (MsiDesc (ListHead 5 3) 3 2 0x1000 0 2))) as H4
    by (vm_compute; reflexivity).
  assert (heap lowered_vector !! 5
          = Some (ODesc (MsiDesc (ListHead 1 4) 4 3 0x1000 0 2))) as H5
    by (vm_compute; reflexivity).
  split; [exact Hs|]. split; [exact Hreg|].
  split; [eexists; split; [exact H3|reflexivity]|].
  destruct (msi_device_cleanup_by_refcount lowered_vector [2; 3; 4; 5] Hs Hreg)
    as (st' & Hclean & Hnull & Hgone & Hdescs & _ & Hdom & _ & Hagain & Hfree).
  exists st'. split; [exact Hclean|]. split; [exact Hnull|].
  split; [exact Hgone|].
  assert (∀ x d, x ∈ [2; 3; 4; 5] → heap lowered_vector !! x = Some (ODesc d) →
            refcount d = 2 →
            ∃ d', heap st' !! x = Some (ODesc d') ∧ refcount d' = 1 ∧
                  irq d' = irq d ∧ hwirq d' = hwirq d) as Hkept.
  { intros x d Hx Hd Href. specialize (Hdescs x d Hx Hd).
    destruct (decide (refcount d = 1)) as [E|_]; [lia|].
    destruct Hdescs as (d' & Hd' & Href' & Hids). exists d'.
    split; [exact Hd'|]. split; [lia|exact Hids]. }
  assert (∀ x d, x ∈ [2; 3; 4; 5] → heap lowered_vector !! x = Some (ODesc d) →
            refcount d = 1 → heap st' !! x = None) as Hdestroyed.
  { intros x d Hx Hd Href. specialize (Hdescs x d Hx Hd).
    destruct (decide (refcount d = 1)) as [_|E]; [exact Hdescs|lia]. }
  clear Hdescs.
  split; [exact (Hdestroyed 3 _ (list_elem_of_further _ _ _
                                   (list_elem_of_here _ _)) H3 eq_refl)|].
  split; [|split; [exact Hdom|split; [exact Hagain|exact Hfree]]].
  intros x Hx.
  assert (x ∈ [2; 3; 4; 5]) as Hx'.
  { apply elem_of_cons in Hx as [->|Hx]; [left|].
    right. right. exact Hx. }
  assert (∃ d, heap lowered_vector !! x = Some (ODesc d) ∧ refcount d = 2)
    as (d & Hd & Href).
  { apply elem_of_cons in Hx as [->|Hx];
      [eexists; split; [exact H2|reflexivity]|].
    apply elem_of_cons in Hx as [->|Hx];
      [eexists; split; [exact H4|reflexivity]|].
    apply elem_of_cons in Hx as [->|Hx];
      [eexists; split; [exact H5|reflexivity]|].
    apply elem_of_nil in Hx. destruct Hx. }
  destruct (Hkept x d Hx' Hd Href) as (d' & Hd' & Href' & Hirq & Hhw).
  exists d, d'. split; [exact Hd|]. split; [exact Hd'|].
  split; [exact Href|]. split; [exact Href'|]. split; [exact Hirq|exact Hhw].
Defined.

(** X6.  [msi_device_init] either fails with -1 and changes nothing, or
    returns 0 with [dev->msi_data] pointing to a fresh registry whose list is
    empty and whose [num_vectors] is 0.  [msi_device_cleanup] right after a
    successful [msi_device_init] gives back the memory as it was, with
    [dev->msi_data] NULL. *)
Theorem msi_device_init_cleanup env st r st1 :
  msi_device_init env st = (r, st1) →
  (r = -1 ∧ st1 = st) ∨
  (r = 0 ∧
   dev_msi_data st1 ≠ NULL ∧
   heap st !! dev_msi_data st1 = None ∧
   registry_walk st1 = Some [] ∧
   registry_num_vectors st1 = Some 0 ∧
   registry_self_linked st1 ∧
   (∀ k, k ≠ dev_msi_data st1 → heap st1 !! k = heap st !! k) ∧
   dev_msi_domain st1 = dev_msi_domain st ∧
   msi_device_cleanup st1 = Some (set_msi_data NULL st)).
Proof.
  unfold msi_device_init.
  destruct (kmalloc_spec env (heap st)) as [E|[Hne Hfresh]].
  { rewrite E. simpl. intros [= <- <-]. by left. }
  set (p := kmalloc env (heap st)) in *.
  destruct (Z.eqb_spec p NULL) as [|_]; [done|].
  intros [= <- <-]. right. split; [done|].
  set (h := <[p := OData (MsiDeviceData (ListHead p p) 0)]> (heap st)).
  set (st1 := set_msi_data p (set_heap h st)).
  assert (registry (heap st1) (dev_msi_data st1) []) as Hreg.
  { eexists. split; [apply lookup_insert_eq|]. simpl.
    split; [done|]. split; [constructor|done]. }
  split; [done|]. split; [done|].
  split; [by apply registry_walk_spec|].
  split; [by apply (registry_num_vectors_spec st1 [])|].
  split; [by apply registry_nil_self_linked|].
  split; [intros k Hk; simpl; unfold h; by rewrite lookup_insert_ne|].
  split; [done|].
  unfold msi_device_cleanup. simpl.
  destruct (Z.eqb_spec p NULL) as [|_]; [done|].
  unfold load_data, h. rewrite lookup_insert_eq. simpl.
  rewrite Z.eqb_refl. simpl.
  unfold kfree. rewrite lookup_insert_eq. simpl.
  unfold set_msi_data, set_heap. simpl. do 2 f_equal. heap_eq.
Qed.

Lemma msi_device_init_cleanup_witness :
  msi_device_init bump_env fresh_device = (0, ready_device) ∧
  msi_device_cleanup ready_device = Some fresh_device.
Proof.
  assert (msi_device_init bump_env fresh_device = (0, ready_device)) as Hinit
    by reflexivity.
  split; [exact Hinit|].
  destruct (msi_device_init_cleanup bump_env fresh_device 0 ready_device
              Hinit) as [[E _]|(_ & _ & _ & _ & _ & _ & _ & _ & Hclean)].
  { lia. }
  exact Hclean.
Defined.

(** X7.  [msi_mask_irq] and [msi_unmask_irq] do nothing for a NULL
    descriptor and for a descriptor without a virtual IRQ, such as one fresh
    from [msi_desc_alloc].  For a descriptor of a consistent registry they
    make exactly one call, [disable_irq_nosync] or [enable_irq], on the
    virtual IRQ the MSI domain maps the descriptor's hardware id to. *)
Theorem msi_mask_unmask_irq st l :
  msi_inv st l →
  (∀ h, msi_mask_irq h NULL = Some [] ∧ msi_unmask_irq h NULL = Some []) ∧
  (∀ env h dev nvec desc multiple h',
     msi_desc_alloc env h dev nvec = Some (desc, multiple, h') →
     msi_mask_irq h' desc = Some [] ∧ msi_unmask_irq h' desc = Some []) ∧
  (∀ x, x ∈ l → x ≠ NULL →
     ∃ d dom,
       heap st !! x = Some (ODesc d) ∧ dev_msi_domain st = Some dom ∧
       irq d ≠ 0 ∧ mapping dom !! hwirq d = Some (irq d) ∧
       msi_mask_irq (heap st) x = Some [DisableIrqNosync (irq d)] ∧
       msi_unmask_irq (heap st) x = Some [EnableIrq (irq d)]).
Proof.
  intros [Hs Hreg (dom & Hdom & _ & Hdescs) _].
  split; [done|]. split.
  - intros env h dev nvec desc multiple h'
      [[-> ->]|(Hne & Hfresh & ->)]%msi_desc_alloc_inv; [done|].
    unfold msi_mask_irq, msi_unmask_irq.
    destruct (Z.eqb_spec desc NULL); [done|].
    unfold load_desc. by rewrite lookup_insert_eq.
  - intros x Hx Hxn. destruct (Hdescs x Hx) as (d & Hd & Hirq & _ & Hmap).
    exists d, dom. split; [done|]. split; [done|]. split; [done|].
    split; [done|].
    unfold msi_mask_irq, msi_unmask_irq.
    destruct (Z.eqb_spec x NULL) as [|_]; [done|].
    rewrite (load_desc_Some _ _ _ Hd). simpl.
    by destruct (Z.eqb_spec (irq d) 0).
Qed.

Lemma msi_mask_unmask_irq_witness :
  msi_inv four_vectors [2; 3; 4; 5] ∧
  msi_mask_irq (heap four_vectors) 3 = Some [DisableIrqNosync 2] ∧
  msi_unmask_irq (heap four_vectors) 3 = Some [EnableIrq 2].
Proof.
  split; [exact four_vectors_inv|].
  destruct (msi_mask_unmask_irq four_vectors _ four_vectors_inv)
    as (_ & _ & Hlist).
  destruct (Hlist 3) as (d & dom & Hd & _ & _ & _ & Hmask & Hunmask).
  { right. left. }
  { intros E. vm_compute in E. lia. }
  assert (heap four_vectors !! 3
          = Some (ODesc (MsiDesc (ListHead 4 2) 2 1 0x1000 0 2))) as Hd'
    by (vm_compute; reflexivity).
  rewrite Hd' in Hd. injection Hd as <-.
  split; [exact Hmask|exact Hunmask].
Defined.


(** *** What allocation and release do to the IRQ domain *)

Lemma create_mapping_frame env dom hw :
  reserved (irq_create_mapping env dom hw).2 = reserved dom ∧
  ∀ hw', hw' ≠ hw →
    mapping (irq_create_mapping env dom hw).2 !! hw' = mapping dom !! hw'.
Proof.
  unfold irq_create_mapping. destruct (mapping dom !! hw); [done|].
  case_bool_decide; simpl; [|done]. split; [done|].
  intros hw' Hne. by rewrite lookup_insert_ne.
Qed.

(** An iteration of the population loop that goes on has changed the domain
    by one [irq_create_mapping]. *)
Lemma populate_body_domain env st base flags i st' dom :
  dev_msi_domain st = Some dom →
  populate_body env st base flags i = Some (Continue st') →
  dev_msi_domain st' =
    Some (irq_create_mapping env dom (wrap32 (base + Z.of_nat i))).2.
Proof.
  intros Hdom. unfold populate_body. rewrite Hdom. simpl.
  unfold msi_desc_alloc_internal. cbv zeta.
  destruct (kmalloc_spec env (heap st)) as [E|[Hne Hfresh]].
  { rewrite E. simpl. done. }
  set (a := kmalloc env (heap st)) in *.
  assert ((a =? NULL) = false) as Hanull by (by apply Z.eqb_neq).
  rewrite Hanull. simpl. rewrite Hanull.
  repeat heap_step.
  destruct (irq_create_mapping env dom _) as [virq dom'] eqn:Hcreate.
  repeat heap_step.
  destruct (virq =? 0).
  { repeat heap_step. done. }
  destruct (msi_desc_list_add_locked _ _ _) as [[r h]|]; simpl; [|done].
  destruct (r <? 0).
  - destruct (load_desc h a); simpl; [|done].
    destruct (kfree h a); simpl; done.
  - by intros [= <-].
Qed.

Lemma populate_domain env n : ∀ i st base flags st' dom,
  0 ≤ base → base + Z.of_nat i + Z.of_nat n ≤ 2 ^ 32 →
  dev_msi_domain st = Some dom →
  populate env n i st base flags = Some (None, st') →
  ∃ dom', dev_msi_domain st' = Some dom' ∧ reserved dom' = reserved dom ∧
    ∀ hw, ¬ (base + Z.of_nat i ≤ hw < base + Z.of_nat i + Z.of_nat n) →
      mapping dom' !! hw = mapping dom !! hw.
Proof.
  induction n as [|n IH]; intros i st base flags st' dom Hb Hhi Hdom; simpl.
  { intros [= <-]. by exists dom. }
  destruct (populate_body env st base flags i) as [[st1|st1]|] eqn:Hbody;
    simpl; [|done|done].
  intros Hpop.
  pose proof (populate_body_domain _ _ _ _ _ _ _ Hdom Hbody) as Hdom1.
  rewrite wrap32_small in Hdom1 by lia.
  destruct (create_mapping_frame env dom (base + Z.of_nat i)) as [Hres Hmap].
  destruct (IH (S i) st1 base flags st' _ Hb ltac:(lia) Hdom1 Hpop)
    as (dom' & Hd' & Hr' & Hm').
  exists dom'. split; [done|]. split; [congruence|].
  intros hw Hhw. rewrite Hm' by lia. apply Hmap. lia.
Qed.

(** A successful [msi_alloc_vectors] has reserved one block in the domain
    and has left the mappings outside the block alone. *)
Lemma msi_alloc_vectors_domain env st min_vecs max_vecs flags n st' dom :
  dev_msi_domain st = Some dom →
  msi_alloc_vectors env st min_vecs max_vecs flags = Some (n, st') → 0 ≤ n →
  ∃ base dom1 dom',
    irq_domain_alloc_hwirq_range env dom n = Some (base, dom1) ∧
    dev_msi_domain st' = Some dom' ∧
    reserved dom' = reserved dom ∪ hwirq_range base n ∧
    ∀ hw, ¬ (base ≤ hw < base + n) → mapping dom' !! hw = mapping dom !! hw.
Proof.
  intros Hdom. unfold msi_alloc_vectors.
  destruct (_ || _); [intros [= <- _]; lia|].
  destruct (msi_nvec max_vecs) as [nvec|]; simpl; [|done].
  destruct (nvec <? min_vecs); [intros [= <- _]; lia|].
  unfold msi_alloc_block. rewrite Hdom. simpl.
  destruct (irq_domain_alloc_hwirq_range env dom nvec) as [[base dom1]|]
    eqn:Halloc; [|intros [= <- _]; lia].
  destruct (populate env _ _ _ _ _) as [[[j|] st1]|] eqn:Hpop; simpl;
    [| |done].
  { destruct (cleanup j st1 base) as [st2|]; simpl; [|done].
    destruct (dev_msi_domain st2); simpl; [|done]. intros [= <- _]. lia. }
  intros [= <- <-] Hn.
  destruct (alloc_hwirq_range_Some _ _ _ _ _ Halloc)
    as (Hb & Hhi & Hdisj & ->).
  set (dom1 := IrqDomain (reserved dom ∪ hwirq_range base nvec)
                         (mapping dom)) in *.
  assert (dev_msi_domain (set_domain dom1 st) = Some dom1) as Hdom1 by done.
  destruct (populate_domain env (Z.to_nat nvec) 0 _ base flags st1 dom1
              Hb ltac:(lia) Hdom1 Hpop) as (dom' & Hd' & Hr' & Hm').
  exists base, dom1, dom'. split; [done|]. split; [done|]. split; [done|].
  intros hw Hhw. rewrite Hm' by lia. done.
Qed.

Lemma hwirq_range_1 hw x : x ∈ hwirq_range hw 1 ↔ x = hw.
Proof. rewrite elem_of_hwirq_range. lia. Qed.

Lemma release_reserved ids : ∀ dom hw,
  hw ∈ reserved (release dom ids) ↔ hw ∈ reserved dom ∧ hw ∉ ids.*2.
Proof.
  induction ids as [|[v x] ids IH]; intros dom hw; simpl.
  { split; [|by intros [? _]]. intros ?. split; [done|apply not_elem_of_nil]. }
  rewrite IH. simpl. rewrite elem_of_difference, hwirq_range_1.
  rewrite not_elem_of_cons.
  assert (reserved (if v =? 0 then dom else irq_dispose_mapping dom v)
          = reserved dom) as -> by (by destruct (v =? 0)).
  tauto.
Qed.

Lemma release_mapping ids : ∀ dom hw v,
  mapping (release dom ids) !! hw = Some v ↔
  mapping dom !! hw = Some v ∧
  ∀ v' hw', (v', hw') ∈ ids → v' ≠ 0 → v ≠ v'.
Proof.
  induction ids as [|[v1 x] ids IH]; intros dom hw v; simpl.
  { split; [|by intros [? _]]. intros ?. split; [done|].
    by intros ? ? ?%elem_of_nil. }
  rewrite IH. simpl. destruct (Z.eqb_spec v1 0) as [->|Hv1].
  - split.
    + intros [Hm Hall]. split; [done|].
      intros v' hw' [[= -> ->]|Hin]%elem_of_cons Hv'; [done|].
      by apply (Hall v' hw').
    + intros [Hm Hall]. split; [done|]. intros v' hw' Hin.
      apply (Hall v' hw'). by right.
  - simpl. rewrite map_lookup_filter_Some. simpl. split.
    + intros [[Hm Hne] Hall]. split; [done|].
      intros v' hw' [[= -> ->]|Hin]%elem_of_cons Hv'; [done|].
      by apply (Hall v' hw').
    + intros [Hm Hall]. split; [split; [done|]|].
      * apply (Hall v1 x); [left|done].
      * intros v' hw' Hin. apply (Hall v' hw'). by right.
Qed.

Lemma desc_ids_elem h l x d :
  x ∈ l → h !! x = Some (ODesc d) → (irq d, hwirq d) ∈ desc_ids h l.
Proof.
  intros Hx Hd. unfold desc_ids. apply list_elem_of_omap.
  exists x. split; [done|]. by rewrite (load_desc_Some _ _ _ Hd).
Qed.

(** The hardware ids of the descriptors of a list. *)
Definition owned_hwirq (h : gmap Z object) (l : list Z) (hw : Z) : Prop :=
  ∃ x d, x ∈ l ∧ h !! x = Some (ODesc d) ∧ hwirq d = hw.

(** What [msi_free_vectors] leaves of the domain: the reservations and the
    mappings of the hardware ids that no descriptor of the list had. *)
Lemma release_owned st l dom :
  msi_inv st l → dev_msi_domain st = Some dom →
  (∀ hw, hw ∈ reserved (release dom (desc_ids (heap st) l)) ↔
         hw ∈ reserved dom ∧ ¬ owned_hwirq (heap st) l hw) ∧
  (∀ hw v, mapping (release dom (desc_ids (heap st) l)) !! hw = Some v ↔
           mapping dom !! hw = Some v ∧ ¬ owned_hwirq (heap st) l hw).
Proof.
  intros [Hs Hreg (dom0 & Hdom0 & Hok & Hdescs) Hinj] Hdom.
  assert (dom0 = dom) as -> by congruence.
  split.
  - intros hw. rewrite release_reserved.
    assert (hw ∈ (desc_ids (heap st) l).*2 ↔ owned_hwirq (heap st) l hw)
      as ->; [|done].
    split.
    + intros ([v hw'] & E & Hin)%list_elem_of_fmap. simpl in E. subst hw'.
      apply elem_of_desc_ids in Hin as (x & d & Hx & Hd & _ & ->).
      by exists x, d.
    + intros (x & d & Hx & Hd & <-). apply list_elem_of_fmap.
      exists (irq d, hwirq d). split; [done|]. by apply (desc_ids_elem _ _ x).
  - intros hw v. rewrite release_mapping. split.
    + intros [Hm Hall]. split; [done|]. intros (x & d & Hx & Hd & <-).
      destruct (Hdescs x Hx) as (d' & Hd' & Hirq & _ & Hmap).
      assert (d' = d) as -> by congruence.
      apply (Hall (irq d) (hwirq d)); [by apply (desc_ids_elem _ _ x)|done|].
      congruence.
    + intros [Hm Hnot]. split; [done|].
      intros v' hw' (x & d & Hx & Hd & -> & ->)%elem_of_desc_ids Hv' ->.
      destruct (Hdescs x Hx) as (d' & Hd' & _ & _ & Hmap).
      assert (d' = d) as -> by congruence.
      apply Hnot. exists x, d. split; [done|]. split; [done|].
      destruct Hok as [_ Hinj']. by apply (Hinj' (hwirq d) hw (irq d)).
Qed.

Lemma msi_free_vectors_nil st :
  dev_msi_data st ≠ NULL → is_Some (dev_msi_domain st) →
  registry (heap st) (dev_msi_data st) [] →
  msi_free_vectors st = Some st.
Proof.
  intros Hs [dom Hdom] (m & Hm & [Hnext _] & _).
  unfold msi_free_vectors.
  destruct (Z.eqb_spec (dev_msi_data st) NULL); [done|].
  rewrite bool_decide_eq_false_2 by (by rewrite Hdom). simpl.
  rewrite (load_data_Some _ _ _ Hm). simpl.
  by rewrite Hnext, Z.eqb_refl.
Qed.

Lemma registry_nil_sentinel h s :
  registry h s [] →
  h !! s = Some (OData (MsiDeviceData (ListHead s s) 0)).
Proof.
  intros (m & Hm & [Hnext Hprev] & _ & Hnv). rewrite Hm.
  destruct m as [[nx pv] nv]. simpl in *. by subst.
Qed.


(** X8.  [msi_free_vectors] on a consistent state gives back to the IRQ
    domain what the registry held and nothing else: a hardware id stays
    reserved, and a mapping stays in place, exactly when no descriptor of the
    list had this hardware id.  Memory outside the list is untouched, and a
    second [msi_free_vectors] changes nothing. *)
Theorem msi_free_vectors_releases st l dom :
  msi_inv st l → dev_msi_domain st = Some dom →
  ∃ st' dom',
    msi_free_vectors st = Some st' ∧
    dev_msi_domain st' = Some dom' ∧
    (∀ hw, hw ∈ reserved dom' ↔
           hw ∈ reserved dom ∧ ¬ owned_hwirq (heap st) l hw) ∧
    (∀ hw v, mapping dom' !! hw = Some v ↔
             mapping dom !! hw = Some v ∧ ¬ owned_hwirq (heap st) l hw) ∧
    (∀ x, x ∈ l → heap st' !! x = None) ∧
    (∀ k, k ≠ dev_msi_data st → k ∉ l → heap st' !! k = heap st !! k) ∧
    dev_msi_data st' = dev_msi_data st ∧
    msi_free_vectors st' = Some st'.
Proof.
  intros Hinv Hdom. pose proof Hinv as [Hs Hreg _ _].
  destruct (msi_free_vectors_spec st l Hs) as
    (st' & Hfree & Hd' & _ & Hdom' & Hreg' & Hgone & Hframe);
    [by rewrite Hdom|done|].
  destruct (release_owned st l dom Hinv Hdom) as [Hres Hmap].
  exists st', (release dom (desc_ids (heap st) l)).
  split; [done|]. split; [by apply Hdom'|]. split; [done|].
  split; [done|]. split; [done|]. split; [done|]. split; [done|].
  apply msi_free_vectors_nil; [congruence| |done].
  rewrite (Hdom' dom Hdom). by eexists.
Qed.

Lemma msi_free_vectors_releases_witness :
  msi_inv four_vectors [2; 3; 4; 5] ∧
  dev_msi_domain four_vectors
    = Some (IrqDomain (list_to_set [0; 1; 2; 3])
                      (list_to_map [(0, 1); (1, 2); (2, 3); (3, 4)])) ∧
  ∃ st',
    msi_free_vectors four_vectors = Some st' ∧
    msi_free_vectors st' = Some st'.
Proof.
  assert (dev_msi_domain four_vectors
    = Some (IrqDomain (list_to_set [0; 1; 2; 3])
                      (list_to_map [(0, 1); (1, 2); (2, 3); (3, 4)])))
    as Hdom by (vm_compute; reflexivity).
  split; [exact four_vectors_inv|]. split; [exact Hdom|].
  destruct (msi_free_vectors_releases four_vectors _ _ four_vectors_inv Hdom)
    as (st' & dom' & Hfree & _ & _ & _ & _ & _ & _ & Hagain).
  exists st'. split; [exact Hfree|exact Hagain].
Defined.

(** The descriptors of a block own the hardware ids of the block. *)
Lemma block_owned h base flags dv new n :
  block_at h base flags dv new → Z.of_nat (length new) = n →
  ∀ hw, owned_hwirq h new hw ↔ base ≤ hw < base + n.
Proof.
  intros Hblock Hlen hw. split.
  - intros (x & d & Hx & Hd & <-).
    apply list_elem_of_lookup in Hx as [k Hk].
    destruct (Hblock k x Hk) as (d' & Hd' & Hhw & _).
    assert (d' = d) as -> by congruence.
    apply lookup_lt_Some in Hk. lia.
  - intros Hhw.
    destruct (lookup_lt_is_Some_2 new (Z.to_nat (hw - base))) as [a Ha];
      [lia|].
    destruct (Hblock _ a Ha) as (d & Hd & Hhwd & _).
    exists a, d. split; [by eapply list_elem_of_lookup_2|].
    split; [done|]. lia.
Qed.

(** The release of a block allocated on an empty registry gives back the
    state before the allocation. *)
Lemma alloc_success_free env st min_vecs max_vecs flags r st1 :
  msi_inv st [] →
  msi_alloc_vectors env st min_vecs max_vecs flags = Some (r, st1) →
  0 ≤ r → alloc_success env st st1 [] r flags →
  msi_free_vectors st1 = Some st.
Proof.
  intros Hinv Hcall Hr0 Hok.
  pose proof Hinv as [Hs Hreg (dom0 & Hdom0 & [Hmapres _] & _) _].
  destruct Hok as (dom & base & dom1 & new & Hdom & Halloc & Hinv1 & Hlen &
                   Hblock & _ & Hfresh & Hframe & Hself & Hdata).
  assert (dom0 = dom) as -> by congruence.
  simpl in Hinv1, Hframe.
  destruct (msi_alloc_vectors_domain _ _ _ _ _ _ _ _ Hdom Hcall Hr0)
    as (base' & dom1' & dom' & Halloc' & Hdom' & Hres' & Hmap').
  rewrite Halloc in Halloc'. injection Halloc' as <- <-.
  destruct (alloc_hwirq_range_Some _ _ _ _ _ Halloc)
    as (Hb & Hhi & Hdisj & _).
  pose proof Hinv1 as [Hs1 Hreg1 _ _].
  destruct (msi_free_vectors_spec st1 new Hs1) as
    (st2 & Hfree & Hd2 & Hself2 & Hdom2 & Hreg2 & Hgone & Hframe2);
    [by rewrite Hdom'|done|].
  rewrite Hfree. f_equal.
  destruct (release_owned st1 new dom' Hinv1 Hdom') as [Hrr Hrm].
  pose proof (block_owned _ _ _ _ _ _ Hblock Hlen) as Hown.
  assert (release dom' (desc_ids (heap st1) new) = dom) as Hrel.
  { destruct (release dom' (desc_ids (heap st1) new)) as [res map].
    destruct dom as [res0 map0]. simpl in *. f_equal.
    - apply set_eq. intros hw. rewrite Hrr, Hres', Hown, elem_of_union.
      rewrite elem_of_hwirq_range. split; [intros [[?|?] ?]; [done|lia]|].
      intros Hin. split; [by left|]. intros Hhw.
      apply (Hdisj hw); [by apply elem_of_hwirq_range|done].
    - apply map_eq. intros hw. apply option_eq. intros v.
      rewrite Hrm, Hown. split.
      + intros [Hm Hout]. by rewrite <- Hmap'.
      + intros Hm. assert (¬ base ≤ hw < base + r) as Hout.
        { intros Hhw. apply (Hdisj hw); [by apply elem_of_hwirq_range|].
          by apply (Hmapres hw v). }
        split; [by rewrite Hmap'|done]. }
  assert (heap st2 = heap st) as Hheap.
  { apply map_eq. intros k.
    destruct (decide (k = dev_msi_data st)) as [->|Hks].
    - rewrite (registry_nil_sentinel _ _ Hreg).
      rewrite <- Hdata, <- Hd2. by apply registry_nil_sentinel.
    - destruct (decide (k ∈ new)) as [Hk|Hk].
      + rewrite (Hgone k Hk). symmetry. by apply Hfresh.
      + rewrite Hframe2 by congruence. apply Hframe; [|done|done].
        apply not_elem_of_nil. }
  specialize (Hdom2 dom' Hdom'). rewrite Hrel in Hdom2.
  destruct st, st2. simpl in *. congruence.
Qed.

(** X9.  On a device whose registry is empty and whose IRQ domain is
    consistent (every mapped hardware id is reserved, and no virtual IRQ is
    mapped twice), [msi_alloc_vectors] followed by [msi_free_vectors] comes
    back to the state before the allocation, whether the allocation
    succeeded or failed: memory, registry and IRQ domain are as they
    were. *)
Theorem msi_alloc_free_round_trip env st min_vecs max_vecs flags r st1 :
  msi_inv st [] → 0 ≤ min_vecs → 0 ≤ max_vecs →
  msi_alloc_vectors env st min_vecs max_vecs flags = Some (r, st1) →
  msi_free_vectors st1 = Some st.
Proof.
  intros Hinv Hmin Hmax Hcall.
  destruct (msi_alloc_vectors_spec env st [] min_vecs max_vecs flags Hinv
              Hmin Hmax) as (r0 & st0 & Hcall0 & Hr).
  rewrite Hcall in Hcall0. injection Hcall0 as <- <-.
  destruct Hr as [[-> ->]|(Hmm & H32 & Hr & Hfit & Hok)].
  - pose proof Hinv as [Hs Hreg (dom & Hdom & _) _].
    apply msi_free_vectors_nil; [done| |done]. by rewrite Hdom.
  - apply (alloc_success_free env st min_vecs max_vecs flags r); try done.
    rewrite Hr. apply Z.pow_nonneg. lia.
Qed.

Lemma msi_alloc_free_round_trip_witness :
  msi_inv ready_device [] ∧ 0 ≤ 3 ∧ 0 ≤ 7 ∧
  msi_alloc_vectors bump_env ready_device 3 7 0 = Some (4, four_vectors) ∧
  msi_free_vectors four_vectors = Some ready_device.
Proof.
  assert (msi_alloc_vectors bump_env ready_device 3 7 0
          = Some (4, four_vectors)) as Hcall by (vm_compute; reflexivity).
  split; [exact ready_device_inv|]. do 2 (split; [lia|]).
  split; [exact Hcall|].
  exact (msi_alloc_free_round_trip bump_env ready_device 3 7 0 4 four_vectors
           ready_device_inv ltac:(lia) ltac:(lia) Hcall).
Defined.


(** The loop of [test_stress_allocation_and_free] at index [i], with one
    turn for each environment of [envs]: the kernel's allocators answer the
    calls of each turn on their own, and a later turn need not repeat what
    an earlier one was given.  The result is 0 when the loop runs to its
    end, -1 when one of its two assertions stops the test, and the state. *)
Fixpoint stress_loop (envs : list environment) (i : Z) (st : state)
  : option (Z * state) :=
  match envs with
  | [] => Some (0, st)
  | env :: envs =>
      let nvec := 1 ≪ (i `mod` 5) in
      '(ret, st) ← msi_alloc_vectors env st nvec nvec 0;
      if bool_decide (ret ≠ nvec) then Some (-1, st)
      else
        st ← msi_free_vectors st;
        num ← registry_num_vectors st;
        if bool_decide (num ≠ 0) then Some (-1, st)
        else stress_loop envs (i + 1) st
  end.

(** One turn of the stress loop on an empty registry. *)
Lemma stress_turn env st k :
  msi_inv st [] → 0 ≤ k →
  ∃ ret st1,
    msi_alloc_vectors env st (2 ^ k) (2 ^ k) 0 = Some (ret, st1) ∧
    (ret = 2 ^ k ∨ ret = -1 ∧ st1 = st) ∧
    msi_free_vectors st1 = Some st ∧
    registry_num_vectors st = Some 0.
Proof.
  intros Hinv Hk. pose proof (Z.pow_pos_nonneg 2 k ltac:(lia) Hk) as Hpos.
  destruct (msi_alloc_vectors_spec env st [] (2 ^ k) (2 ^ k) 0 Hinv)
    as (ret & st1 & Hcall & Hr); [lia|lia|].
  exists ret, st1. split; [done|].
  pose proof Hinv as [Hs Hreg (dom & Hdom & _) _].
  split; [|split; [|by apply (registry_num_vectors_spec st [])]].
  - destruct Hr as [[-> ->]|(_ & _ & -> & _)]; [by right|left].
    by rewrite Z.log2_pow2.
  - destruct Hr as [[-> ->]|(_ & _ & Hr & _ & Hok)].
    + apply msi_free_vectors_nil; [done| |done]. by rewrite Hdom.
    + apply (alloc_success_free env st (2 ^ k) (2 ^ k) 0 ret); try done.
      rewrite Hr. apply Z.pow_nonneg. lia.
Qed.

(** X10.  The loop of the stress test, started on the device that the
    test's setup leaves (an empty registry, and an IRQ domain in which every
    mapped id is reserved and no virtual IRQ is mapped twice), with the
    allocators free to answer every turn differently: every turn leaves the
    device in the state it found it in, so the loop ends in the initial
    state whatever its verdict; the assertion on [num_vectors] never fails;
    the loop runs through all its turns exactly when the allocation of
    every turn succeeds, and stops with -1 exactly when the allocation of
    some turn fails. *)
Theorem stress_loop_verdict envs st i :
  msi_inv st [] → 0 ≤ i →
  (∃ r, stress_loop envs i st = Some (r, st) ∧ (r = 0 ∨ r = -1)) ∧
  (stress_loop envs i st = Some (0, st) ↔
   ∀ (k : nat) env, envs !! k = Some env →
     ∃ st', msi_alloc_vectors env st (2 ^ ((i + Z.of_nat k) `mod` 5))
              (2 ^ ((i + Z.of_nat k) `mod` 5)) 0
            = Some (2 ^ ((i + Z.of_nat k) `mod` 5), st')) ∧
  (stress_loop envs i st = Some (-1, st) ↔
   ∃ (k : nat) env, envs !! k = Some env ∧
     msi_alloc_vectors env st (2 ^ ((i + Z.of_nat k) `mod` 5))
       (2 ^ ((i + Z.of_nat k) `mod` 5)) 0 = Some (-1, st)).
Proof.
  intros Hinv. revert i. induction envs as [|env envs IH]; intros i Hi.
  { split; [exists 0; split; [done|by left]|]. split.
    - split; [by intros _ k env ?|done].
    - split; [done|]. by intros (k & env & ? & _). }
  assert (0 ≤ i `mod` 5 < 5) as Hk by (apply Z.mod_pos_bound; lia).
  pose proof (Z.pow_pos_nonneg 2 (i `mod` 5) ltac:(lia) ltac:(lia)) as Hpos.
  destruct (stress_turn env st (i `mod` 5) Hinv ltac:(lia))
    as (ret & st1 & Hcall & Hret & Hfree & Hnum).
  destruct (IH (i + 1) ltac:(lia)) as ((r & Hrest & Hr) & Hpass & Hfail).
  assert (∀ k : nat, i + Z.of_nat (S k) = i + 1 + Z.of_nat k) as Hidx
    by (intros k; lia).
  cbn [stress_loop]. rewrite Z.shiftl_1_l, Hcall. cbn [mbind option_bind].
  destruct Hret as [->|[-> ->]].
  - rewrite bool_decide_eq_false_2 by (intros ?; done).
    rewrite Hfree. cbn [mbind option_bind]. rewrite Hnum.
    cbn [mbind option_bind].
    rewrite bool_decide_eq_false_2 by (intros ?; done).
    split; [by exists r|]. split.
    + rewrite Hpass. split.
      * intros Hall [|k] env' Hlook.
        -- injection Hlook as <-. rewrite Z.add_0_r. by exists st1.
        -- rewrite Hidx. by apply Hall.
      * intros Hall k env' Hlook. rewrite <- Hidx. by apply (Hall (S k)).
    + rewrite Hfail. split.
      * intros (k & env' & Hlook & Hbad). exists (S k), env'.
        split; [done|]. by rewrite Hidx.
      * intros ([|k] & env' & Hlook & Hbad).
        -- injection Hlook as <-. rewrite Z.add_0_r, Hcall in Hbad.
           injection Hbad as E _. lia.
        -- exists k, env'. split; [done|]. by rewrite <- Hidx.
  - rewrite bool_decide_eq_true_2 by lia.
    split; [exists (-1); split; [done|by right]|]. split.
    + split; [by intros [= ?]|].
      intros Hall. destruct (Hall 0%nat env eq_refl) as (st' & Hcall').
      rewrite Z.add_0_r, Hcall in Hcall'. injection Hcall' as E _. lia.
    + split; [|done]. intros _. exists 0%nat, env.
      split; [done|]. by rewrite Z.add_0_r.
Qed.

Lemma stress_loop_verdict_witness :
  msi_inv ready_device [] ∧ 0 ≤ 0 ∧
  stress_loop (replicate 100 bump_env) 0 ready_device
    = Some (0, ready_device) ∧
  stress_loop (replicate 7 bump_env ++ [short_env 3] ++ replicate 92 bump_env)
    0 ready_device = Some (-1, ready_device).
Proof.
  split; [exact ready_device_inv|]. split; [lia|]. split.
  - destruct (stress_loop_verdict (replicate 100 bump_env) ready_device 0
                ready_device_inv ltac:(lia)) as (_ & Hpass & _).
    apply Hpass. intros k env [-> _]%lookup_replicate.
    assert ((0 + Z.of_nat k) `mod` 5 = 0 ∨ (0 + Z.of_nat k) `mod` 5 = 1 ∨
            (0 + Z.of_nat k) `mod` 5 = 2 ∨ (0 + Z.of_nat k) `mod` 5 = 3 ∨
            (0 + Z.of_nat k) `mod` 5 = 4) as Hcases
      by (pose proof (Z.mod_pos_bound (0 + Z.of_nat k) 5 ltac:(lia)); lia).
    destruct Hcases as [E|[E|[E|[E|E]]]]; rewrite E;
      eexists; vm_compute; reflexivity.
  - destruct (stress_loop_verdict
                (replicate 7 bump_env ++ [short_env 3] ++
                 replicate 92 bump_env) ready_device 0
                ready_device_inv ltac:(lia)) as (_ & _ & Hfail).
    apply Hfail. exists 7%nat, (short_env 3).
    split; [reflexivity|]. vm_compute. reflexivity.
Defined.

(** X11.  A successful [msi_alloc_vectors] touches nothing but the
    registry and its list.  The new descriptors are fresh memory; each
    belongs to the device, carries the low 16 bits of [flags] as its
    attributes and is counted twice.  The descriptors that were in the list
    keep their ids, device, attributes and count; memory outside the
    registry is unchanged, and so are the device's own fields. *)
Theorem msi_alloc_vectors_frame env st l min_vecs max_vecs flags n st' :
  msi_inv st l → 0 ≤ min_vecs → 0 ≤ max_vecs →
  msi_alloc_vectors env st min_vecs max_vecs flags = Some (n, st') →
  0 ≤ n →
  ∃ new,
    registry_walk st' = Some (l ++ new) ∧
    (∀ a, a ∈ new →
       heap st !! a = None ∧
       ∃ d, heap st' !! a = Some (ODesc d) ∧ dev d = dev_self st ∧
            msi_attrib d = Z.land flags 0xFFFF ∧
            0 ≤ msi_attrib d < 2 ^ 16 ∧ refcount d = 2) ∧
    (∀ x dx, x ∈ l → heap st !! x = Some (ODesc dx) →
       ∃ dx', heap st' !! x = Some (ODesc dx') ∧
              irq dx' = irq dx ∧ hwirq dx' = hwirq dx ∧ dev dx' = dev dx ∧
              msi_attrib dx' = msi_attrib dx ∧ refcount dx' = refcount dx) ∧
    (∀ k, k ∉ l → k ∉ new → k ≠ dev_msi_data st →
       heap st' !! k = heap st !! k) ∧
    dev_self st' = dev_self st ∧
    dev_msi_data st' = dev_msi_data st.
Proof.
  intros Hinv Hmin Hmax Hcall Hn.
  destruct (msi_alloc_vectors_spec env st l min_vecs max_vecs flags Hinv
              Hmin Hmax) as (r & st0 & Hcall0 & Hr).
  rewrite Hcall in Hcall0. injection Hcall0 as <- <-.
  destruct Hr as [[-> _]|(_ & _ & _ & _ & Hok)]; [lia|].
  destruct Hok as (dom & base & dom1 & new & _ & _ & Hinv' & Hlen & Hblock &
                   Hpay & Hfresh & Hframe & Hself & Hdata).
  exists new.
  split; [apply registry_walk_spec; by destruct Hinv'|].
  split; [|split; [|done]].
  - intros a [k Hk]%list_elem_of_lookup. split.
    { apply Hfresh. by eapply list_elem_of_lookup_2. }
    destruct (Hblock k a Hk) as (d & Hd & _ & _ & Href & Hattr & Hdev).
    exists d. split; [done|]. split; [done|]. split; [done|].
    split; [|done]. rewrite Hattr.
    change 0xFFFF with (Z.ones 16). rewrite Z.land_ones by lia.
    apply Z.mod_pos_bound. lia.
  - intros x dx Hx Hdx. destruct (Hpay x dx Hx Hdx) as (dx' & Hdx' & E).
    exists dx'. split; [done|]. by injection E as -> -> -> -> ->.
Qed.

Lemma msi_alloc_vectors_frame_witness :
  msi_inv ready_device [] ∧ 0 ≤ 3 ∧ 0 ≤ 7 ∧
  msi_alloc_vectors bump_env ready_device 3 7 0x1FFFF = Some
    (4, match msi_alloc_vectors bump_env ready_device 3 7 0x1FFFF with
        | Some (_, st) => st
        | None => ready_device
        end) ∧
  ∃ new : list Z,
    (∀ a, a ∈ new →
       ∃ d, heap (match msi_alloc_vectors bump_env ready_device 3 7 0x1FFFF
                  with Some (_, st) => st | None => ready_device end) !! a
            = Some (ODesc d) ∧ msi_attrib d = 0xFFFF).
Proof.
  set (st' := match msi_alloc_vectors bump_env ready_device 3 7 0x1FFFF with
              | Some (_, st) => st
              | None => ready_device
              end).
  assert (msi_alloc_vectors bump_env ready_device 3 7 0x1FFFF
          = Some (4, st')) as Hcall by (vm_compute; reflexivity).
  split; [exact ready_device_inv|]. do 2 (split; [lia|]).
  split; [exact Hcall|].
  destruct (msi_alloc_vectors_frame bump_env ready_device [] 3 7 0x1FFFF 4
              st' ready_device_inv ltac:(lia) ltac:(lia) Hcall ltac:(lia))
    as (new & _ & Hnew & _).
  exists new. intros a Ha. destruct (Hnew a Ha) as (_ & d & Hd & _ & E & _).
  exists d. split; [exact Hd|exact E].
Defined.

(** X12.  What a successful [msi_alloc_vectors] does to the IRQ domain of
    a device in a consistent state, that is: the registry is a well-formed
    list that counts its descriptors; every listed descriptor is counted
    twice and carries a non-zero virtual IRQ to which the domain maps its
    hardware id; listed descriptors have distinct hardware ids; in the
    domain every mapped hardware id is reserved and no virtual IRQ is mapped
    twice.  Then the block [base .. base + n - 1] obtained from the domain
    was free and unmapped before and is reserved now; every id of the block
    is mapped to the non-zero virtual IRQ stored in the descriptor that
    carries this id, and no other hardware id has this virtual IRQ;
    reservations and mappings outside the block are as they were. *)
Theorem msi_alloc_vectors_domain_effect env st l min_vecs max_vecs flags n
    st' dom :
  msi_inv st l → 0 ≤ min_vecs → 0 ≤ max_vecs →
  dev_msi_domain st = Some dom →
  msi_alloc_vectors env st min_vecs max_vecs flags = Some (n, st') →
  0 ≤ n →
  ∃ base dom1 dom',
    irq_domain_alloc_hwirq_range env dom n = Some (base, dom1) ∧
    dev_msi_domain st' = Some dom' ∧
    reserved dom' = reserved dom ∪ hwirq_range base n ∧
    (∀ hw, ¬ (base ≤ hw < base + n) →
       mapping dom' !! hw = mapping dom !! hw) ∧
    (∀ hw, base ≤ hw < base + n →
       (hw ∉ reserved dom) ∧ mapping dom !! hw = None ∧
       ∃ a d, heap st !! a = None ∧ heap st' !! a = Some (ODesc d) ∧
              hwirq d = hw ∧ irq d ≠ 0 ∧
              mapping dom' !! hw = Some (irq d) ∧
              ∀ hw', mapping dom' !! hw' = Some (irq d) → hw' = hw).
Proof.
  intros Hinv Hmin Hmax Hdom Hcall Hn.
  destruct (msi_alloc_vectors_domain _ _ _ _ _ _ _ _ Hdom Hcall Hn)
    as (base & dom1 & dom' & Halloc & Hdom' & Hres' & Hmap').
  exists base, dom1, dom'. split; [done|]. split; [done|].
  split; [done|]. split; [done|].
  destruct (msi_alloc_vectors_spec env st l min_vecs max_vecs flags Hinv
              Hmin Hmax) as (r & st0 & Hcall0 & Hr).
  rewrite Hcall in Hcall0. injection Hcall0 as <- <-.
  destruct Hr as [[-> _]|(_ & _ & _ & _ & Hok)]; [lia|].
  destruct Hok as (dom0 & base0 & dom2 & new & Hdom0 & Halloc0 & Hinv' &
                   Hlen & Hblock & _ & Hfresh & _).
  assert (dom0 = dom) as -> by congruence.
  rewrite Halloc in Halloc0. injection Halloc0 as <- <-.
  destruct (alloc_hwirq_range_Some _ _ _ _ _ Halloc)
    as (Hb & Hhi & Hdisj & _).
  pose proof Hinv as [_ _ (dom0 & Hdom0' & [Hmapres _] & _) _].
  assert (dom0 = dom) as -> by congruence.
  pose proof Hinv' as [_ _ (dom0 & Hdom0'' & [_ Hinj'] & Hdescs') _].
  assert (dom0 = dom') as -> by congruence.
  intros hw Hhw.
  assert (hw ∉ reserved dom) as Hfree.
  { intros Hin. apply (Hdisj hw); [by apply elem_of_hwirq_range|done]. }
  split; [done|]. split.
  { destruct (mapping dom !! hw) as [v|] eqn:E; [|done].
    exfalso. apply Hfree. by apply (Hmapres hw v). }
  destruct (lookup_lt_is_Some_2 new (Z.to_nat (hw - base))) as [a Ha];
    [lia|].
  destruct (Hblock _ a Ha) as (d & Hd & Hhwd & Hirq & _).
  assert (a ∈ new) as Hin by (by eapply list_elem_of_lookup_2).
  destruct (Hdescs' a) as (d' & Hd' & _ & _ & Hm);
    [apply elem_of_app; by right|].
  assert (d' = d) as -> by congruence.
  assert (hwirq d = hw) as Hhw' by lia. rewrite Hhw' in Hm.
  exists a, d. split; [by apply Hfresh|]. split; [done|]. split; [done|].
  split; [done|]. split; [done|].
  intros hw' Hm'. by apply (Hinj' hw' hw (irq d)).
Qed.

Lemma msi_alloc_vectors_domain_effect_witness :
  msi_inv ready_device [] ∧ 0 ≤ 3 ∧ 0 ≤ 7 ∧
  dev_msi_domain ready_device = Some (IrqDomain ∅ ∅) ∧
  msi_alloc_vectors bump_env ready_device 3 7 0 = Some (4, four_vectors) ∧
  ∃ base dom',
    dev_msi_domain four_vectors = Some dom' ∧
    reserved dom' = ∅ ∪ hwirq_range base 4.
Proof.
  assert (msi_alloc_vectors bump_env ready_device 3 7 0
          = Some (4, four_vectors)) as Hcall by (vm_compute; reflexivity).
  assert (dev_msi_domain ready_device = Some (IrqDomain ∅ ∅)) as Hdom
    by reflexivity.
  split; [exact ready_device_inv|]. do 2 (split; [lia|]).
  split; [exact Hdom|]. split; [exact Hcall|].
  destruct (msi_alloc_vectors_domain_effect bump_env ready_device [] 3 7 0 4
              four_vectors _ ready_device_inv ltac:(lia) ltac:(lia) Hdom
              Hcall ltac:(lia))
    as (base & dom1 & dom' & _ & Hdom' & Hres & _).
  exists base, dom'. split; [exact Hdom'|exact Hres].
Defined.


(** The second [msi_desc_free] of the descriptor last added to a list:
    it is unlinked and freed, and [num_vectors] stays. *)
Lemma desc_free_unlinks_tail h s a m d oq :
  a ≠ NULL → a ≠ s → h !! a = None → h !! s = Some (OData m) →
  h !! prev (data_list m) = Some oq → next (obj_list oq) = s →
  (prev (data_list m) = s → next (data_list m) = s) →
  msi_desc_free
    (alter (on_desc (desc_set_refcount 1)) a
       (added (<[a := ODesc d]> h) s a m d)) a
  = Some (<[s := OData (MsiDeviceData (data_list m) (num_vectors m + 1))]> h).
Proof.
  intros Ha Has Hfresh Hm Hq Hqn Hempty. unfold msi_desc_free.
  destruct (Z.eqb_spec a NULL); [done|].
  assert (prev (data_list m) ≠ a) as Hqa by congruence.
  pose proof (added_lookup_new (<[a := ODesc d]> h) s a m d) as Hnew.
  erewrite load_desc_Some by (rewrite lookup_alter_eq, Hnew; reflexivity).
  simpl.
  erewrite store_desc_Some by (rewrite lookup_alter_eq, Hnew; reflexivity).
  simpl.
  erewrite load_desc_Some
    by (rewrite !lookup_alter_eq, Hnew; reflexivity).
  simpl. destruct (Z.eqb_spec s a) as [|_]; [congruence|]. simpl.
  unfold list_unlink, added.
  destruct (decide (prev (data_list m) = s)) as [Hqs|Hqs].
  - specialize (Hempty Hqs). destruct m as [[mn mp] nv]. simpl in *.
    subst mn mp. clear Hq. repeat heap_step. f_equal. heap_eq.
  - repeat heap_step. f_equal. heap_eq.
    + by destruct oq as [[[??]?????]|[[??]?]].
    + by destruct m as [[??]?].
Qed.

(** X13.  A descriptor created by [msi_desc_alloc] and put in the list by
    [msi_desc_list_add] holds two references.  The first [msi_desc_free]
    only drops one; the second takes the descriptor out of the list and
    frees it.  Memory is then as before the allocation, the walk from the
    sentinel finds the old descriptors again, but [num_vectors], which
    [msi_desc_free] never touches, still counts the descriptor. *)
Theorem msi_desc_free_listed env st l dev nvec desc multiple h1 :
  dev_msi_data st ≠ NULL → registry (heap st) (dev_msi_data st) l →
  msi_desc_alloc env (heap st) dev nvec = Some (desc, multiple, h1) →
  desc ≠ NULL →
  ∃ h2 h3 h4 m,
    msi_desc_list_add h1 (dev_msi_data st) desc = Some (0, h2) ∧
    msi_desc_free h2 desc = Some h3 ∧
    msi_desc_free h3 desc = Some h4 ∧
    heap st !! dev_msi_data st = Some (OData m) ∧
    h4 = <[dev_msi_data st :=
             OData (MsiDeviceData (data_list m) (num_vectors m + 1))]>
           (heap st) ∧
    registry_walk (set_heap h4 st) = Some l ∧
    registry_num_vectors (set_heap h4 st) = Some (Z.of_nat (length l) + 1).
Proof.
  intros Hs Hreg Halloc Hne.
  apply msi_desc_alloc_inv in Halloc as [[? _]|(_ & Hfresh & ->)]; [done|].
  set (s := dev_msi_data st) in *.
  set (D := MsiDesc (ListHead desc desc) 0 0 dev 0 1).
  set (h1 := <[desc := ODesc D]> (heap st)).
  pose proof Hreg as (m & Hm & Hseg & Hnd & Hnv).
  pose proof (registry_sentinel_notin _ _ _ Hreg) as Hsl.
  assert (desc ≠ s) as Has by congruence.
  assert (desc ∉ l) as Hal.
  { intros Hin. destruct (dseg_lookup _ _ _ _ _ _ _ Hseg Hin). congruence. }
  assert (registry h1 s l) as Hreg1.
  { apply (registry_frame (heap st)); [|intros x Hx|done]; unfold h1.
    - by rewrite lookup_insert_ne.
    - rewrite lookup_insert_ne; [done|]. by intros ->. }
  assert (h1 !! desc = Some (ODesc D)) as Hd1
    by (unfold h1; by rewrite lookup_insert_eq).
  destruct (msi_desc_list_add_spec h1 s l desc D Hs Hne Hreg1 Hal Hd1)
    as (m1 & Hm1 & Hadd & _).
  assert (m1 = m) as ->.
  { unfold h1 in Hm1. rewrite lookup_insert_ne in Hm1 by done. congruence. }
  set (h2 := added h1 s desc m D) in *.
  pose proof (added_lookup_new h1 s desc m D) as Hd2. fold h2 in Hd2.
  simpl in Hd2.
  pose proof (msi_desc_free_decrement h2 desc _ Hne Hd2 ltac:(simpl; lia))
    as Hfree.
  simpl in Hfree. change (1 + 1 - 1) with 1 in Hfree.
  destruct (dseg_tail _ _ _ _ Hm Hseg) as (oq & Hq & Hqn & _).
  pose proof (desc_free_unlinks_tail (heap st) s desc m D oq Hne Has Hfresh
                Hm Hq Hqn (registry_empty_next _ _ _ l Hm Hreg)) as Hfree2.
  fold h1 h2 in Hfree2.
  set (h4 := <[s := OData (MsiDeviceData (data_list m) (num_vectors m + 1))]>
               (heap st)) in *.
  exists h2, (alter (on_desc (desc_set_refcount 1)) desc h2), h4, m.
  split; [done|]. split; [done|]. split; [done|].
  split; [done|]. split; [done|].
  assert (h4 !! s
          = Some (OData (MsiDeviceData (data_list m) (num_vectors m + 1))))
    as Hm4 by (unfold h4; by rewrite lookup_insert_eq).
  split.
  - unfold registry_walk. change (heap (set_heap h4 st)) with h4.
    change (dev_msi_data (set_heap h4 st)) with s.
    rewrite (load_data_Some _ _ _ Hm4).
    change (walk (walk_fuel h4) h4 s (next (data_list m)) = Some l).
    assert (length (s :: l) ≤ size h4)%nat as Hlen.
    { apply NoDup_live_length; [by apply list.NoDup_cons|].
      intros x [->|Hx]%elem_of_cons; [by rewrite Hm4|].
      unfold h4. rewrite lookup_insert_ne by (by intros ->).
      destruct (dseg_lookup _ _ _ _ _ _ _ Hseg Hx) as [dx ->]. done. }
    simpl in Hlen. unfold walk_fuel.
    replace (S (size h4)) with (length l + S (size h4 - length l))%nat
      by lia.
    apply (walk_dseg l _ _ _ s _ (prev (data_list m))); [|done].
    apply (dseg_frame (heap st)); [|done].
    intros x Hx. unfold h4. rewrite lookup_insert_ne; [done|].
    by intros ->.
  - unfold registry_num_vectors. change (heap (set_heap h4 st)) with h4.
    change (dev_msi_data (set_heap h4 st)) with s.
    rewrite (load_data_Some _ _ _ Hm4). simpl. by rewrite Hnv.
Qed.

Lemma msi_desc_free_listed_witness :
  dev_msi_data ready_device ≠ NULL ∧
  registry (heap ready_device) (dev_msi_data ready_device) [] ∧
  msi_desc_alloc bump_env (heap ready_device) 0x1000 1
    = Some (2, 0, heap loose_descriptor) ∧
  ∃ h4,
    registry_walk (set_heap h4 ready_device) = Some [] ∧
    registry_num_vectors (set_heap h4 ready_device) = Some (0 + 1).
Proof.
  assert (dev_msi_data ready_device ≠ NULL) as Hs by done.
  assert (msi_desc_alloc bump_env (heap ready_device) 0x1000 1
          = Some (2, 0, heap loose_descriptor)) as Halloc
    by (vm_compute; reflexivity).
  split; [exact Hs|]. split; [exact (inv_registry _ _ ready_device_inv)|].
  split; [exact Halloc|].
  destruct (msi_desc_free_listed bump_env ready_device [] 0x1000 1 2 0 _ Hs
              (inv_registry _ _ ready_device_inv) Halloc)
    as (h2 & h3 & h4 & m & _ & _ & _ & _ & _ & Hwalk & Hnum).
  { intros E. vm_compute in E. lia. }
  exists h4. split; [exact Hwalk|exact Hnum].
Defined.


(** The list check of [test_allocation_state_verification], entered at
    [desc] with the test's [last_hwirq] and [count]: -1 when one of the two
    assertions of the loop fails, 0 at the end of the list, and the count. *)
Fixpoint verify_walk (fuel : nat) (h : gmap Z object)
    (s desc last_hwirq count : Z) : option (Z * Z) :=
  match fuel with
  | O => None
  | S fuel =>
      if desc =? s then Some (0, count)
      else
        d ← load_desc h desc;
        if (0 <? count) && negb (hwirq d =? wrap32 (last_hwirq + 1))
        then Some (-1, count)
        else if irq d =? 0 then Some (-1, count)
        else verify_walk fuel h s (next (desc_list d)) (hwirq d) (count + 1)
  end.

(** [test_allocation_state_verification] between [setup] and [teardown]:
    0 when it gets to [teardown], -1 when an assertion stops it, and the
    state. *)
Definition test_allocation_state_verification (env : environment)
    (st : state) : option (Z * state) :=
  '(nvec, st) ← msi_alloc_vectors env st 8 8 0;
  if bool_decide (nvec ≠ 8) then Some (-1, st)
  else
    m ← load_data (heap st) (dev_msi_data st);
    if bool_decide (num_vectors m ≠ 8) then Some (-1, st)
    else
      '(r, count) ← verify_walk (walk_fuel (heap st)) (heap st)
                      (dev_msi_data st) (next (data_list m)) 0 0;
      if r <? 0 then Some (-1, st)
      else if bool_decide (count ≠ 8) then Some (-1, st)
      else Some (0, st).

Lemma verify_walk_block l : ∀ fuel h s pp p q base last count,
  dseg h pp p q s l → s ∉ l →
  (∀ k a, l !! k = Some a →
     ∃ d, h !! a = Some (ODesc d) ∧ hwirq d = base + Z.of_nat k ∧
          irq d ≠ 0) →
  0 ≤ base → base + Z.of_nat (length l) ≤ 2 ^ 32 →
  0 ≤ count → (0 < count → last + 1 = base) →
  verify_walk (length l + S fuel) h s p last count
  = Some (0, count + Z.of_nat (length l)).
Proof.
  induction l as [|x l IH];
    intros fuel h s pp p q base last count Hseg Hs Hblock Hb Hhi Hc Hlast.
  - destruct Hseg as [-> _]. simpl. rewrite Z.eqb_refl.
    by rewrite Z.add_0_r.
  - destruct Hseg as (-> & d & Hx & _ & Hseg).
    cbn [length Nat.add verify_walk].
    destruct (Z.eqb_spec x s) as [E|_].
    { exfalso. apply Hs. rewrite E. left. }
    rewrite (load_desc_Some _ _ _ Hx). cbn [mbind option_bind].
    destruct (Hblock 0%nat x eq_refl) as (d' & Hd' & Hhw & Hirq).
    assert (d' = d) as -> by congruence.
    rewrite Z.add_0_r in Hhw. simpl in Hhi.
    assert ((0 <? count) && negb (hwirq d =? wrap32 (last + 1)) = false)
      as ->.
    { destruct (Z.ltb_spec 0 count) as [Hpos|]; [|done]. simpl.
      rewrite (Hlast Hpos), wrap32_small by lia.
      rewrite Hhw, Z.eqb_refl. done. }
    destruct (Z.eqb_spec (irq d) 0) as [|_]; [done|].
    rewrite (IH fuel h s x _ q (base + 1) (hwirq d) (count + 1) Hseg);
      [f_equal; f_equal; simpl; lia| | |lia|lia|lia|lia].
    + intros Hin. apply Hs. by right.
    + intros k a Hk. destruct (Hblock (S k) a Hk) as (da & Hda & Hhwa & Hia).
      exists da. split; [done|]. split; [lia|done].
Qed.

(** X14.  The test of the allocation state, run on a device whose registry
    is empty, is decided by its first assertion: when [msi_alloc_vectors]
    returns 8 the checks on [num_vectors], on the consecutive hardware
    ids, on the mapped virtual IRQs and on the number of descriptors all
    pass and the test gets to [teardown]; otherwise the allocation has
    failed and left the device as it was. *)
Theorem test_allocation_state_verdict env st :
  msi_inv st [] →
  ∃ r st',
    test_allocation_state_verification env st = Some (r, st') ∧
    ((r = 0 ∧ msi_alloc_vectors env st 8 8 0 = Some (8, st')) ∨
     (r = -1 ∧ st' = st ∧ msi_alloc_vectors env st 8 8 0 = Some (-1, st))).
Proof.
  intros Hinv. unfold test_allocation_state_verification.
  destruct (msi_alloc_vectors_spec env st [] 8 8 0 Hinv) as
    (r & st' & Hcall & Hr); [lia|lia|].
  rewrite Hcall. cbn [mbind option_bind].
  destruct Hr as [[-> ->]|(_ & _ & Hr & _ & Hok)].
  { exists (-1), st. rewrite bool_decide_eq_true_2 by lia.
    split; [done|]. by right. }
  change (2 ^ Z.log2 8) with 8 in Hr. subst r.
  rewrite bool_decide_eq_false_2 by (intros ?; done).
  destruct Hok as (dom & base & dom1 & new & Hdom & Halloc & Hinv' & Hlen &
                   Hblock & _).
  simpl in Hinv'. pose proof Hinv' as [_ Hreg' _ _].
  pose proof (registry_length_lt _ _ _ Hreg') as Hlt.
  pose proof (registry_sentinel_notin _ _ _ Hreg') as Hs.
  destruct Hreg' as (m & Hm & Hseg & _ & Hnv).
  rewrite (load_data_Some _ _ _ Hm). cbn [mbind option_bind].
  rewrite bool_decide_eq_false_2 by lia.
  destruct (alloc_hwirq_range_Some _ _ _ _ _ Halloc) as (Hb & Hhi & _).
  unfold walk_fuel.
  replace (S (size (heap st')))
    with (length new + S (size (heap st') - length new))%nat by lia.
  rewrite (verify_walk_block new _ _ _ _ _ _ base 0 0 Hseg Hs);
    [|intros k a Hk; destruct (Hblock k a Hk) as (d & Hd & Hhw & Hirq & _);
      by exists d|lia|lia|lia|lia].
  cbn [mbind option_bind]. simpl.
  rewrite bool_decide_eq_false_2 by lia.
  exists 0, st'. split; [done|]. by left.
Qed.

Lemma test_allocation_state_verdict_witness :
  msi_inv ready_device [] ∧
  (fst <$> test_allocation_state_verification bump_env ready_device)
  = Some 0.
Proof.
  split; [exact ready_device_inv|].
  destruct (test_allocation_state_verdict bump_env ready_device
              ready_device_inv) as (r & st' & Hrun & Hr).
  rewrite Hrun. simpl. f_equal.
  destruct Hr as [[-> _]|(_ & _ & Hfail)]; [reflexivity|].
  vm_compute in Hfail. discriminate Hfail.
Defined.


(** ** Registries that were not filled by the allocator alone

    [msi_desc_alloc], [msi_desc_list_add] and [msi_desc_free] are exported,
    so a registry can hold descriptors without hardware id or virtual IRQ,
    descriptors counted once, and a [num_vectors] that is ahead of its list.
    The properties below are proved for every well-formed list. *)

(** [linked h s l]: the list of the registry at [s] is a well-formed circle
    through the descriptors at [l], in this order; what [num_vectors] says is
    left open. *)
Definition linked (h : gmap Z object) (s : Z) (l : list Z) : Prop :=
  ∃ m, h !! s = Some (OData m) ∧
       dseg h s (next (data_list m)) (prev (data_list m)) s l ∧
       NoDup l.

Lemma registry_linked h s l : registry h s l → linked h s l.
Proof. intros (m & Hm & Hseg & Hnd & _). by exists m. Qed.

Lemma linked_registry h s l m :
  linked h s l → h !! s = Some (OData m) →
  num_vectors m = Z.of_nat (length l) → registry h s l.
Proof.
  intros (m' & Hm' & Hseg & Hnd) Hm Hnv.
  assert (m' = m) as -> by congruence. by exists m.
Qed.

Lemma linked_sentinel_notin h s l : linked h s l → s ∉ l.
Proof.
  intros (m & Hs & Hseg & _) Hin.
  destruct (dseg_lookup _ _ _ _ _ _ _ Hseg Hin) as [d Hd]. congruence.
Qed.

Lemma linked_lookup h s l x :
  linked h s l → x ∈ l → ∃ d, h !! x = Some (ODesc d).
Proof. intros (m & _ & Hseg & _). by apply (dseg_lookup _ _ _ _ _ _ _ Hseg). Qed.

Lemma linked_length_lt h s l : linked h s l → (length l < size h)%nat.
Proof.
  intros Hlk. pose proof (linked_sentinel_notin _ _ _ Hlk) as Hs.
  destruct Hlk as (m & Hm & Hseg & Hnd).
  assert (length (s :: l) ≤ size h)%nat as Hle; [|simpl in Hle; lia].
  apply NoDup_live_length; [by constructor|].
  intros x [->|Hx]%elem_of_cons; [eauto|].
  destruct (dseg_lookup _ _ _ _ _ _ _ Hseg Hx); eauto.
Qed.

Lemma linked_frame h h' s l :
  h' !! s = h !! s → (∀ x, x ∈ l → h' !! x = h !! x) →
  linked h s l → linked h' s l.
Proof.
  intros Hs Hl (m & Hm & Hseg & Hnd). exists m.
  rewrite Hs. split; [done|]. split; [|done].
  by apply (dseg_frame h).
Qed.

Lemma linked_walk st l :
  linked (heap st) (dev_msi_data st) l → registry_walk st = Some l.
Proof.
  intros Hlk. pose proof (linked_length_lt _ _ _ Hlk) as Hlen.
  pose proof (linked_sentinel_notin _ _ _ Hlk) as Hs.
  destruct Hlk as (m & Hm & Hseg & _).
  unfold registry_walk. rewrite (load_data_Some _ _ _ Hm).
  change (walk (walk_fuel (heap st)) (heap st) (dev_msi_data st)
               (next (data_list m)) = Some l).
  unfold walk_fuel.
  replace (S (size (heap st)))
    with (length l + S (size (heap st) - length l))%nat by lia.
  by apply (walk_dseg l _ _ _ _ _ _ Hseg).
Qed.

Lemma linked_empty_next h s m l :
  h !! s = Some (OData m) → linked h s l →
  prev (data_list m) = s → next (data_list m) = s.
Proof.
  intros Hm (m' & Hm' & Hseg & _) Hp.
  assert (m' = m) as -> by congruence.
  destruct (dseg_tail _ _ _ _ Hm Hseg) as (o & Ho & Hn & _).
  rewrite Hp in Ho. assert (o = OData m) as -> by congruence. done.
Qed.

Lemma added_linked h s a m d l :
  h !! s = Some (OData m) → h !! a = Some (ODesc d) →
  linked h s l → a ∉ l →
  linked (added h s a m d) s (l ++ [a]).
Proof.
  intros Hm Ha Hlk Hal.
  pose proof (linked_sentinel_notin _ _ _ Hlk) as Hsl.
  destruct Hlk as (m' & Hm' & Hseg & Hnd).
  assert (m' = m) as -> by congruence. clear Hm'.
  assert (a ≠ s) as Has by congruence.
  eexists. split; [by apply added_lookup_sentinel|]. simpl.
  split.
  - apply dseg_snoc. split; [done|]. eexists.
    split; [apply added_lookup_new|]. simpl. split; [done|].
    destruct (dseg_tail _ _ _ _ Hm Hseg) as (o & Ho & Hon & [[-> Hq]|[l0 ->]]).
    + rewrite decide_True by done. simpl. done.
    + apply dseg_snoc in Hseg as (_ & dq & Hdq & Hnq & Hseg).
      apply list.NoDup_app in Hnd as (_ & Hdisj & _).
      assert (prev (data_list m) ≠ s) as Hqs by congruence.
      assert (prev (data_list m) ≠ a) as Hqa.
      { intros E. apply Hal. rewrite <- E. apply elem_of_app. right. left. }
      rewrite decide_False by done.
      destruct (added_lookup_desc h s a m d _ _ Hqa Hqs Hdq)
        as (dq' & Hdq' & _ & Hpq & Hnq').
      rewrite decide_True in Hnq' by done.
      apply dseg_snoc. split; [done|]. exists dq'.
      split; [done|]. split; [done|]. rewrite Hpq.
      apply added_dseg_frame; [| |..|done].
      * intros ?. apply Hal. apply elem_of_app. by left.
      * intros ?. apply Hsl. apply elem_of_app. by left.
      * intros Hin. apply (Hdisj _ Hin). by left.
  - apply list.NoDup_app. split; [done|]. split; [|apply NoDup_singleton].
    intros x Hx Hxa%list_elem_of_singleton. by subst.
Qed.

(** [irq_create_mapping] that returns 0 has left the domain alone. *)
Lemma create_mapping_zero env dom hw :
  (irq_create_mapping env dom hw).1 = 0 →
  (irq_create_mapping env dom hw).2 = dom.
Proof.
  unfold irq_create_mapping. destruct (mapping dom !! hw); [done|].
  case_bool_decide as Hok; simpl; [|done]. lia.
Qed.

(** The descriptor an iteration of the population loop has prepared when it
    calls [msi_desc_list_add_locked]. *)
Definition new_desc (st : state) (a virq hw flags : Z) : msi_desc :=
  MsiDesc (ListHead a a) virq hw (dev_self st) (Z.land flags 0xFFFF) 1.

(** The state after an iteration that went through: the descriptor [D] at
    the fresh address [a] is at the tail of the registry [m], and the domain
    is [dom]. *)
Definition appended (st : state) (m : msi_device_data) (a : Z) (D : msi_desc)
    (dom : irq_domain) : state :=
  State (added (<[a := ODesc D]> (heap st)) (dev_msi_data st) a m D)
        (dev_self st) (dev_msi_data st) (Some dom).

(** Turn [i] of the population loop, entered in state [st], gets no memory
    for its descriptor or no virtual IRQ for its hardware id. *)
Definition turn_fails (env : environment) (st : state) (base : Z) (i : nat)
  : Prop :=
  kmalloc env (heap st) = NULL ∨
  ∃ dom, dev_msi_domain st = Some dom ∧
         (irq_create_mapping env dom (wrap32 (base + Z.of_nat i))).1 = 0.

Section Linked.

Variable env : environment.

(** One iteration of the population loop on any well-formed list: it goes
    on exactly when it gets memory and a virtual IRQ, and otherwise leaves
    for the rollback in the state it was entered in. *)
Lemma populate_body_run st l m dom base flags i :
  dev_msi_data st ≠ NULL →
  linked (heap st) (dev_msi_data st) l →
  heap st !! dev_msi_data st = Some (OData m) →
  dev_msi_domain st = Some dom →
  0 ≤ base + Z.of_nat i < 2 ^ 32 →
  populate_body env st base flags i =
    Some (if decide (kmalloc env (heap st) = NULL ∨
                     (irq_create_mapping env dom (base + Z.of_nat i)).1 = 0)
          then GotoCleanup st
          else Continue
                 (appended st m (kmalloc env (heap st))
                    (new_desc st (kmalloc env (heap st))
                       (irq_create_mapping env dom (base + Z.of_nat i)).1
                       (base + Z.of_nat i) flags)
                    (irq_create_mapping env dom (base + Z.of_nat i)).2)).
Proof.
  intros Hs Hlk Hm Hdom Hb.
  match goal with |- _ = Some ?r => remember r as R eqn:HR end.
  set (hw := base + Z.of_nat i) in *.
  unfold populate_body. rewrite Hdom. simpl. unfold msi_desc_alloc_internal.
  cbv zeta.
  destruct (kmalloc_spec env (heap st)) as [E|[Hne Hfresh]].
  { rewrite E. simpl. rewrite decide_True in HR by (by left). by subst R. }
  set (a := kmalloc env (heap st)) in *.
  assert ((a =? NULL) = false) as Hanull by (by apply Z.eqb_neq).
  rewrite Hanull. simpl. rewrite Hanull.
  repeat heap_step. rewrite wrap32_small by lia. fold hw.
  pose proof (create_mapping_zero env dom hw) as Hzero.
  destruct (irq_create_mapping env dom hw) as [virq dom'] eqn:Hcreate.
  simpl in Hzero. repeat heap_step.
  destruct (Z.eqb_spec virq 0) as [->|Hv].
  { rewrite decide_True in HR by (by right). subst R.
    rewrite (Hzero eq_refl).
    repeat heap_step. f_equal. f_equal.
    apply state_eq; [|done]. simpl. heap_eq. }
  rewrite decide_False in HR by (intros [?|?]; done). subst R.
  rewrite prepare_desc.
  set (D := MsiDesc (ListHead a a) virq hw (dev_self st)
                    (Z.land flags 0xFFFF) 1).
  set (h1 := <[a := ODesc D]> (heap st)).
  set (s := dev_msi_data st) in *.
  pose proof Hlk as (m' & Hm' & Hseg & Hnd).
  assert (m' = m) as -> by congruence. clear Hm'.
  destruct (dseg_tail _ _ _ _ Hm Hseg) as (oq & Hq & Hqn & _).
  assert (a ≠ s) as Has by congruence.
  assert (prev (data_list m) ≠ a) as Hqa by congruence.
  assert (h1 !! s = Some (OData m)) as Hm1
    by (unfold h1; by rewrite lookup_insert_ne).
  assert (h1 !! a = Some (ODesc D)) as Ha1
    by (unfold h1; by rewrite lookup_insert_eq).
  rewrite (list_add_locked_eq h1 s a m D); try done; cycle 1.
  unfold h1. rewrite lookup_insert_ne by done. eauto.
Qed.

(** What an iteration that went through has done to memory. *)
Lemma appended_spec st l m a virq hw flags dom :
  linked (heap st) (dev_msi_data st) l →
  heap st !! dev_msi_data st = Some (OData m) →
  heap st !! a = None →
  let st' := appended st m a (new_desc st a virq hw flags) dom in
  linked (heap st') (dev_msi_data st') (l ++ [a]) ∧
  (∃ m', heap st' !! dev_msi_data st' = Some (OData m') ∧
         num_vectors m' = num_vectors m + 1) ∧
  heap st' !! a =
    Some (ODesc (MsiDesc (ListHead (dev_msi_data st) (prev (data_list m)))
                         virq hw (dev_self st) (Z.land flags 0xFFFF) 2)) ∧
  payload_kept (heap st) (heap st') l ∧
  (∀ k, k ∉ l → k ≠ a → k ≠ dev_msi_data st → heap st' !! k = heap st !! k) ∧
  (a ∉ l) ∧ a ≠ dev_msi_data st.
Proof.
  intros Hlk Hm Hfresh st'.
  set (D := new_desc st a virq hw flags).
  set (h1 := <[a := ODesc D]> (heap st)).
  set (s := dev_msi_data st) in *.
  assert (a ≠ s) as Has by congruence.
  assert (a ∉ l) as Hal.
  { intros Hin. destruct (linked_lookup _ _ _ _ Hlk Hin). congruence. }
  assert (linked h1 s l) as Hlk1.
  { apply (linked_frame (heap st)); [|intros x Hx|done].
    - unfold h1. by rewrite lookup_insert_ne.
    - unfold h1. rewrite lookup_insert_ne; [done|]. by intros ->. }
  assert (h1 !! s = Some (OData m)) as Hm1
    by (unfold h1; by rewrite lookup_insert_ne).
  assert (h1 !! a = Some (ODesc D)) as Ha1
    by (unfold h1; by rewrite lookup_insert_eq).
  change (heap st') with (added h1 s a m D).
  change (dev_msi_data st') with s.
  split; [by apply added_linked|].
  split.
  { eexists. split; [by apply added_lookup_sentinel|]. done. }
  split; [by rewrite added_lookup_new|].
  split; [|split; [|done]].
  - intros x dx Hx Hdx.
    assert (x ≠ a) as Hxa by (by intros ->).
    assert (x ≠ s) as Hxs by congruence.
    destruct (added_lookup_desc h1 s a m D x dx Hxa Hxs)
      as (dx' & Hdx' & Hp & _).
    { unfold h1. by rewrite lookup_insert_ne. }
    eauto.
  - intros k Hkl Hka Hks.
    destruct Hlk as (m' & Hm' & Hseg & _).
    assert (m' = m) as -> by congruence.
    destruct (decide (k = prev (data_list m))) as [->|Hkq].
    + destruct (dseg_tail _ _ _ _ Hm Hseg) as (_ & _ & _ & [[_ E]|[l0 ->]]);
        [done|].
      exfalso. apply Hkl. apply elem_of_app. right. left.
    + rewrite added_lookup_other by done. unfold h1.
      by rewrite lookup_insert_ne.
Qed.

(** One step of the rollback takes the descriptor of the last iteration out
    again, whatever has become of the domain meanwhile, provided no older
    descriptor of the list carries the same hardware id. *)
Lemma undo_step st l m a virq hw flags dom :
  linked (heap st) (dev_msi_data st) l →
  heap st !! dev_msi_data st = Some (OData m) →
  heap st !! a = None →
  (∀ x d, x ∈ l → heap st !! x = Some (ODesc d) → hwirq d ≠ hw) →
  cleanup_step (appended st m a (new_desc st a virq hw flags) dom) hw
  = Some (State (heap st) (dev_self st) (dev_msi_data st)
                (Some (irq_dispose_mapping dom virq))).
Proof.
  intros Hlk Hm Hfresh Hold.
  destruct (appended_spec st l m a virq hw flags dom Hlk Hm Hfresh)
    as (Hlk2 & (m2 & Hm2 & _) & Hnew & Hpay & _ & Hal & Has).
  set (D := new_desc st a virq hw flags) in *.
  set (st' := appended st m a D dom) in *.
  pose proof (linked_length_lt _ _ _ Hlk2) as Hlen.
  rewrite length_app in Hlen. simpl in Hlen.
  change (length l + 1 < size (heap st'))%nat in Hlen.
  pose proof (linked_sentinel_notin _ _ _ Hlk) as Hsl.
  destruct Hlk2 as (m2' & Hm2' & Hseg2 & _).
  assert (m2' = m2) as -> by congruence. clear Hm2'.
  apply dseg_snoc in Hseg2 as (_ & d2 & Hd2 & _ & Hseg2).
  rewrite Hnew in Hd2. injection Hd2 as <-. simpl in Hseg2.
  rewrite (cleanup_step_eq st' hw m2) by done.
  unfold walk_fuel.
  replace (S (size (heap st')))
    with (length l + S (size (heap st') - length l))%nat by lia.
  rewrite (cleanup_scan_skip l _ st' hw _ _ _ _ Hseg2); [|done|]; cycle 1.
  { intros x dx' Hx Hdx'.
    destruct (linked_lookup _ _ _ _ Hlk Hx) as [dx Hdx].
    destruct (Hpay x dx Hx Hdx) as (dx'' & Hdx'' & [= _ E2 _ _ _]).
    assert (dx'' = dx') as -> by congruence.
    rewrite E2. by apply (Hold x). }
  pose proof Hlk as (m' & Hm' & Hseg & _).
  assert (m' = m) as -> by congruence.
  destruct (dseg_tail _ _ _ _ Hm Hseg) as (oq & Hq & Hqn & _).
  apply (cleanup_scan_found _ (heap st) (dev_self st) (dev_msi_data st) a m D
           dom oq); try done.
  by apply (linked_empty_next _ _ _ l Hm).
Qed.

End Linked.


Section LinkedLoop.

Variable env : environment.
Variables base flags : Z.

(** The first [n1] turns of the population loop, then the rest. *)
Lemma populate_app n1 : ∀ n2 i st,
  populate env (n1 + n2) i st base flags =
    match populate env n1 i st base flags with
    | Some (None, st1) => populate env n2 (i + n1) st1 base flags
    | r => r
    end.
Proof.
  induction n1 as [|n1 IH]; intros n2 i st.
  { simpl. by rewrite Nat.add_0_r. }
  cbn [Nat.add populate].
  destruct (populate_body env st base flags i) as [[st1|st1]|];
    cbn [mbind option_bind]; [|done|done].
  rewrite IH. by replace (S i + n1)%nat with (i + S n1)%nat by lia.
Qed.

(** The population loop on any well-formed list.  It comes to its end with
    [n] new descriptors at the tail, or it stops at a turn [j] that got no
    memory or no virtual IRQ, with the descriptors of the turns before [j]
    at the tail. *)
Lemma populate_linked n : ∀ i st l m dom,
  dev_msi_data st ≠ NULL →
  linked (heap st) (dev_msi_data st) l →
  heap st !! dev_msi_data st = Some (OData m) →
  dev_msi_domain st = Some dom →
  0 ≤ base → base + Z.of_nat i + Z.of_nat n ≤ 2 ^ 32 →
  ∃ r st' new m' dom',
    populate env n i st base flags = Some (r, st') ∧
    dev_self st' = dev_self st ∧ dev_msi_data st' = dev_msi_data st ∧
    dev_msi_domain st' = Some dom' ∧ reserved dom' = reserved dom ∧
    linked (heap st') (dev_msi_data st) (l ++ new) ∧
    heap st' !! dev_msi_data st = Some (OData m') ∧
    num_vectors m' = num_vectors m + Z.of_nat (length new) ∧
    block_at (heap st') (base + Z.of_nat i) flags (dev_self st) new ∧
    payload_kept (heap st) (heap st') l ∧
    (∀ a, a ∈ new → a ≠ NULL ∧ heap st !! a = None) ∧
    (∀ k, k ∉ l → k ∉ new → k ≠ dev_msi_data st →
       heap st' !! k = heap st !! k) ∧
    match r with
    | None => length new = n
    | Some j =>
        (i ≤ j < i + n)%nat ∧ length new = (j - i)%nat ∧
        turn_fails env st' base j ∧
        populate env (j - i) i st base flags = Some (None, st')
    end.
Proof.
  induction n as [|n IH]; intros i st l m dom Hs Hlk Hm Hdom Hb Hhi.
  { exists None, st, [], m, dom. rewrite app_nil_r. simpl.
    split; [done|]. split; [done|]. split; [done|]. split; [done|].
    split; [done|]. split; [done|]. split; [done|]. split; [lia|].
    split; [by intros k a ?|]. split; [apply payload_kept_refl|].
    split; [by intros a ?%elem_of_nil|]. done. }
  cbn [populate].
  rewrite (populate_body_run env st l m dom base flags i Hs Hlk Hm Hdom)
    by lia.
  set (a := kmalloc env (heap st)).
  set (hw := base + Z.of_nat i).
  destruct (create_mapping_frame env dom hw) as [Hres _].
  case_decide as Hfail; cbn [mbind option_bind].
  { exists (Some i), st, [], m, dom. rewrite app_nil_r. simpl.
    split; [done|]. split; [done|]. split; [done|]. split; [done|].
    split; [done|]. split; [done|]. split; [done|]. split; [lia|].
    split; [by intros k x ?|]. split; [apply payload_kept_refl|].
    split; [by intros x ?%elem_of_nil|]. split; [done|].
    split; [lia|]. split; [lia|]. split; [|by rewrite Nat.sub_diag].
    destruct Hfail as [?|Hz]; [by left|right].
    exists dom. split; [done|]. rewrite wrap32_small by lia. done. }
  assert (a ≠ NULL) as Ha by (intros E; apply Hfail; by left).
  assert ((irq_create_mapping env dom hw).1 ≠ 0) as Hv
    by (intros E; apply Hfail; by right).
  assert (heap st !! a = None) as Hfresh.
  { by destruct (kmalloc_spec env (heap st)) as [?|[_ ?]]. }
  set (virq := (irq_create_mapping env dom hw).1) in *.
  set (dom1 := (irq_create_mapping env dom hw).2) in *.
  destruct (appended_spec st l m a virq hw flags dom1 Hlk Hm Hfresh)
    as (Hlk1 & (m1 & Hm1 & Hnv1) & Hnew & Hpay & Hframe & Hal & Has).
  set (st1 := appended st m a (new_desc st a virq hw flags) dom1) in *.
  destruct (IH (S i) st1 (l ++ [a]) m1 dom1)
    as (r & st' & new & m' & dom' & Hpop & Hself & Hdata & Hdom' & Hres' &
        Hlk' & Hm' & Hnv' & Hblock & Hpay' & Hfresh' & Hframe' & Hr);
    [done|done|done|done|done|lia|].
  change (dev_msi_data st1) with (dev_msi_data st) in *.
  change (dev_self st1) with (dev_self st) in *.
  exists r, st', (a :: new), m', dom'.
  rewrite <- app_assoc in Hlk'. simpl in Hlk'.
  split; [done|]. split; [done|]. split; [done|]. split; [done|].
  split; [congruence|]. split; [done|]. split; [done|].
  split; [simpl length; lia|].
  split; [|split; [|split; [|split]]].
  - intros k x Hk. destruct k as [|k]; simpl in Hk.
    + injection Hk as <-.
      destruct (Hpay' a _ ltac:(apply elem_of_app; right; left) Hnew)
        as (d' & Hd' & [= E1 E2 E3 E4 E5]).
      exists d'. rewrite E1, E2, E3, E4, E5.
      split; [done|]. split; [unfold hw; lia|]. done.
    + destruct (Hblock k x Hk) as (dx & Hdx & Hhwx & Hrest).
      exists dx. split; [done|]. split; [lia|]. done.
  - apply (payload_kept_trans _ (heap st1)); [exact Hpay|].
    apply (payload_kept_mono _ _ (l ++ [a])); [|done].
    intros x Hx. apply elem_of_app. by left.
  - intros x [->|Hx]%elem_of_cons; [done|].
    destruct (Hfresh' x Hx) as [Hxn Hxf]. split; [done|].
    rewrite <- Hframe; [done| | |].
    + intros Hxl. destruct (linked_lookup _ _ _ _ Hlk Hxl) as [dx Hdx].
      destruct (Hpay x dx Hxl Hdx) as (dx' & Hdx' & _).
      rewrite Hxf in Hdx'; done.
    + intros ->. rewrite Hxf in Hnew; done.
    + intros ->. rewrite Hxf in Hm1; done.
  - intros k Hkl Hknew Hks.
    apply not_elem_of_cons in Hknew as [Hka Hknew].
    rewrite Hframe', Hframe; try done.
    intros [?|?%list_elem_of_singleton]%elem_of_app; done.
  - destruct r as [j|]; [|simpl; lia].
    destruct Hr as (Hj & Hlen & Hturn & Hpre). split; [lia|].
    split; [simpl; lia|]. split; [done|].
    replace (j - i)%nat with (S (j - S i)) by lia.
    cbn [populate].
    rewrite (populate_body_run env st l m dom base flags i Hs Hlk Hm Hdom)
      by lia.
    rewrite decide_False by done. done.
Qed.

(** The rollback after a failed population loop, on a list none of whose
    older descriptors carries a hardware id of the block: it takes out
    exactly what the loop has put in.  Memory is as at the start of the loop;
    so is the domain when no id of the block was mapped before. *)
Lemma populate_undo n : ∀ i st l m dom j st',
  dev_msi_data st ≠ NULL →
  linked (heap st) (dev_msi_data st) l →
  heap st !! dev_msi_data st = Some (OData m) →
  dev_msi_domain st = Some dom →
  0 ≤ base → base + Z.of_nat i + Z.of_nat n ≤ 2 ^ 32 →
  (∀ x d, x ∈ l → heap st !! x = Some (ODesc d) →
     ¬ (base + Z.of_nat i ≤ hwirq d < base + Z.of_nat i + Z.of_nat n)) →
  populate env n i st base flags = Some (Some j, st') →
  ∃ domr,
    cleanup j st' base =
      cleanup i (State (heap st) (dev_self st) (dev_msi_data st) (Some domr))
              base ∧
    reserved domr = reserved dom ∧
    ((∀ hw, base + Z.of_nat i ≤ hw < base + Z.of_nat i + Z.of_nat n →
        mapping dom !! hw = None) →
     domr = dom).
Proof.
  induction n as [|n IH]; intros i st l m dom j st' Hs Hlk Hm Hdom Hb Hhi Hold;
    [done|].
  cbn [populate].
  rewrite (populate_body_run env st l m dom base flags i Hs Hlk Hm Hdom)
    by lia.
  set (a := kmalloc env (heap st)).
  set (hw := base + Z.of_nat i).
  destruct (create_mapping_frame env dom hw) as [Hres Hmap].
  case_decide as Hfail; cbn [mbind option_bind].
  { intros [= <- <-]. exists dom. split; [|done].
    destruct st. simpl in *. by subst. }
  assert (heap st !! a = None) as Hfresh.
  { destruct (kmalloc_spec env (heap st)) as [E|[_ ?]]; [|done].
    exfalso. apply Hfail. by left. }
  set (virq := (irq_create_mapping env dom hw).1) in *.
  set (dom1 := (irq_create_mapping env dom hw).2) in *.
  destruct (appended_spec st l m a virq hw flags dom1 Hlk Hm Hfresh)
    as (Hlk1 & (m1 & Hm1 & Hnv1) & Hnew & Hpay & Hframe & Hal & Has).
  set (st1 := appended st m a (new_desc st a virq hw flags) dom1) in *.
  intros Hpop.
  destruct (IH (S i) st1 (l ++ [a]) m1 dom1 j st')
    as (domr1 & Hclean & Hresr & Hdomr); [done|done|done|done|done|lia| |done|].
  { intros x d [Hx|Hx%list_elem_of_singleton]%elem_of_app Hd.
    - destruct (linked_lookup _ _ _ _ Hlk Hx) as [d0 Hd0].
      destruct (Hpay x d0 Hx Hd0) as (d' & Hd' & [= _ E2 _ _ _]).
      assert (d' = d) as -> by congruence. rewrite E2.
      specialize (Hold x d0 Hx Hd0). lia.
    - subst x. rewrite Hnew in Hd. injection Hd as <-. simpl. unfold hw. lia. }
  exists (irq_dispose_mapping domr1 virq).
  split; [|split].
  - rewrite Hclean. cbn [cleanup]. rewrite wrap32_small by lia. fold hw.
    change (State (heap st1) (dev_self st1) (dev_msi_data st1) (Some domr1))
      with (appended st m a (new_desc st a virq hw flags) domr1).
    rewrite (undo_step st l m a virq hw flags domr1 Hlk Hm Hfresh); [done|].
    intros x d Hx Hd E. apply (Hold x d Hx Hd). unfold hw in E. lia.
  - simpl. congruence.
  - intros Hunm. assert (mapping dom !! hw = None) as Hhw
      by (apply Hunm; unfold hw; lia).
    assert (irq_create_mapping env dom hw = (virq, dom1)) as Hcreate
      by (unfold virq, dom1; by destruct (irq_create_mapping env dom hw)).
    destruct (create_mapping_spec _ _ _ _ _ Hhw Hcreate)
      as [[Hz _]|(Hv & Hvfresh & Hdom1)].
    { exfalso. apply Hfail. by right. }
    rewrite Hdomr.
    + rewrite Hdom1. by apply dispose_created.
    + intros hw' Hhw'. rewrite Hmap by (unfold hw; lia).
      apply Hunm. lia.
Qed.

(** The population loop comes to its end exactly when each of its turns,
    entered in the state the turns before have left, gets memory and a
    virtual IRQ. *)
Lemma populate_success_iff n st l m dom :
  dev_msi_data st ≠ NULL →
  linked (heap st) (dev_msi_data st) l →
  heap st !! dev_msi_data st = Some (OData m) →
  dev_msi_domain st = Some dom →
  0 ≤ base → base + Z.of_nat n ≤ 2 ^ 32 →
  (∃ st', populate env n 0 st base flags = Some (None, st')) ↔
  (∀ j st_j, (j < n)%nat →
     populate env j 0 st base flags = Some (None, st_j) →
     ¬ turn_fails env st_j base j).
Proof.
  intros Hs Hlk Hm Hdom Hb Hhi. split.
  - intros [st' Hpop] j st_j Hj Hpre Hturn.
    replace n with (j + S (n - S j))%nat in Hpop by lia.
    rewrite populate_app, Hpre in Hpop. cbn [populate Nat.add] in Hpop.
    destruct (populate_linked j 0 st l m dom Hs Hlk Hm Hdom Hb ltac:(lia))
      as (r & st0 & new & m' & dom' & Hpop0 & Hself & Hdata & Hdom' & _ &
          Hlk' & Hm' & _).
    rewrite Hpre in Hpop0. injection Hpop0 as <- <-.
    rewrite <- Hdata in Hlk', Hm'.
    rewrite (populate_body_run env st_j (l ++ new) m' dom' base flags j) in Hpop;
      [|congruence|done|done|done|lia].
    rewrite decide_True in Hpop; [done|].
    destruct Hturn as [?|(dom0 & Hdom0 & Hz)]; [by left|right].
    rewrite wrap32_small in Hz by lia. congruence.
  - intros Hall.
    assert (∀ k, (k ≤ n)%nat →
              ∃ st_k, populate env k 0 st base flags = Some (None, st_k))
      as Hpre; [|by apply Hpre].
    induction k as [|k IHk]; intros Hk; [by exists st|].
    destruct IHk as [st_k Hpop]; [lia|].
    specialize (Hall k st_k ltac:(lia) Hpop).
    replace (S k) with (k + 1)%nat by lia.
    rewrite populate_app, Hpop. cbn [populate Nat.add].
    destruct (populate_linked k 0 st l m dom Hs Hlk Hm Hdom Hb ltac:(lia))
      as (r & st0 & new & m' & dom' & Hpop0 & Hself & Hdata & Hdom' & _ &
          Hlk' & Hm' & _).
    rewrite Hpop in Hpop0. injection Hpop0 as <- <-.
    rewrite <- Hdata in Hlk', Hm'.
    rewrite (populate_body_run env st_k (l ++ new) m' dom' base flags k);
      [|congruence|done|done|done|lia].
    rewrite decide_False; [cbn [mbind option_bind]; by eexists|].
    intros Hfail. apply Hall. destruct Hfail as [?|Hz]; [by left|right].
    exists dom'. split; [done|]. by rewrite wrap32_small by lia.
Qed.

End LinkedLoop.


(** *** Taking a descriptor out of the middle of a list *)

(** The two stores of an unlink, on a segment that holds the node [x]: the
    node before [x] (or what the segment was entered from) now leads on to
    the node after [x] (or what the segment leads on to), and back. *)
Lemma dseg_unlink h x dx l2 : ∀ l1 pp p q qn,
  h !! x = Some (ODesc dx) →
  dseg h pp p q qn (l1 ++ x :: l2) → NoDup (l1 ++ x :: l2) →
  pp ∉ l1 ++ x :: l2 → qn ∉ l1 ++ x :: l2 →
  (prev (desc_list dx) = pp ∧ l1 = [] ∨ prev (desc_list dx) ∈ l1) ∧
  (next (desc_list dx) = qn ∧ l2 = [] ∨ next (desc_list dx) ∈ l2) ∧
  dseg (alter (obj_set_next (next (desc_list dx))) (prev (desc_list dx))
          (alter (obj_set_prev (prev (desc_list dx))) (next (desc_list dx))
             h))
       pp
       (match l1 with [] => next (desc_list dx) | _ => p end)
       (match l2 with [] => prev (desc_list dx) | _ => q end)
       qn (l1 ++ l2).
Proof.
  set (a := prev (desc_list dx)). set (b := next (desc_list dx)).
  induction l1 as [|z l1 IH]; intros pp p q qn Hdx Hseg Hnd Hpp Hqn.
  - simpl in *. destruct Hseg as (-> & d & Hd & Hprev & Hseg).
    assert (d = dx) as -> by congruence. fold a in Hprev. fold b in Hseg.
    apply list.NoDup_cons in Hnd as [Hxl Hnd].
    apply not_elem_of_cons in Hpp as [Hppx Hpp].
    split; [by left|]. destruct l2 as [|y l2].
    + destruct Hseg as [Hb Hq]. split; [by left|]. simpl. done.
    + destruct Hseg as (Hb & dy & Hdy & Hpy & Hseg).
      split; [right; rewrite Hb; left|].
      apply list.NoDup_cons in Hnd as [Hyl Hnd].
      assert (a ≠ y) as Hay.
      { rewrite Hprev. intros ->. apply Hpp. left. }
      split; [done|]. rewrite Hb.
      rewrite lookup_alter_ne by done. rewrite lookup_alter_eq, Hdy. simpl.
      eexists. split; [done|]. simpl. split; [done|].
      apply (dseg_frame h); [|done]. intros w Hw.
      rewrite !lookup_alter_ne; [done|..].
      * intros ->. done.
      * rewrite Hprev. intros ->. apply Hpp. by right.
  - simpl in Hseg. destruct Hseg as (-> & dz & Hdz & Hprev & Hseg).
    simpl in Hnd, Hpp, Hqn.
    apply list.NoDup_cons in Hnd as [Hzl Hnd].
    apply not_elem_of_cons in Hpp as [Hppz Hpp].
    apply not_elem_of_cons in Hqn as [Hqnz Hqn].
    destruct (IH z (next (desc_list dz)) q qn Hdx Hseg Hnd Hzl Hqn)
      as (Ha & Hb & Hseg1).
    split.
    { right. destruct Ha as [[-> _]|?]; [left|by right]. }
    split; [done|].
    assert (z ≠ b) as Hzb.
    { destruct Hb as [[-> _]|Hin]; [done|]. intros ->. apply Hzl.
      apply elem_of_app. right. by right. }
    simpl. split; [done|].
    destruct Ha as [[Haz ->]|Hal].
    + rewrite Haz. rewrite lookup_alter_eq.
      rewrite lookup_alter_ne by done. rewrite Hdz. simpl.
      eexists. split; [done|]. simpl. split; [done|].
      rewrite Haz in Hseg1. exact Hseg1.
    + assert (z ≠ a) as Hza.
      { intros ->. apply Hzl. apply elem_of_app. by left. }
      rewrite !lookup_alter_ne by done. exists dz.
      split; [done|]. split; [done|].
      destruct l1 as [|w l1]; [by apply elem_of_nil in Hal|]. exact Hseg1.
Qed.

(** A store to the links of a node leaves the rest of a descriptor alone. *)
Lemma alter_link_payload (h : gmap Z object) f k z dz :
  h !! z = Some (ODesc dz) →
  (∀ d, ∃ d', f (ODesc d) = ODesc d' ∧ desc_payload d' = desc_payload d) →
  ∃ d', alter f k h !! z = Some (ODesc d') ∧
        desc_payload d' = desc_payload dz.
Proof.
  intros Hdz Hf. rewrite lookup_alter. case_decide as E.
  - subst k. rewrite Hdz. simpl. destruct (Hf dz) as (d' & -> & Hp).
    by exists d'.
  - by exists dz.
Qed.

(** [list_unlink] on a descriptor anywhere in a well-formed list. *)
Lemma unlink_linked h s m l1 x l2 dx :
  h !! s = Some (OData m) → linked h s (l1 ++ x :: l2) →
  h !! x = Some (ODesc dx) →
  ∃ h1 m1,
    list_unlink h x = Some h1 ∧
    h1 !! s = Some (OData m1) ∧
    num_vectors m1 = num_vectors m ∧
    h1 !! x = Some (ODesc dx) ∧
    dseg h1 s (next (data_list m1)) (prev (data_list m1)) s (l1 ++ l2) ∧
    (∀ k, k ≠ s → k ∉ l1 ++ l2 → h1 !! k = h !! k) ∧
    payload_kept h h1 (l1 ++ l2).
Proof.
  intros Hm Hlk Hdx.
  pose proof (linked_sentinel_notin _ _ _ Hlk) as Hsl.
  destruct Hlk as (m' & Hm' & Hseg & Hnd).
  assert (m' = m) as -> by congruence. clear Hm'.
  destruct (dseg_unlink h x dx l2 l1 s _ _ s Hdx Hseg Hnd Hsl Hsl)
    as (Ha & Hb & Hseg1).
  set (a := prev (desc_list dx)) in *. set (b := next (desc_list dx)) in *.
  set (h1 := alter (obj_set_next b) a (alter (obj_set_prev a) b h)) in *.
  assert (x ≠ s) as Hxs by congruence.
  assert (x ∉ l1 ++ l2) as Hxl.
  { apply list.NoDup_app in Hnd as (_ & Hdisj & Hnd2).
    apply list.NoDup_cons in Hnd2 as [Hx2 _].
    intros [Hin|Hin]%elem_of_app; [|done]. apply (Hdisj x Hin). left. }
  assert (x ≠ a) as Hxa.
  { destruct Ha as [[-> _]|Hin]; [done|]. intros ->. apply Hxl.
    apply elem_of_app. by left. }
  assert (x ≠ b) as Hxb.
  { destruct Hb as [[-> _]|Hin]; [done|]. intros ->. apply Hxl.
    apply elem_of_app. by right. }
  assert (is_Some (h !! a)) as [oa Hoa].
  { destruct Ha as [[-> _]|Hin]; [eauto|].
    destruct (dseg_lookup _ _ _ _ _ _ a Hseg) as [d Hd];
      [apply elem_of_app; by left|eauto]. }
  assert (is_Some (h !! b)) as [ob Hob].
  { destruct Hb as [[-> _]|Hin]; [eauto|].
    destruct (dseg_lookup _ _ _ _ _ _ b Hseg) as [d Hd];
      [apply elem_of_app; right; by right|eauto]. }
  assert (list_unlink h x = Some h1) as Hun.
  { unfold list_unlink. rewrite (load_list_Some _ _ _ Hdx). simpl.
    fold a b. rewrite (store_list_Some _ _ _ _ Hob). simpl.
    erewrite load_list_Some
      by (rewrite lookup_alter_ne by done; exact Hdx).
    simpl. fold a b.
    assert (is_Some (alter (obj_set_prev a) b h !! a)) as [oa' Hoa'].
    { rewrite lookup_alter.
      case_decide; [subst; rewrite Hob|rewrite Hoa]; simpl; eauto. }
    by rewrite (store_list_Some _ _ _ _ Hoa'). }
  assert (∃ m1, h1 !! s = Some (OData m1) ∧ num_vectors m1 = num_vectors m ∧
                next (data_list m1) =
                  match l1 with [] => b | _ => next (data_list m) end ∧
                prev (data_list m1) =
                  match l2 with [] => a | _ => prev (data_list m) end)
    as (m1 & Hm1 & Hnv1 & Hn1 & Hp1).
  { unfold h1. rewrite !lookup_alter.
    destruct Ha as [[Has ->]|Hal]; destruct Hb as [[Hbs ->]|Hbl].
    - rewrite Has, Hbs. rewrite !decide_True by done. rewrite Hm. simpl.
      eexists. split; [done|]. done.
    - rewrite Has. rewrite decide_True by done.
      rewrite decide_False by (intros ->; apply Hsl; by right).
      rewrite Hm. simpl. eexists. split; [done|].
      destruct l2; [by apply elem_of_nil in Hbl|done].
    - rewrite Hbs.
      rewrite decide_False
        by (intros ->; apply Hsl; apply elem_of_app; by left).
      rewrite decide_True by done. rewrite Hm. simpl.
      eexists. split; [done|].
      destruct l1; [by apply elem_of_nil in Hal|done].
    - rewrite decide_False
        by (intros ->; apply Hsl; apply elem_of_app; by left).
      rewrite decide_False
        by (intros ->; apply Hsl; apply elem_of_app; right; by right).
      exists m. split; [done|].
      destruct l1; [by apply elem_of_nil in Hal|].
      destruct l2; [by apply elem_of_nil in Hbl|done]. }
  exists h1, m1. split; [done|]. split; [done|]. split; [done|].
  split; [unfold h1; by rewrite !lookup_alter_ne|].
  split; [|split].
  - rewrite Hn1, Hp1.
    destruct l1, l2; exact Hseg1.
  - intros k Hks Hkl. unfold h1.
    assert (k ≠ a) as Hka.
    { destruct Ha as [[-> _]|Hin]; [done|]. intros ->. apply Hkl.
      apply elem_of_app. by left. }
    assert (k ≠ b) as Hkb.
    { destruct Hb as [[-> _]|Hin]; [done|]. intros ->. apply Hkl.
      apply elem_of_app. by right. }
    by rewrite !lookup_alter_ne.
  - intros z dz Hz Hdz. unfold h1.
    destruct (alter_link_payload h (obj_set_prev a) b z dz Hdz)
      as (d1 & Hd1 & E1); [by intros d; eexists|].
    destruct (alter_link_payload _ (obj_set_next b) a z d1 Hd1)
      as (d2 & Hd2 & E2); [by intros d; eexists|].
    exists d2. split; [done|]. congruence.
Qed.


(** *** The rollback on any well-formed list

    [device st l c]: the device has a domain and a registry whose list is
    well-formed and holds the descriptors at [l], and whose [num_vectors]
    is [c]. *)
Definition device (st : state) (l : list Z) (c : Z) : Prop :=
  dev_msi_data st ≠ NULL ∧ is_Some (dev_msi_domain st) ∧
  linked (heap st) (dev_msi_data st) l ∧
  registry_num_vectors st = Some c.

Lemma device_sentinel st l c :
  device st l c →
  ∃ m, heap st !! dev_msi_data st = Some (OData m) ∧ num_vectors m = c.
Proof.
  intros (_ & _ & (m & Hm & _) & Hc). exists m. split; [done|].
  unfold registry_num_vectors in Hc.
  rewrite (load_data_Some _ _ _ Hm) in Hc. simpl in Hc. congruence.
Qed.

Lemma device_intro st l dom m :
  dev_msi_data st ≠ NULL → dev_msi_domain st = Some dom →
  linked (heap st) (dev_msi_data st) l →
  heap st !! dev_msi_data st = Some (OData m) →
  device st l (num_vectors m).
Proof.
  intros Hs Hdom Hlk Hm. split; [done|]. split; [by rewrite Hdom|].
  split; [done|]. unfold registry_num_vectors.
  by rewrite (load_data_Some _ _ _ Hm).
Qed.

Lemma msi_inv_device st l : msi_inv st l → device st l (Z.of_nat (length l)).
Proof.
  intros [Hs Hreg (dom & Hdom & _) _]. split; [done|].
  split; [by rewrite Hdom|]. split; [by apply registry_linked|].
  by apply registry_num_vectors_spec.
Qed.

Lemma device_registry st l :
  device st l (Z.of_nat (length l)) → registry (heap st) (dev_msi_data st) l.
Proof.
  intros Hdev. destruct (device_sentinel _ _ _ Hdev) as (m & Hm & Hnv).
  destruct Hdev as (_ & _ & Hlk & _). by apply (linked_registry _ _ _ m).
Qed.

(** What the rollback keeps of a device: its fields, the reservations of
    its domain, a well-formed list, and the distance between [num_vectors]
    and the length of the list. *)
Definition rolled_back (st st' : state) (l : list Z) (c : Z) : Prop :=
  dev_self st' = dev_self st ∧ dev_msi_data st' = dev_msi_data st ∧
  reserved <$> dev_msi_domain st' = reserved <$> dev_msi_domain st ∧
  ∃ l' c', device st' l' c' ∧
           c' - Z.of_nat (length l') = c - Z.of_nat (length l).

Lemma rolled_back_refl st l c : device st l c → rolled_back st st l c.
Proof. intros Hdev. do 3 (split; [done|]). by exists l, c. Qed.

Lemma cleanup_scan_linked hw l2 : ∀ l1 fuel st c pp p,
  device st (l1 ++ l2) c →
  (∀ m, heap st !! dev_msi_data st = Some (OData m) →
     dseg (heap st) pp p (prev (data_list m)) (dev_msi_data st) l2) →
  (length l2 < fuel)%nat →
  ∃ st', cleanup_scan fuel st hw p = Some st' ∧
         rolled_back st st' (l1 ++ l2) c.
Proof.
  induction l2 as [|x l2 IH]; intros l1 fuel st c pp p Hdev Hseg2 Hfuel;
    (destruct fuel as [|fuel]; [simpl in Hfuel; lia|]);
    destruct (device_sentinel _ _ _ Hdev) as (m & Hm & Hc);
    specialize (Hseg2 m Hm).
  - destruct Hseg2 as [-> _]. simpl. rewrite Z.eqb_refl.
    exists st. split; [done|]. by apply rolled_back_refl.
  - destruct Hseg2 as (-> & dx & Hdx & _ & Hseg2).
    assert (x ≠ dev_msi_data st) as Hxs by congruence.
    cbn [cleanup_scan]. destruct (Z.eqb_spec x (dev_msi_data st)); [done|].
    rewrite (load_desc_Some _ _ _ Hdx). cbn [mbind option_bind].
    destruct (hwirq dx =? hw).
    + pose proof Hdev as (Hs & [dom Hdom] & Hlk & _).
      destruct (unlink_linked _ _ m l1 x l2 dx Hm Hlk Hdx)
        as (h1 & m1 & Hun & Hm1 & Hnv1 & Hdx1 & Hseg1 & Hframe1 & _).
      rewrite Hdom. cbn [mbind option_bind]. rewrite Hun.
      cbn [mbind option_bind].
      rewrite (load_data_Some _ _ _ Hm1). cbn [mbind option_bind].
      rewrite (store_data_Some _ _ _ _ Hm1). cbn [mbind option_bind].
      erewrite kfree_Some
        by (rewrite lookup_alter_ne by done; exact Hdx1).
      cbn [mbind option_bind].
      eexists. split; [done|].
      split; [done|]. split; [done|]. split; [simpl; by rewrite Hdom|].
      set (m' := data_set_num_vectors (num_vectors m1 - 1) m1).
      set (h3 := delete x _).
      assert (h3 !! dev_msi_data st = Some (OData m')) as Hm'.
      { unfold h3. rewrite lookup_delete_ne by done.
        by rewrite lookup_alter_eq, Hm1. }
      exists (l1 ++ l2), (num_vectors m').
      destruct Hlk as (_ & _ & _ & Hnd).
      assert (NoDup (l1 ++ l2) ∧ x ∉ l1 ++ l2) as [Hnd' Hxl].
      { apply list.NoDup_app in Hnd as (Hnd1 & Hdisj & Hnd2).
        apply list.NoDup_cons in Hnd2 as [Hx2 Hnd2]. split.
        - apply list.NoDup_app. split; [done|]. split; [|done].
          intros y Hy1 Hy2. apply (Hdisj y Hy1). by right.
        - intros [Hin|Hin]%elem_of_app; [|done]. apply (Hdisj x Hin). left. }
      split.
      * apply (device_intro _ _ (irq_dispose_mapping dom (irq dx)) m');
          [done|done| |done].
        exists m'. split; [done|]. split; [|done].
        apply (dseg_frame h1); [|done]. intros z Hz. simpl. unfold h3.
        rewrite lookup_delete_ne by (by intros ->).
        rewrite lookup_alter_ne; [done|]. intros <-.
        destruct (dseg_lookup _ _ _ _ _ _ _ Hseg1 Hz). congruence.
      * simpl. rewrite Hnv1, Hc, !length_app. simpl. lia.
    + destruct (IH (l1 ++ [x]) fuel st c x (next (desc_list dx)))
        as (st' & Hscan & Hrolled).
      * by rewrite <- app_assoc.
      * intros m0 Hm0. assert (m0 = m) as -> by congruence. done.
      * simpl in Hfuel. lia.
      * exists st'. split; [done|]. by rewrite <- app_assoc in Hrolled.
Qed.

Lemma rolled_back_trans st1 st2 st3 l c :
  rolled_back st1 st2 l c →
  (∀ l2 c2, device st2 l2 c2 → rolled_back st2 st3 l2 c2) →
  rolled_back st1 st3 l c.
Proof.
  intros (Hself & Hdata & Hres & l' & c' & Hdev & Hc) H23.
  destruct (H23 l' c' Hdev)
    as (Hself' & Hdata' & Hres' & l'' & c'' & Hdev' & Hc').
  split; [congruence|]. split; [congruence|]. split; [congruence|].
  exists l'', c''. split; [done|]. lia.
Qed.

Lemma cleanup_step_linked st l c hw :
  device st l c →
  ∃ st', cleanup_step st hw = Some st' ∧ rolled_back st st' l c.
Proof.
  intros Hdev. destruct (device_sentinel _ _ _ Hdev) as (m & Hm & Hc).
  pose proof Hdev as (_ & _ & Hlk & _).
  pose proof (linked_length_lt _ _ _ Hlk) as Hlen.
  rewrite (cleanup_step_eq st hw m Hm).
  apply (cleanup_scan_linked hw l [] _ st c (dev_msi_data st)); [done| |].
  - intros m0 Hm0. assert (m0 = m) as -> by congruence.
    destruct Hlk as (m' & Hm' & Hseg & _).
    by assert (m' = m) as -> by congruence.
  - unfold walk_fuel. lia.
Qed.

Lemma cleanup_linked base j : ∀ st l c,
  device st l c →
  ∃ st', cleanup j st base = Some st' ∧ rolled_back st st' l c.
Proof.
  induction j as [|j IH]; intros st l c Hdev.
  { exists st. split; [done|]. by apply rolled_back_refl. }
  cbn [cleanup].
  destruct (cleanup_step_linked st l c (wrap32 (base + Z.of_nat j)) Hdev)
    as (st1 & Hstep & Hr1).
  rewrite Hstep. cbn [mbind option_bind].
  pose proof Hr1 as (_ & _ & _ & l1 & c1 & Hdev1 & _).
  destruct (IH st1 l1 c1 Hdev1) as (st2 & Hclean & Hr2).
  exists st2. split; [done|].
  apply (rolled_back_trans st st1 st2 l c Hr1).
  intros l2 c2 Hdev2.
  destruct (IH st1 l2 c2 Hdev2) as (st2' & Hclean' & Hr2').
  rewrite Hclean in Hclean'. by injection Hclean' as <-.
Qed.

Section LinkedAlloc.

Variable env : environment.

(** A block of [nvec] descriptors appended to the list [l] of the device
    [st], at the hardware ids from [base] on. *)
Definition block_appended (st st' : state) (l new : list Z)
    (base nvec flags : Z) : Prop :=
  dev_self st' = dev_self st ∧ dev_msi_data st' = dev_msi_data st ∧
  is_Some (dev_msi_domain st') ∧
  linked (heap st') (dev_msi_data st) (l ++ new) ∧
  (∃ c, registry_num_vectors st = Some c ∧
        registry_num_vectors st' = Some (c + nvec)) ∧
  Z.of_nat (length new) = nvec ∧
  block_at (heap st') base flags (dev_self st) new ∧
  payload_kept (heap st) (heap st') l ∧
  (∀ a, a ∈ new → a ≠ NULL ∧ heap st !! a = None) ∧
  (∀ k, k ∉ l → k ∉ new → k ≠ dev_msi_data st →
     heap st' !! k = heap st !! k).

(** [msi_alloc_block] on any device with a well-formed list: it returns;
    it succeeds exactly when the domain has a block and every turn of the
    population loop gets memory and a virtual IRQ; when it fails the list
    is still well-formed. *)
Lemma msi_alloc_block_linked st l c dom nvec flags :
  device st l c → dev_msi_domain st = Some dom → 0 ≤ nvec →
  ∃ r st', msi_alloc_block env st nvec flags = Some (r, st') ∧
    ((r = -1 ∧ rolled_back st st' l c ∧
      (irq_domain_alloc_hwirq_range env dom nvec = None ∨
       ∃ base dom1 j st_j,
         irq_domain_alloc_hwirq_range env dom nvec = Some (base, dom1) ∧
         (j < Z.to_nat nvec)%nat ∧
         populate env j 0 (set_domain dom1 st) base flags
           = Some (None, st_j) ∧
         turn_fails env st_j base j)) ∨
     (r = nvec ∧
      ∃ base dom1 new,
        irq_domain_alloc_hwirq_range env dom nvec = Some (base, dom1) ∧
        populate env (Z.to_nat nvec) 0 (set_domain dom1 st) base flags
          = Some (None, st') ∧
        block_appended st st' l new base nvec flags)).
Proof.
  intros Hdev Hdom Hn.
  destruct (device_sentinel _ _ _ Hdev) as (m & Hm & Hc).
  pose proof Hdev as (Hs & _ & Hlk & Hnum).
  unfold msi_alloc_block. rewrite Hdom. cbn [mbind option_bind].
  destruct (irq_domain_alloc_hwirq_range env dom nvec) as [[base dom1]|]
    eqn:Halloc.
  2: { exists (-1), st. split; [done|]. left. split; [done|].
       split; [by apply rolled_back_refl|by left]. }
  pose proof Halloc as Halloc'.
  apply alloc_hwirq_range_Some in Halloc' as (Hb0 & Hb1 & Hdisj & Hdom1).
  set (st0 := set_domain dom1 st).
  destruct (populate_linked env base flags (Z.to_nat nvec) 0 st0 l m dom1)
    as (r & st' & new & m' & dom' & Hpop & Hself & Hdata & Hdom' & Hres' &
        Hlk' & Hm' & Hnv' & Hblock & Hpay & Hfresh & Hframe & Hr);
    [done|done|done|done|done|lia|].
  change (dev_msi_data st0) with (dev_msi_data st) in *.
  change (dev_self st0) with (dev_self st) in *.
  change (heap st0) with (heap st) in *.
  rewrite Hpop. cbn [mbind option_bind]. destruct r as [j|].
  - destruct Hr as (Hj & Hlen & Hturn & Hpre).
    assert (device st' (l ++ new) (num_vectors m')) as Hdev'.
    { apply (device_intro _ _ dom' m'); rewrite ?Hdata; done. }
    destruct (cleanup_linked base j st' _ _ Hdev')
      as (st2 & Hclean & Hself2 & Hdata2 & Hres2 & l2 & c2 & Hdev2 & Hc2).
    rewrite Hclean. cbn [mbind option_bind].
    pose proof Hdev2 as (Hs2 & [dom2 Hdom2] & Hlk2 & Hnum2).
    rewrite Hdom2. cbn [mbind option_bind].
    eexists _, _. split; [done|]. left. split; [done|]. split.
    + split; [simpl; congruence|]. split; [simpl; congruence|].
      split.
      { simpl. rewrite Hdom, Hdom2, Hdom' in *. simpl in *.
        injection Hres2 as Hres2. f_equal. rewrite Hres2, Hres', Hdom1.
        simpl. apply set_eq. intros x.
        rewrite elem_of_difference, elem_of_union. specialize (Hdisj x).
        tauto. }
      exists l2, c2. split.
      { split; [done|]. split; [by eexists|]. split; [done|done]. }
      rewrite length_app in Hc2. lia.
    + right. exists base, dom1, j, st'. split; [done|]. split; [lia|].
      split; [|done]. by rewrite Nat.sub_0_r in Hpre.
  - eexists _, _. split; [done|]. right. split; [done|].
    exists base, dom1, new. split; [done|]. split; [done|].
    rewrite Z.add_0_r in Hblock.
    split; [done|]. split; [done|]. split; [by eexists|]. split; [done|].
    split.
    { exists c. split; [done|].
      unfold registry_num_vectors. rewrite Hdata.
      rewrite (load_data_Some _ _ _ Hm'). simpl. f_equal. lia. }
    split; [lia|]. done.
Qed.

End LinkedAlloc.


Section LinkedVectors.

Variable env : environment.

Lemma block_appended_device st st' l new base nvec flags c :
  device st l c → block_appended st st' l new base nvec flags →
  device st' (l ++ new) (c + nvec).
Proof.
  intros (Hs & _ & _ & Hc)
         (_ & Hdata & Hdom' & Hlk' & (c0 & Hc0 & Hc') & _).
  assert (c0 = c) as -> by congruence.
  split; [congruence|]. split; [done|]. split; [by rewrite Hdata|done].
Qed.

(** [msi_alloc_vectors] on any device with a well-formed list: it returns,
    with -1 and a list that is still well-formed, or with the block size
    chosen by size selection and a block of this size appended. *)
Lemma msi_alloc_vectors_linked st l c min_vecs max_vecs flags :
  device st l c → 0 ≤ min_vecs → 0 ≤ max_vecs →
  ∃ r st', msi_alloc_vectors env st min_vecs max_vecs flags = Some (r, st') ∧
    ((r = -1 ∧ rolled_back st st' l c) ∨
     (1 ≤ min_vecs ≤ max_vecs ∧ max_vecs ≤ 32 ∧
      r = 2 ^ Z.log2 max_vecs ∧ min_vecs ≤ r ∧
      ∃ dom base dom1 new,
        dev_msi_domain st = Some dom ∧
        irq_domain_alloc_hwirq_range env dom r = Some (base, dom1) ∧
        block_appended st st' l new base r flags)).
Proof.
  intros Hdev Hmin Hmax. pose proof Hdev as (Hs & [dom Hdom] & _).
  unfold msi_alloc_vectors, MSI_MAX_VECTORS.
  destruct (Z.eqb_spec (dev_msi_data st) NULL) as [|_]; [done|].
  rewrite bool_decide_eq_false_2 by (by rewrite Hdom). simpl.
  destruct (Z.eqb_spec min_vecs 0) as [|Hmin0]; simpl.
  { exists (-1), st. split; [done|]. left. split; [done|].
    by apply rolled_back_refl. }
  destruct (Z.ltb_spec max_vecs min_vecs) as [|Hle]; simpl.
  { exists (-1), st. split; [done|]. left. split; [done|].
    by apply rolled_back_refl. }
  destruct (Z.ltb_spec 32 max_vecs) as [|Hle32]; simpl.
  { exists (-1), st. split; [done|]. left. split; [done|].
    by apply rolled_back_refl. }
  rewrite msi_nvec_spec by lia. simpl.
  destruct (Z.ltb_spec (2 ^ Z.log2 max_vecs) min_vecs) as [|Hfit].
  { exists (-1), st. split; [done|]. left. split; [done|].
    by apply rolled_back_refl. }
  destruct (msi_alloc_block_linked env st l c dom (2 ^ Z.log2 max_vecs) flags
              Hdev Hdom) as (r & st' & Hcall & Hr).
  { apply Z.pow_nonneg. lia. }
  exists r, st'. split; [done|].
  destruct Hr as [(-> & Hrolled & _)|(-> & base & dom1 & new & Halloc & _ & Hok)].
  - by left.
  - right. split; [lia|]. split; [done|]. split; [done|]. split; [done|].
    by exists dom, base, dom1, new.
Qed.

(** A failed [msi_alloc_block] on a list whose descriptors all carry
    reserved hardware ids: memory and the reservations are what they were;
    so is the whole domain when it maps reserved ids only. *)
Lemma msi_alloc_block_restores st l dom nvec flags r st' :
  dev_msi_data st ≠ NULL →
  linked (heap st) (dev_msi_data st) l →
  dev_msi_domain st = Some dom →
  (∀ x d, x ∈ l → heap st !! x = Some (ODesc d) → hwirq d ∈ reserved dom) →
  0 ≤ nvec →
  msi_alloc_block env st nvec flags = Some (r, st') → r < 0 →
  heap st' = heap st ∧ dev_self st' = dev_self st ∧
  dev_msi_data st' = dev_msi_data st ∧
  ∃ dom', dev_msi_domain st' = Some dom' ∧ reserved dom' = reserved dom ∧
          ((∀ hw v, mapping dom !! hw = Some v → hw ∈ reserved dom) →
           dom' = dom).
Proof.
  intros Hs Hlk Hdom Hids Hn. pose proof Hlk as (m & Hm & _).
  unfold msi_alloc_block. rewrite Hdom. cbn [mbind option_bind].
  destruct (irq_domain_alloc_hwirq_range env dom nvec) as [[base dom1]|]
    eqn:Halloc.
  2: { intros [= <- <-] _. do 3 (split; [done|]). by exists dom. }
  apply alloc_hwirq_range_Some in Halloc as (Hb0 & Hb1 & Hdisj & Hdom1).
  set (st0 := set_domain dom1 st).
  destruct (populate env (Z.to_nat nvec) 0 st0 base flags)
    as [[[j|] st1]|] eqn:Hpop; cbn [mbind option_bind]; [| |done].
  2: { intros [= <- <-] Hneg. lia. }
  destruct (populate_undo env base flags (Z.to_nat nvec) 0 st0 l m dom1 j st1)
    as (domr & Hclean & Hresr & Hdomr); try done.
  { lia. }
  { intros x d Hx Hd Hin. apply (Hdisj (hwirq d)).
    - apply elem_of_hwirq_range. lia.
    - by apply (Hids x d). }
  rewrite Hclean. cbn [cleanup mbind option_bind dev_msi_domain].
  intros [= <- <-] _. simpl. do 3 (split; [done|]).
  eexists. split; [done|]. simpl. split.
  - rewrite Hresr, Hdom1. simpl. apply set_eq. intros x.
    rewrite elem_of_difference, elem_of_union. specialize (Hdisj x). tauto.
  - intros Hmapped. rewrite Hdomr.
    + rewrite Hdom1. by apply free_alloc_hwirq_range.
    + intros hw Hhw. rewrite Hdom1. simpl.
      destruct (mapping dom !! hw) as [v|] eqn:Hv; [|done].
      exfalso. apply (Hdisj hw); [apply elem_of_hwirq_range; lia|].
      by apply (Hmapped hw v).
Qed.

End LinkedVectors.

(** In a consistent state the hardware ids of the list, and all mapped ids,
    are reserved. *)
Lemma msi_inv_reserved st l dom :
  msi_inv st l → dev_msi_domain st = Some dom →
  (∀ x d, x ∈ l → heap st !! x = Some (ODesc d) → hwirq d ∈ reserved dom) ∧
  (∀ hw v, mapping dom !! hw = Some v → hw ∈ reserved dom).
Proof.
  intros [_ _ (dom0 & Hdom0 & [Hres _] & Hdescs) _] Hdom.
  assert (dom0 = dom) as -> by congruence. split; [|done].
  intros x d Hx Hd. destruct (Hdescs x Hx) as (d' & Hd' & _ & _ & Hmap).
  assert (d' = d) as -> by congruence. by apply (Hres _ (irq d)).
Qed.

(** [msi_free_vectors] on any device with a well-formed list. *)
Lemma msi_free_vectors_linked st l c :
  device st l c →
  ∃ st',
    msi_free_vectors st = Some st' ∧
    device st' [] (c - Z.of_nat (length l)) ∧
    registry_self_linked st' ∧
    dev_msi_data st' = dev_msi_data st ∧
    dev_self st' = dev_self st ∧
    (∀ x, x ∈ l → heap st' !! x = None) ∧
    (∀ k, k ≠ dev_msi_data st → k ∉ l → heap st' !! k = heap st !! k).
Proof.
  intros Hdev. destruct (device_sentinel _ _ _ Hdev) as (m & Hm & Hc).
  destruct Hdev as (Hs & [dom Hdom] & Hlk & _).
  pose proof (linked_length_lt _ _ _ Hlk) as Hlen.
  destruct Hlk as (m' & Hm' & Hseg & Hnd).
  assert (m' = m) as -> by congruence. clear Hm'.
  destruct (free_walk_spec l (walk_fuel (heap st)) st m dom)
    as (st' & Hwalk & Hd' & Hs' & Hdom' & Hsent & Hgone & Hframe);
    try done.
  { unfold walk_fuel. lia. }
  exists st'. unfold msi_free_vectors.
  destruct (Z.eqb_spec (dev_msi_data st) NULL); [done|].
  rewrite bool_decide_eq_false_2 by (by rewrite Hdom). simpl.
  rewrite (load_data_Some _ _ _ Hm). simpl.
  split; [done|]. rewrite <- Hd' in Hsent.
  split; [|split; [|done]].
  - split; [congruence|]. split; [by rewrite Hdom'|]. split.
    + eexists. split; [done|]. simpl. split; [done|constructor].
    + unfold registry_num_vectors. rewrite (load_data_Some _ _ _ Hsent).
      simpl. by rewrite Hc.
  - eexists. split; [done|]. done.
Qed.


(** ** The claims about [msi_alloc_vectors] and [msi_free_vectors] *)

(** The ready device after [msi_desc_alloc] and [msi_desc_list_add]: its
    list holds one descriptor, at address 2, without hardware id (0, which
    the domain has not reserved) and without virtual IRQ. *)
Definition hand_added : state :=
  match msi_desc_list_add (heap loose_descriptor)
          (dev_msi_data loose_descriptor) 2 with
  | Some (_, h) => set_heap h loose_descriptor
  | None => loose_descriptor
  end.




(** C3 as stated does not hold.  A successful call on the list of
    [hand_added] leaves the older descriptor at 2 in the list, whose virtual
    IRQ is 0. *)
Lemma msi_alloc_vectors_keeps_unmapped :
  registry_walk hand_added = Some [2] ∧
  ∃ st' d,
    msi_alloc_vectors bump_env hand_added 1 1 0 = Some (1, st') ∧
    registry_walk st' = Some [2; 3] ∧
    heap st' !! 2 = Some (ODesc d) ∧ irq d = 0.
Proof.
  split; [vm_compute; reflexivity|].
  eexists _, _. split; [vm_compute; reflexivity|].
  split; [vm_compute; reflexivity|]. split; [vm_compute; reflexivity|].
  reflexivity.
Qed.

(** C3, amended.  A successful [msi_alloc_vectors] returning [n], on a
    device whose list is well-formed: [n] is a power of two between
    [min_vecs] and [max_vecs]; [num_vectors] has grown by exactly [n]; the
    walk over the registry finds the old descriptors followed by [n] new
    ones, whose hardware ids are [base], [base + 1], ... in this order,
    [base] being the start of the block the domain reserved; every new
    descriptor has a non-zero virtual IRQ, and the old ones keep theirs, so
    every descriptor of the registry has a non-zero virtual IRQ exactly when
    those listed before the call had one. *)
Theorem msi_alloc_vectors_success env st l min_vecs max_vecs flags n st' :
  linked (heap st) (dev_msi_data st) l →
  0 ≤ min_vecs → 0 ≤ max_vecs →
  msi_alloc_vectors env st min_vecs max_vecs flags = Some (n, st') →
  0 ≤ n →
  (∃ k, 0 ≤ k ∧ n = 2 ^ k) ∧ min_vecs ≤ n ≤ max_vecs ∧
  (∃ c, registry_num_vectors st = Some c ∧
        registry_num_vectors st' = Some (c + n) ∧
        (registry (heap st) (dev_msi_data st) l → c = Z.of_nat (length l))) ∧
  ∃ dom base dom1 new,
    dev_msi_domain st = Some dom ∧
    irq_domain_alloc_hwirq_range env dom n = Some (base, dom1) ∧
    registry_walk st = Some l ∧
    registry_walk st' = Some (l ++ new) ∧
    Z.of_nat (length new) = n ∧
    (∀ k a, new !! k = Some a →
       ∃ d, heap st' !! a = Some (ODesc d) ∧ hwirq d = base + Z.of_nat k ∧
            irq d ≠ 0) ∧
    (∀ a d, a ∈ l → heap st !! a = Some (ODesc d) →
       ∃ d', heap st' !! a = Some (ODesc d') ∧ irq d' = irq d ∧
             hwirq d' = hwirq d) ∧
    ((∀ a d, a ∈ l → heap st !! a = Some (ODesc d) → irq d ≠ 0) ↔
     (∀ a, a ∈ l ++ new →
        ∃ d, heap st' !! a = Some (ODesc d) ∧ irq d ≠ 0)) ∧
    (msi_inv st l → msi_inv st' (l ++ new)).
Proof.
  intros Hlk Hmin Hmax Hcall Hn.
  assert (dev_msi_data st ≠ NULL ∧ is_Some (dev_msi_domain st))
    as [Hs [dom Hdom]].
  { revert Hcall. unfold msi_alloc_vectors.
    destruct (Z.eqb_spec (dev_msi_data st) NULL);
      [intros [= <- _]; lia|].
    destruct (dev_msi_domain st); [by eauto|].
    rewrite bool_decide_eq_true_2 by done. intros [= <- _]. lia. }
  pose proof Hlk as (m & Hm & _).
  pose proof (device_intro _ _ _ _ Hs Hdom Hlk Hm) as Hdev.
  destruct (msi_alloc_vectors_linked env st l _ min_vecs max_vecs flags Hdev
              Hmin Hmax) as (r & st0 & Hcall0 & Hr).
  rewrite Hcall in Hcall0. injection Hcall0 as <- <-.
  destruct Hr as [[-> _]|(Hmm & H32 & -> & Hfit & Hok)]; [lia|].
  destruct Hok as (dom0 & base & dom1 & new & Hdom0 & Halloc & Hok).
  assert (dom0 = dom) as -> by congruence.
  pose proof (block_appended_device _ _ _ _ _ _ _ _ Hdev Hok)
    as (_ & _ & Hlk' & _).
  destruct Hok as (Hself & Hdata & _ & _ & (c & Hc & Hc') & Hlen & Hblock &
                   Hpay & Hfresh & Hframe).
  pose proof (Z.log2_nonneg max_vecs) as Hlog.
  pose proof (Z.log2_spec max_vecs ltac:(lia)) as [Hlo _].
  split; [by exists (Z.log2 max_vecs)|]. split; [lia|].
  split.
  { exists c. split; [done|]. split; [done|]. intros Hreg.
    rewrite (registry_num_vectors_spec st l Hreg) in Hc. congruence. }
  exists dom, base, dom1, new.
  split; [done|]. split; [done|].
  split; [by apply linked_walk|]. split; [by apply linked_walk|].
  split; [done|].
  assert (∀ a d, a ∈ l → heap st !! a = Some (ODesc d) →
            ∃ d', heap st' !! a = Some (ODesc d') ∧ irq d' = irq d ∧
                  hwirq d' = hwirq d) as Hold.
  { intros a d Ha Hd. destruct (Hpay a d Ha Hd) as (d' & Hd' & E).
    exists d'. split; [done|]. by injection E as -> -> _ _ _. }
  split; [|split; [done|split]].
  - intros k a Hk. destruct (Hblock k a Hk) as (d & Hd & Hhw & Hirq & _).
    by exists d.
  - split.
    + intros Hnz a [Ha|Ha]%elem_of_app.
      * destruct (linked_lookup _ _ _ _ Hlk Ha) as [d Hd].
        destruct (Hold a d Ha Hd) as (d' & Hd' & Hirq & _).
        exists d'. split; [done|]. rewrite Hirq. by apply (Hnz a).
      * apply list_elem_of_lookup in Ha as [k Hk].
        destruct (Hblock k a Hk) as (d & Hd & _ & Hirq & _). by exists d.
    + intros Hnz a d Ha Hd.
      destruct (Hold a d Ha Hd) as (d' & Hd' & Hirq & _).
      destruct (Hnz a) as (d'' & Hd'' & Hirq'');
        [apply elem_of_app; by left|].
      assert (d'' = d') as -> by congruence. congruence.
  - intros Hinv.
    destruct (msi_alloc_vectors_spec env st l min_vecs max_vecs flags Hinv
                Hmin Hmax) as (r & st0 & Hcall0 & Hr).
    rewrite Hcall in Hcall0. injection Hcall0 as <- <-.
    destruct Hr as [[E _]|(_ & _ & _ & _ & Hok)]; [lia|].
    destruct Hok as (_ & _ & _ & new' & _ & _ & Hinv' & _).
    pose proof (registry_walk_spec _ _ (inv_registry _ _ Hinv')) as Hwalk'.
    assert (registry_walk st' = Some (l ++ new)) as Hwalk.
    { by apply linked_walk. }
    rewrite Hwalk in Hwalk'. injection Hwalk' as E.
    apply app_inv_head in E. by subst new'.
Qed.

Lemma msi_alloc_vectors_success_witness :
  linked (heap hand_added) (dev_msi_data hand_added) [2] ∧
  0 ≤ 3 ∧ 0 ≤ 7 ∧
  ∃ st',
    msi_alloc_vectors bump_env hand_added 3 7 0 = Some (4, st') ∧
    registry_num_vectors hand_added = Some 1 ∧
    registry_num_vectors st' = Some (1 + 4).
Proof.
  assert (linked (heap hand_added) (dev_msi_data hand_added) [2]) as Hlk.
  { eexists. split; [vm_compute; reflexivity|]. simpl.
    split; [|apply NoDup_singleton].
    split; [reflexivity|]. eexists. split; [vm_compute; reflexivity|].
    simpl. done. }
  split; [exact Hlk|]. do 2 (split; [lia|]).
  assert (∃ st', msi_alloc_vectors bump_env hand_added 3 7 0
                 = Some (4, st')) as [st' Hcall]
    by (eexists; vm_compute; reflexivity).
  exists st'. split; [exact Hcall|].
  destruct (msi_alloc_vectors_success bump_env hand_added [2] 3 7 0 4 st'
              Hlk ltac:(lia) ltac:(lia) Hcall ltac:(lia))
    as (_ & _ & (c & Hc & Hc' & _) & _).
  assert (registry_num_vectors hand_added = Some 1) as Hone
    by (vm_compute; reflexivity).
  rewrite Hone in Hc. apply (inj Some) in Hc. subst c.
  split; [exact Hone|exact Hc'].
Defined.


(** C2 as stated does not hold in one direction: with [min_vecs = max_vecs
    = 4] the power of two chosen is 4, which is not below [min_vecs], and
    yet the call fails, because the third descriptor gets no memory. *)
Lemma msi_alloc_vectors_fails_with_fitting_size :
  msi_nvec 4 = Some 4 ∧ ¬ 4 < 4 ∧
  msi_alloc_vectors (short_env 3) ready_device 4 4 0
    = Some (-1, ready_device).
Proof.
  split; [vm_compute; reflexivity|]. split; [lia|].
  vm_compute. reflexivity.
Qed.

(** C2, amended.  On a device with a registry and a domain: a call with
    [min_vecs = 0], [min_vecs > max_vecs] or [max_vecs > 32] fails; otherwise
    the size chosen is the largest power of two that is at most [max_vecs];
    the call fails whenever this power is below [min_vecs] (so always when
    [min_vecs = max_vecs] is not a power of two), which never happens when
    [min_vecs = 1]; with a size that fits the call is the reservation and
    population of a block of this size, and whenever it succeeds it returns
    this power of two.  When the list of the registry is well-formed the
    call returns, with this power or with -1; it succeeds exactly when the
    size fits, the domain reserves a block of this size and every turn of
    the population loop, entered in the state the turns before have left,
    gets memory for its descriptor and a non-zero virtual IRQ; and it fails
    exactly when the size does not fit, the domain has no block, or one of
    the turns gets no memory or no virtual IRQ. *)
Theorem msi_alloc_vectors_size_selection env st min_vecs max_vecs flags dom :
  dev_msi_data st ≠ NULL → dev_msi_domain st = Some dom →
  0 ≤ min_vecs → 0 ≤ max_vecs →
  let call := msi_alloc_vectors env st min_vecs max_vecs flags in
  (min_vecs = 0 ∨ max_vecs < min_vecs ∨ 32 < max_vecs →
   call = Some (-1, st)) ∧
  (1 ≤ min_vecs ≤ max_vecs → max_vecs ≤ 32 →
   let nvec := 2 ^ Z.log2 max_vecs in
   msi_nvec max_vecs = Some nvec ∧
   nvec ≤ max_vecs ∧ (∀ k, 0 ≤ k → 2 ^ k ≤ max_vecs → 2 ^ k ≤ nvec) ∧
   (nvec < min_vecs → call = Some (-1, st)) ∧
   (min_vecs ≤ nvec → call = msi_alloc_block env st nvec flags) ∧
   (min_vecs = max_vecs → (∀ k, 0 ≤ k → max_vecs ≠ 2 ^ k) →
    call = Some (-1, st)) ∧
   (min_vecs = 1 → min_vecs ≤ nvec) ∧
   (∀ r st', call = Some (r, st') → 0 ≤ r → r = nvec) ∧
   (∀ l, linked (heap st) (dev_msi_data st) l →
      (∃ r st', call = Some (r, st') ∧ (r = nvec ∨ r = -1)) ∧
      ((∃ st', call = Some (nvec, st')) ↔
       min_vecs ≤ nvec ∧
       ∃ base dom1,
         irq_domain_alloc_hwirq_range env dom nvec = Some (base, dom1) ∧
         ∀ j st_j, (j < Z.to_nat nvec)%nat →
           populate env j 0 (set_domain dom1 st) base flags
             = Some (None, st_j) →
           ¬ turn_fails env st_j base j) ∧
      ((∃ st', call = Some (-1, st')) ↔
       nvec < min_vecs ∨
       irq_domain_alloc_hwirq_range env dom nvec = None ∨
       ∃ base dom1 j st_j,
         irq_domain_alloc_hwirq_range env dom nvec = Some (base, dom1) ∧
         (j < Z.to_nat nvec)%nat ∧
         populate env j 0 (set_domain dom1 st) base flags
           = Some (None, st_j) ∧
         turn_fails env st_j base j))).
Proof.
  intros Hs Hdom Hmin Hmax call.
  assert (∀ rest,
    (if (dev_msi_data st =? NULL) || bool_decide (dev_msi_domain st = None)
        || (min_vecs =? 0) || (max_vecs <? min_vecs)
        || (MSI_MAX_VECTORS <? max_vecs)
     then Some (-1, st) else rest) =
    (if (min_vecs =? 0) || (max_vecs <? min_vecs) || (32 <? max_vecs)
     then Some (-1, st) else rest)) as Hguard.
  { intros rest. destruct (Z.eqb_spec (dev_msi_data st) NULL); [done|].
    rewrite bool_decide_eq_false_2 by (by rewrite Hdom). done. }
  split.
  - intros Hbad. unfold call, msi_alloc_vectors. rewrite Hguard.
    destruct (Z.eqb_spec min_vecs 0); [done|].
    destruct (Z.ltb_spec max_vecs min_vecs); [done|].
    destruct (Z.ltb_spec 32 max_vecs); [done|]. lia.
  - intros Hmm H32 nvec.
    pose proof (Z.log2_nonneg max_vecs) as Hlog.
    pose proof (Z.log2_spec max_vecs ltac:(lia)) as [Hlo Hhi].
    assert (0 < nvec) as Hpos by (apply Z.pow_pos_nonneg; lia).
    assert (call = if nvec <? min_vecs then Some (-1, st)
                   else msi_alloc_block env st nvec flags) as Hcall.
    { unfold call, msi_alloc_vectors. rewrite Hguard.
      destruct (Z.eqb_spec min_vecs 0); [lia|].
      destruct (Z.ltb_spec max_vecs min_vecs); [lia|].
      destruct (Z.ltb_spec 32 max_vecs); [lia|]. simpl.
      rewrite msi_nvec_spec by lia. done. }
    assert (nvec < min_vecs → call = Some (-1, st)) as Hsmall.
    { intros Hlt. rewrite Hcall.
      destruct (Z.ltb_spec nvec min_vecs); [done|lia]. }
    assert (min_vecs ≤ nvec → call = msi_alloc_block env st nvec flags)
      as Hfits.
    { intros Hfit. rewrite Hcall.
      destruct (Z.ltb_spec nvec min_vecs); [lia|done]. }
    split; [apply msi_nvec_spec; lia|]. split; [done|].
    split; [|split; [done|split; [done|split; [|split; [|split]]]]].
    + intros k Hk Hle. apply Z.pow_le_mono_r; [lia|].
      destruct (Z.le_gt_cases k (Z.log2 max_vecs)) as [|Hgt]; [done|].
      assert (2 ^ Z.succ (Z.log2 max_vecs) ≤ 2 ^ k)
        by (apply Z.pow_le_mono_r; lia). lia.
    + intros -> Hnp. apply Hsmall.
      specialize (Hnp (Z.log2 max_vecs) Hlog). unfold nvec. lia.
    + intros ->. unfold nvec. lia.
    + intros r st' Hr Hr0. rewrite Hcall in Hr.
      destruct (Z.ltb_spec nvec min_vecs).
      * injection Hr as <- _. lia.
      * apply msi_alloc_block_result in Hr as [E|E]; [lia|done].
    + intros l Hlk. pose proof Hlk as (m & Hm & _).
      pose proof (device_intro _ _ _ _ Hs Hdom Hlk Hm) as Hdev.
      destruct (Z.lt_ge_cases nvec min_vecs) as [Hlt|Hfit].
      { specialize (Hsmall Hlt). split; [|split].
        - exists (-1), st. split; [done|by right].
        - split; [|intros [? _]; lia].
          intros [st' Hsucc]. rewrite Hsmall in Hsucc.
          injection Hsucc as E _. lia.
        - split; [by left|]. intros _. by exists st. }
      rewrite (Hfits Hfit).
      destruct (msi_alloc_block_linked env st l _ dom nvec flags Hdev Hdom
                  ltac:(lia)) as (r & st' & Hblock & Hr).
      pose proof Hdom as Hdom1.
      assert (∀ base dom1 st1,
        irq_domain_alloc_hwirq_range env dom nvec = Some (base, dom1) →
        populate env (Z.to_nat nvec) 0 (set_domain dom1 st) base flags
          = Some (None, st1) →
        ∀ j st_j, (j < Z.to_nat nvec)%nat →
          populate env j 0 (set_domain dom1 st) base flags
            = Some (None, st_j) →
          ¬ turn_fails env st_j base j) as Hturns.
      { intros base dom1 st1 Halloc Hpop.
        destruct (alloc_hwirq_range_Some _ _ _ _ _ Halloc)
          as (Hb0 & Hb1 & _).
        apply (populate_success_iff env base flags (Z.to_nat nvec)
                 (set_domain dom1 st) l m dom1); try done; [lia|].
        by exists st1. }
      split; [|split].
      * exists r, st'. split; [done|].
        destruct Hr as [(-> & _)|(-> & _)]; [by right|by left].
      * split.
        -- intros [st1 Hsucc]. split; [done|].
           rewrite Hblock in Hsucc. injection Hsucc as -> <-.
           destruct Hr as [(E & _)|(_ & base & dom1 & new & Halloc & Hpop & _)];
             [lia|].
           exists base, dom1. split; [done|]. by apply (Hturns base dom1 st').
        -- intros (_ & base & dom1 & Halloc & Hall).
           destruct Hr as [(-> & _ & Hcause)|(-> & _)]; [|by exists st'].
           exfalso. destruct Hcause
             as [E|(base' & dom1' & j & st_j & Halloc' & Hj & Hpre & Hturn)];
             [congruence|].
           rewrite Halloc in Halloc'. injection Halloc' as <- <-.
           by apply (Hall j st_j).
      * split.
        -- intros [st1 Hfail]. right.
           rewrite Hblock in Hfail. injection Hfail as -> <-.
           destruct Hr as [(_ & _ & Hcause)|(E & _)]; [done|lia].
        -- intros [?|Hcause]; [lia|].
           destruct Hr as [(-> & _)|(-> & base & dom1 & new & Halloc & Hpop & _)];
             [by exists st'|].
           exfalso. destruct Hcause
             as [E|(base' & dom1' & j & st_j & Halloc' & Hj & Hpre & Hturn)];
             [congruence|].
           rewrite Halloc in Halloc'. injection Halloc' as <- <-.
           by apply (Hturns base dom1 st' Halloc Hpop j st_j).
Qed.

Lemma msi_alloc_vectors_size_selection_witness :
  dev_msi_data ready_device ≠ NULL ∧
  dev_msi_domain ready_device = Some (IrqDomain ∅ ∅) ∧
  linked (heap ready_device) (dev_msi_data ready_device) [] ∧
  msi_alloc_vectors bump_env ready_device 7 7 0 = Some (-1, ready_device) ∧
  (∃ st', msi_alloc_vectors bump_env ready_device 3 7 0 = Some (4, st')) ∧
  ∃ base dom1 j st_j,
    irq_domain_alloc_hwirq_range (short_env 3) (IrqDomain ∅ ∅) 4
      = Some (base, dom1) ∧
    (j < 4)%nat ∧
    populate (short_env 3) j 0 (set_domain dom1 ready_device) base 0
      = Some (None, st_j) ∧
    turn_fails (short_env 3) st_j base j.
Proof.
  assert (dev_msi_data ready_device ≠ NULL) as Hs by (by vm_compute).
  assert (dev_msi_domain ready_device = Some (IrqDomain ∅ ∅)) as Hdom
    by (by vm_compute).
  pose proof (registry_linked _ _ _ (inv_registry _ _ ready_device_inv))
    as Hlk.
  split; [exact Hs|]. split; [exact Hdom|]. split; [exact Hlk|].
  split; [|split].
  - destruct (msi_alloc_vectors_size_selection bump_env ready_device 7 7 0
                (IrqDomain ∅ ∅) Hs Hdom ltac:(lia) ltac:(lia))
      as [_ Hsel].
    destruct (Hsel ltac:(lia) ltac:(lia)) as (_ & _ & _ & Hfail & _).
    apply Hfail. by vm_compute.
  - destruct (msi_alloc_vectors_size_selection bump_env ready_device 3 7 0
                (IrqDomain ∅ ∅) Hs Hdom ltac:(lia) ltac:(lia))
      as [_ Hsel].
    destruct (Hsel ltac:(lia) ltac:(lia))
      as (_ & _ & _ & _ & _ & _ & _ & _ & Hlist).
    destruct (Hlist [] Hlk) as ((r & st' & Hcall & Hr) & _).
    assert (fst <$> msi_alloc_vectors bump_env ready_device 3 7 0 = Some 4)
      as Hfour by (vm_compute; reflexivity).
    rewrite Hcall in Hfour. apply (inj Some) in Hfour. simpl in Hfour.
    subst r. by exists st'.
  - destruct (msi_alloc_vectors_size_selection (short_env 3) ready_device 4 4
                0 (IrqDomain ∅ ∅) Hs Hdom ltac:(lia) ltac:(lia))
      as [_ Hsel].
    destruct (Hsel ltac:(lia) ltac:(lia))
      as (_ & _ & _ & _ & _ & _ & _ & _ & Hlist).
    destruct (Hlist [] Hlk) as (_ & _ & [Hcause _]).
    destruct (Hcause (ex_intro _ ready_device alloc_partial_failure))
      as [Hlt|[Hnone|Hturn]].
    + vm_compute in Hlt. discriminate Hlt.
    + vm_compute in Hnone. discriminate Hnone.
    + exact Hturn.
Defined.


Lemma hand_added_linked :
  linked (heap hand_added) (dev_msi_data hand_added) [2].
Proof.
  eexists. split; [vm_compute; reflexivity|]. simpl.
  split; [|apply NoDup_singleton].
  split; [reflexivity|]. eexists. split; [vm_compute; reflexivity|].
  simpl. done.
Qed.

Lemma hand_added_device : device hand_added [2] 1.
Proof.
  split; [intros E; vm_compute in E; discriminate E|].
  split; [eexists; vm_compute; reflexivity|].
  split; [exact hand_added_linked|]. vm_compute. reflexivity.
Qed.

(** A sequence of allocation requests [(min_vecs, max_vecs, flags)], each
    served with the answers the allocator and the domain give at that time;
    each may succeed or fail. *)
Fixpoint alloc_requests (st : state)
    (reqs : list (environment * (Z * Z * Z))) : option state :=
  match reqs with
  | [] => Some st
  | (env, (min_vecs, max_vecs, flags)) :: reqs =>
      '(_, st) ← msi_alloc_vectors env st min_vecs max_vecs flags;
      alloc_requests st reqs
  end.

Definition valid_request (req : environment * (Z * Z * Z)) : Prop :=
  0 ≤ req.2.1.1 ∧ 0 ≤ req.2.1.2.

(** Allocation requests keep the list well-formed, and [num_vectors] as
    far ahead of the length of the list as it was. *)
Lemma alloc_requests_device reqs : ∀ st l c,
  device st l c → Forall valid_request reqs →
  ∃ st' l',
    alloc_requests st reqs = Some st' ∧
    device st' l' (Z.of_nat (length l') + (c - Z.of_nat (length l))).
Proof.
  induction reqs as [|[env [[mn mx] fl]] reqs IH]; intros st l c Hdev Hreqs.
  { exists st, l. split; [done|].
    by replace (Z.of_nat (length l) + (c - Z.of_nat (length l))) with c
      by lia. }
  inversion Hreqs as [|? ? [Hmn Hmx] Hreqs']. subst. simpl in Hmn, Hmx.
  destruct (msi_alloc_vectors_linked env st l c mn mx fl Hdev Hmn Hmx)
    as (r & st1 & Hcall & Hr).
  cbn [alloc_requests]. rewrite Hcall. cbn [mbind option_bind].
  destruct Hr as [(_ & _ & _ & _ & l1 & c1 & Hdev1 & Hc1)
                 |(_ & _ & _ & _ & dom & base & dom1 & new & _ & _ & Hok)].
  - destruct (IH st1 l1 c1 Hdev1 Hreqs') as (st' & l' & Hrest & Hdev').
    exists st', l'. split; [done|].
    by replace (c - Z.of_nat (length l)) with (c1 - Z.of_nat (length l1))
      by lia.
  - pose proof (block_appended_device _ _ _ _ _ _ _ _ Hdev Hok) as Hdev1.
    destruct Hok as (_ & _ & _ & _ & _ & Hlen & _).
    destruct (IH st1 _ _ Hdev1 Hreqs') as (st' & l' & Hrest & Hdev').
    exists st', l'. split; [done|].
    rewrite length_app in Hdev'.
    by replace (c - Z.of_nat (length l))
      with (c + r - Z.of_nat (length l + length new)) by lia.
Qed.





(** ** Reference counts, whatever the shape of the list

    [count_at h x]: the reference count of the descriptor at [x], when
    there is one. *)
Definition count_at (h : gmap Z object) (x : Z) : option Z :=
  refcount <$> load_desc h x.

(** Every live descriptor is counted at least once. *)
Definition counted (h : gmap Z object) : Prop :=
  ∀ x d, h !! x = Some (ODesc d) → 1 ≤ refcount d.

Lemma count_at_Some h x c :
  count_at h x = Some c ↔ ∃ d, h !! x = Some (ODesc d) ∧ refcount d = c.
Proof.
  unfold count_at, load_desc. destruct (h !! x) as [[d|m]|]; simpl.
  - split; [intros [= <-]; by exists d|].
    intros (d' & [= <-] & <-). done.
  - split; [done|]. by intros (d' & ? & _).
  - split; [done|]. by intros (d' & ? & _).
Qed.

Lemma count_at_None h x :
  count_at h x = None ↔ ∀ d, h !! x ≠ Some (ODesc d).
Proof.
  unfold count_at, load_desc. destruct (h !! x) as [[d|m]|]; simpl.
  - split; [done|]. intros Hd. by destruct (Hd d).
  - done.
  - done.
Qed.

(** A store that leaves the reference count of a descriptor alone. *)
Definition keeps_count (f : object → object) : Prop :=
  (∀ d, ∃ d', f (ODesc d) = ODesc d' ∧ refcount d' = refcount d) ∧
  (∀ m, ∃ m', f (OData m) = OData m').

Lemma keeps_count_next v : keeps_count (obj_set_next v).
Proof. split; intros ?; by eexists. Qed.
Lemma keeps_count_prev v : keeps_count (obj_set_prev v).
Proof. split; intros ?; by eexists. Qed.
Lemma keeps_count_data f : keeps_count (on_data f).
Proof. split; intros ?; by eexists. Qed.
Lemma keeps_count_desc f :
  (∀ d, refcount (f d) = refcount d) → keeps_count (on_desc f).
Proof. intros Hf. split; intros ?; by eexists. Qed.

Lemma count_at_alter h f p x :
  keeps_count f → count_at (alter f p h) x = count_at h x.
Proof.
  intros [Hd Hm]. unfold count_at, load_desc. rewrite lookup_alter.
  case_decide as E; [subst p|done].
  destruct (h !! x) as [[d|m]|]; simpl; [| |done].
  - destruct (Hd d) as (d' & -> & Hc). simpl. by rewrite Hc.
  - by destruct (Hm m) as (m' & ->).
Qed.

Lemma count_at_delete h p x :
  count_at (delete p h) x = if decide (x = p) then None else count_at h x.
Proof.
  unfold count_at, load_desc. rewrite lookup_delete.
  case_decide; case_decide; try done; congruence.
Qed.

Lemma count_at_insert h p o x :
  count_at (<[p := o]> h) x =
    if decide (x = p)
    then match o with ODesc d => Some (refcount d) | OData _ => None end
    else count_at h x.
Proof.
  unfold count_at, load_desc. rewrite lookup_insert.
  destruct (decide (p = x)) as [->|Hne].
  - rewrite decide_True by done. by destruct o.
  - by rewrite decide_False by congruence.
Qed.

Lemma count_at_set_refcount h p v x :
  count_at (alter (on_desc (desc_set_refcount v)) p h) x =
    if decide (x = p) then (λ _, v) <$> count_at h x else count_at h x.
Proof.
  unfold count_at, load_desc. rewrite lookup_alter.
  destruct (decide (p = x)) as [->|Hne].
  - rewrite decide_True by done. by destruct (h !! x) as [[d|m]|].
  - by rewrite decide_False by congruence.
Qed.

Lemma store_list_inv h p f h' :
  store_list h p f = Some h' → h' = alter f p h.
Proof. unfold store_list. destruct (h !! p); [|done]. by intros [= <-]. Qed.

Lemma store_desc_inv h p f h' :
  store_desc h p f = Some h' → h' = alter (on_desc f) p h.
Proof.
  unfold store_desc. destruct (h !! p) as [[d|m]|]; [|done|done].
  by intros [= <-].
Qed.

Lemma store_data_inv h p f h' :
  store_data h p f = Some h' → h' = alter (on_data f) p h.
Proof.
  unfold store_data. destruct (h !! p) as [[d|m]|]; [done| |done].
  by intros [= <-].
Qed.

Lemma kfree_inv h p h' : kfree h p = Some h' → h' = delete p h.
Proof. unfold kfree. destruct (h !! p); [|done]. by intros [= <-]. Qed.

Lemma load_desc_inv h p d : load_desc h p = Some d → h !! p = Some (ODesc d).
Proof.
  unfold load_desc. destruct (h !! p) as [[d'|m]|]; [|done|done].
  by intros [= <-].
Qed.

(** One step of a monadic computation that has a result. *)
Tactic Notation "run" hyp(H) "as" ident(v) ident(E) :=
  match type of H with
  | ?e ≫= _ = Some _ =>
      destruct e as [v|] eqn:E; cbn [mbind option_bind] in H;
        [|discriminate H]
  end.

Lemma list_unlink_counts h p h' :
  list_unlink h p = Some h' → ∀ x, count_at h' x = count_at h x.
Proof.
  unfold list_unlink. intros H x.
  run H as l1 L1. run H as h1 E1. run H as l2 L2.
  apply store_list_inv in E1 as ->. apply store_list_inv in H as ->.
  by rewrite !count_at_alter
    by first [apply keeps_count_prev|apply keeps_count_next].
Qed.

(** [msi_desc_list_add_locked] counts the descriptor once more and leaves
    the other counts alone. *)
Lemma list_add_locked_counts h s a r h' :
  msi_desc_list_add_locked h s a = Some (r, h') →
  (r = -1 ∧ h' = h) ∨
  (r = 0 ∧ ∃ c, count_at h a = Some c ∧
     ∀ x, count_at h' x = if decide (x = a) then Some (c + 1)
                          else count_at h x).
Proof.
  unfold msi_desc_list_add_locked. destruct (_ || _).
  { intros [= <- <-]. by left. }
  intros H. right.
  run H as h1 E1. run H as m1 L1. run H as h2 E2. run H as m2 L2.
  run H as h3 E3. run H as h4 E4. run H as m3 L3. run H as h5 E5.
  run H as d L4. run H as h6 E6. injection H as <- <-. split; [done|].
  apply store_desc_inv in E1 as ->. apply store_desc_inv in E2 as ->.
  apply store_list_inv in E3 as ->. apply store_data_inv in E4 as ->.
  apply store_data_inv in E5 as ->. apply store_desc_inv in E6 as ->.
  apply load_desc_inv in L4.
  set (h5 := alter (on_data (data_set_num_vectors _)) s _) in *.
  assert (∀ x, count_at h5 x = count_at h x) as Hsame.
  { intros x. unfold h5.
    by rewrite !count_at_alter
      by first [apply keeps_count_data|apply keeps_count_next
               |by apply keeps_count_desc]. }
  exists (refcount d). split.
  { rewrite <- Hsame. apply count_at_Some. by exists d. }
  intros x. rewrite count_at_set_refcount. case_decide; [|done].
  subst x. unfold count_at. by rewrite (load_desc_Some _ _ _ L4).
Qed.

(** [msi_desc_free] on the counts: the count of the descriptor goes down by
    one, and the descriptor is gone when this leaves nothing; the other
    counts stay. *)
Lemma msi_desc_free_counts h a h' :
  msi_desc_free h a = Some h' →
  (a = NULL ∧ h' = h) ∨
  ∃ d, h !! a = Some (ODesc d) ∧
    (h' !! a = None ↔ refcount d - 1 ≤ 0) ∧
    ∀ x, count_at h' x =
           if decide (x = a)
           then (if decide (0 < refcount d - 1) then Some (refcount d - 1)
                 else None)
           else count_at h x.
Proof.
  unfold msi_desc_free. destruct (Z.eqb_spec a NULL) as [->|Ha].
  { intros [= <-]. by left. }
  intros H. right. run H as d L1. run H as h1 E1. run H as d1 L2.
  apply load_desc_inv in L1. exists d. split; [done|].
  apply store_desc_inv in E1 as ->.
  apply load_desc_inv in L2. rewrite lookup_alter_eq, L1 in L2.
  injection L2 as <-. simpl in H.
  destruct (Z.ltb_spec 0 (refcount d - 1)) as [Hpos|Hzero].
  { injection H as <-. split.
    - rewrite lookup_alter_eq, L1. simpl. split; [done|lia].
    - intros x. rewrite count_at_set_refcount.
      case_decide; [|done]. subst x. rewrite decide_True by done.
      unfold count_at. by rewrite (load_desc_Some _ _ _ L1). }
  run H as h2 E2. apply kfree_inv in H as ->. split.
  - rewrite lookup_delete_eq. split; [lia|done].
  - intros x. rewrite count_at_delete.
    case_decide; [by rewrite decide_False by lia|].
    assert (count_at h2 x
            = count_at (alter (on_desc (desc_set_refcount (refcount d - 1)))
                          a h) x) as ->.
    { destruct (_ =? _); [by injection E2 as <-|].
      by apply (list_unlink_counts _ a). }
    rewrite count_at_set_refcount. by rewrite decide_False by done.
Qed.

(** The rollback and [msi_free_vectors] free descriptors and change no
    count. *)
Lemma cleanup_scan_counts fuel : ∀ st hw d st',
  cleanup_scan fuel st hw d = Some st' →
  ∀ x c, count_at (heap st') x = Some c → count_at (heap st) x = Some c.
Proof.
  induction fuel as [|fuel IH]; intros st hw d st'; [done|].
  cbn [cleanup_scan]. destruct (d =? dev_msi_data st).
  { by intros [= <-]. }
  intros H. run H as dd L1.
  destruct (hwirq dd =? hw); [|by apply (IH st hw (next (desc_list dd)) st')].
  run H as dom L2. run H as h1 E1. run H as m L3. run H as h2 E2.
  run H as h3 E3. injection H as <-. simpl. intros x c.
  apply kfree_inv in E3 as ->. apply store_data_inv in E2 as ->.
  rewrite count_at_delete. case_decide; [done|].
  rewrite count_at_alter by apply keeps_count_data.
  by rewrite (list_unlink_counts _ _ _ E1).
Qed.

Lemma cleanup_counts base i : ∀ st st',
  cleanup i st base = Some st' →
  ∀ x c, count_at (heap st') x = Some c → count_at (heap st) x = Some c.
Proof.
  induction i as [|i IH]; intros st st'; cbn [cleanup].
  { by intros [= <-]. }
  intros H. run H as st1 E1. intros x c Hc.
  unfold cleanup_step in E1. run E1 as m L1.
  apply (cleanup_scan_counts _ _ _ _ _ E1).
  by apply (IH st1 st').
Qed.

Lemma free_walk_counts fuel : ∀ st d st',
  free_walk fuel st d = Some st' →
  ∀ x c, count_at (heap st') x = Some c → count_at (heap st) x = Some c.
Proof.
  induction fuel as [|fuel IH]; intros st d st'; [done|].
  cbn [free_walk]. destruct (d =? dev_msi_data st).
  { by intros [= <-]. }
  intros H. run H as dd L1. run H as dom L2. run H as h1 E1.
  run H as m L3. run H as h2 E2. run H as h3 E3. intros x c Hc.
  apply (IH _ _ _ H) in Hc. simpl in Hc.
  apply kfree_inv in E3 as ->. apply store_data_inv in E2 as ->.
  rewrite count_at_delete in Hc. case_decide; [done|].
  rewrite count_at_alter in Hc by apply keeps_count_data.
  by rewrite (list_unlink_counts _ _ _ E1) in Hc.
Qed.

Lemma msi_free_vectors_counts st st' :
  msi_free_vectors st = Some st' →
  ∀ x c, count_at (heap st') x = Some c → count_at (heap st) x = Some c.
Proof.
  unfold msi_free_vectors. destruct (_ || _); [by intros [= <-]|].
  intros H. run H as m L1. by apply (free_walk_counts _ _ _ _ H).
Qed.

(** [msi_device_cleanup] lowers counts, and frees a descriptor whose count
    it has brought to 0: descriptors that were counted stay counted. *)
Lemma device_cleanup_walk_counted fuel : ∀ h s d h',
  device_cleanup_walk fuel h s d = Some h' → counted h → counted h'.
Proof.
  induction fuel as [|fuel IH]; intros h s d h'; [done|].
  cbn [device_cleanup_walk]. destruct (d =? s); [by intros [= <-]|].
  intros H. run H as d0 L1. run H as h1 E1. run H as d1 L2.
  run H as h2 E2. run H as d2 L3. run H as h3 E3. intros Hcounted.
  apply (IH _ _ _ _ H). clear H IH.
  apply load_desc_inv in L2. apply store_desc_inv in E2 as ->.
  apply load_desc_inv in L3. rewrite lookup_alter_eq, L2 in L3.
  injection L3 as <-. simpl in E3.
  assert (1 ≤ refcount d1) as Hone.
  { assert (count_at h1 d = Some (refcount d1)) as Hc
      by (apply count_at_Some; by exists d1).
    rewrite (list_unlink_counts _ _ _ E1) in Hc.
    apply count_at_Some in Hc as (d' & Hd' & <-). by apply (Hcounted d). }
  assert (∀ x c, count_at h3 x = Some c → 1 ≤ c) as Hc3.
  { intros x c.
    assert (count_at h3 x =
              if decide (x = d)
              then (if decide (refcount d1 - 1 = 0) then None
                    else Some (refcount d1 - 1))
              else count_at h x) as ->.
    { destruct (Z.eqb_spec (refcount d1 - 1) 0) as [Hz|Hz].
      - apply kfree_inv in E3 as ->. rewrite count_at_delete.
        case_decide; [by rewrite decide_True by done|].
        rewrite count_at_set_refcount, decide_False by done.
        by apply (list_unlink_counts _ d).
      - injection E3 as <-. rewrite count_at_set_refcount.
        case_decide; [|by apply (list_unlink_counts _ d)].
        subst x. rewrite decide_False by done.
        unfold count_at. by rewrite (load_desc_Some _ _ _ L2). }
    case_decide.
    - case_decide; [done|]. intros [= <-]. lia.
    - intros (d' & Hd' & <-)%count_at_Some. by apply (Hcounted x). }
  intros x dx Hdx. apply (Hc3 x). apply count_at_Some. by exists dx.
Qed.

Lemma msi_device_cleanup_counted st st' :
  msi_device_cleanup st = Some st' → counted (heap st) → counted (heap st').
Proof.
  unfold msi_device_cleanup. destruct (_ =? _); [by intros [= <-]|].
  intros H Hcounted. run H as m L1. run H as h1 E1. run H as h2 E2.
  injection H as <-. simpl. apply kfree_inv in E2 as ->.
  pose proof (device_cleanup_walk_counted _ _ _ _ _ E1 Hcounted) as Hc.
  intros x d. rewrite lookup_delete. case_decide; [done|]. apply Hc.
Qed.


(** The counts after [msi_alloc_vectors]: a descriptor that is live after
    the call has the count it had before, or is new and counted twice. *)
Definition counts_evolve (h h' : gmap Z object) : Prop :=
  ∀ x c', count_at h' x = Some c' →
    count_at h x = Some c' ∨ (count_at h x = None ∧ c' = 2).

Lemma counts_evolve_refl h : counts_evolve h h.
Proof. intros x c' Hc. by left. Qed.

Section Counts.

Variable env : environment.

Lemma populate_body_counts st base flags i r :
  populate_body env st base flags i = Some r →
  match r with
  | GotoCleanup st' => ∀ x, count_at (heap st') x = count_at (heap st) x
  | Continue st' =>
      ∃ a, count_at (heap st) a = None ∧
        ∀ x, count_at (heap st') x =
               if decide (x = a) then Some 2 else count_at (heap st) x
  end.
Proof.
  unfold populate_body. intros H. run H as dom Hdom.
  unfold msi_desc_alloc_internal in H. cbv zeta in H.
  destruct (kmalloc_spec env (heap st)) as [E|[Hne Hfresh]].
  { rewrite E in H. simpl in H. by injection H as <-. }
  set (a := kmalloc env (heap st)) in *.
  assert ((a =? NULL) = false) as Hanull by (by apply Z.eqb_neq).
  rewrite Hanull in H. simpl in H. rewrite Hanull in H.
  assert (count_at (heap st) a = None) as Hnone.
  { apply count_at_None. intros d. by rewrite Hfresh. }
  revert H. repeat heap_step.
  destruct (irq_create_mapping env dom _) as [virq dom'] eqn:Hcreate.
  repeat heap_step. rewrite prepare_desc.
  set (D := MsiDesc _ _ _ _ _ _).
  destruct (virq =? 0).
  { repeat heap_step. intros [= <-]. simpl. intros x.
    rewrite count_at_delete, count_at_insert.
    case_decide; [by subst|done]. }
  intros H. run H as rh Hadd. destruct rh as [r' h'].
  apply list_add_locked_counts in Hadd
    as [[-> ->]|(-> & c & Hc & Hcounts)]; simpl in H.
  - revert H. repeat heap_step. intros [= <-]. simpl. intros x.
    rewrite count_at_delete, count_at_insert.
    case_decide; [by subst|done].
  - injection H as <-. simpl. exists a. split; [done|].
    rewrite count_at_insert, decide_True in Hc by done.
    injection Hc as <-. intros x. rewrite Hcounts.
    case_decide; [done|]. rewrite count_at_insert.
    by rewrite decide_False by done.
Qed.

Lemma populate_counts n : ∀ i st base flags r st',
  populate env n i st base flags = Some (r, st') →
  ∀ x, count_at (heap st') x = count_at (heap st) x ∨
       (count_at (heap st) x = None ∧ count_at (heap st') x = Some 2).
Proof.
  induction n as [|n IH]; intros i st base flags r st'; cbn [populate].
  { intros [= <- <-] x. by left. }
  intros H. run H as r1 Hbody.
  apply populate_body_counts in Hbody. destruct r1 as [st1|st1].
  - destruct Hbody as (a & Hnone & Hcounts). intros x.
    destruct (IH _ _ _ _ _ _ H x) as [Hc|[Hc1 Hc2]]; rewrite Hcounts in *.
    + case_decide; [subst; right|left]; by rewrite Hc.
    + case_decide; [done|]. by right.
  - injection H as <- <-. intros x. left. apply Hbody.
Qed.

Lemma msi_alloc_vectors_counts st min_vecs max_vecs flags r st' :
  msi_alloc_vectors env st min_vecs max_vecs flags = Some (r, st') →
  counts_evolve (heap st) (heap st').
Proof.
  unfold msi_alloc_vectors. destruct (_ || _).
  { intros [= <- <-]. apply counts_evolve_refl. }
  intros H. run H as nvec Hnvec. destruct (nvec <? min_vecs).
  { injection H as <- <-. apply counts_evolve_refl. }
  unfold msi_alloc_block in H. run H as dom Hdom.
  destruct (irq_domain_alloc_hwirq_range env dom nvec) as [[base dom1]|].
  2: { injection H as <- <-. apply counts_evolve_refl. }
  run H as res Hpop. destruct res as [[j|] st1].
  - run H as st2 Hclean. run H as dom2 Hdom2. injection H as <- <-.
    simpl. intros x c' Hc.
    apply (cleanup_counts _ _ _ _ Hclean) in Hc.
    pose proof (populate_counts _ _ _ _ _ _ _ Hpop x) as Hx.
    change (heap (set_domain dom1 st)) with (heap st) in Hx.
    destruct Hx as [E|[E1 E2]].
    + left. by rewrite <- E.
    + right. split; [done|]. congruence.
  - injection H as <- <-. intros x c' Hc.
    pose proof (populate_counts _ _ _ _ _ _ _ Hpop x) as Hx.
    change (heap (set_domain dom1 st)) with (heap st) in Hx.
    destruct Hx as [E|[E1 E2]].
    + left. by rewrite <- E.
    + right. split; [done|]. congruence.
Qed.

End Counts.

Lemma counts_evolve_counted h h' :
  counts_evolve h h' → counted h → counted h'.
Proof.
  intros Hev Hcounted x d Hd.
  destruct (Hev x (refcount d)) as [Hc|[_ ->]]; [|..|lia].
  - apply count_at_Some. by exists d.
  - apply count_at_Some in Hc as (d0 & Hd0 & <-). by apply (Hcounted x).
Qed.

Lemma counts_kept_counted (h h' : gmap Z object) :
  (∀ x c, count_at h' x = Some c → count_at h x = Some c) →
  counted h → counted h'.
Proof.
  intros Hkept Hcounted x d Hd.
  destruct (proj1 (count_at_Some h x (refcount d))) as (d0 & Hd0 & <-).
  - apply Hkept. apply count_at_Some. by exists d.
  - by apply (Hcounted x).
Qed.

(** The walk of the tests only visits live descriptors. *)
Lemma walk_live fuel : ∀ h s p l,
  walk fuel h s p = Some l → ∀ x, x ∈ l → ∃ d, h !! x = Some (ODesc d).
Proof.
  induction fuel as [|fuel IH]; intros h s p l; [done|].
  cbn [walk]. destruct (p =? s); [by intros [= <-] x ?%elem_of_nil|].
  intros H. run H as d L1. run H as rest L2. injection H as <-.
  intros x [->|Hx]%elem_of_cons.
  - exists d. by apply load_desc_inv.
  - by apply (IH _ _ _ _ L2).
Qed.

(** *** The states of a system that uses the interface of [msi.c]

    From a memory without descriptors, any calls of the exported functions
    that write, with any arguments and any answers of the allocator and the
    domain ([msi_mask_irq] and [msi_unmask_irq] write nothing). *)
Inductive api_reachable : state → Prop :=
  | api_start st :
      (∀ x d, heap st !! x ≠ Some (ODesc d)) → api_reachable st
  | api_device_init env st r st' :
      api_reachable st → msi_device_init env st = (r, st') →
      api_reachable st'
  | api_device_cleanup st st' :
      api_reachable st → msi_device_cleanup st = Some st' →
      api_reachable st'
  | api_desc_alloc env st dev nvec desc multiple h :
      api_reachable st →
      msi_desc_alloc env (heap st) dev nvec = Some (desc, multiple, h) →
      api_reachable (set_heap h st)
  | api_desc_free st desc h :
      api_reachable st → msi_desc_free (heap st) desc = Some h →
      api_reachable (set_heap h st)
  | api_desc_list_add st msi_data desc r h :
      api_reachable st →
      msi_desc_list_add (heap st) msi_data desc = Some (r, h) →
      api_reachable (set_heap h st)
  | api_desc_list_add_locked st msi_data desc r h :
      api_reachable st →
      msi_desc_list_add_locked (heap st) msi_data desc = Some (r, h) →
      api_reachable (set_heap h st)
  | api_alloc_vectors env st min_vecs max_vecs flags r st' :
      api_reachable st →
      msi_alloc_vectors env st min_vecs max_vecs flags = Some (r, st') →
      api_reachable st'
  | api_free_vectors st st' :
      api_reachable st → msi_free_vectors st = Some st' →
      api_reachable st'.

Lemma list_add_locked_counted h s desc r h' :
  counted h → msi_desc_list_add_locked h s desc = Some (r, h') → counted h'.
Proof.
  intros IH Hadd.
  apply list_add_locked_counts in Hadd
    as [[_ ->]|(_ & c & Hc & Hcounts)]; [done|].
  intros x dx Hdx.
  assert (count_at h' x = Some (refcount dx)) as Hcx
    by (apply count_at_Some; by exists dx).
  rewrite Hcounts in Hcx. case_decide.
  - injection Hcx as <-.
    apply count_at_Some in Hc as (d0 & Hd0 & <-).
    pose proof (IH desc d0 Hd0). lia.
  - apply count_at_Some in Hcx as (d0 & Hd0 & <-). by apply (IH x).
Qed.

Lemma api_reachable_counted st : api_reachable st → counted (heap st).
Proof.
  induction 1 as [st Hnone
                 |env st r st' _ IH Hinit
                 |st st' _ IH Hclean
                 |env st dv nvec desc multiple h _ IH Halloc
                 |st desc h _ IH Hfree
                 |st s desc r h _ IH Hadd
                 |st s desc r h _ IH Hadd
                 |env st mn mx fl r st' _ IH Hcall
                 |st st' _ IH Hfree].
  - intros x d Hd. by destruct (Hnone x d).
  - unfold msi_device_init in Hinit.
    destruct (_ =? _); injection Hinit as _ <-; [done|].
    simpl. intros x d. rewrite lookup_insert. case_decide; [done|].
    apply IH.
  - by apply (msi_device_cleanup_counted st).
  - apply msi_desc_alloc_inv in Halloc as [[_ ->]|(_ & _ & ->)]; [done|].
    simpl. intros x d. rewrite lookup_insert. case_decide; [|apply IH].
    by intros [= <-].
  - simpl. apply msi_desc_free_counts in Hfree
      as [[_ ->]|(d & Hd & _ & Hcounts)]; [done|].
    intros x dx Hdx.
    assert (count_at h x = Some (refcount dx)) as Hc
      by (apply count_at_Some; by exists dx).
    rewrite Hcounts in Hc. case_decide.
    + case_decide; [|done]. injection Hc as <-. lia.
    + apply count_at_Some in Hc as (d0 & Hd0 & <-). by apply (IH x).
  - simpl. unfold msi_desc_list_add in Hadd.
    destruct (_ || _); [by injection Hadd as _ <-|].
    by apply (list_add_locked_counted (heap st) s desc r).
  - by apply (list_add_locked_counted (heap st) s desc r).
  - apply (counts_evolve_counted (heap st)); [|done].
    by apply (msi_alloc_vectors_counts env st mn mx fl r).
  - apply (counts_kept_counted (heap st)); [|done].
    by apply msi_free_vectors_counts.
Qed.

(** [msi_device_cleanup] on any well-formed list. *)
Lemma msi_device_cleanup_linked st l :
  dev_msi_data st ≠ NULL → linked (heap st) (dev_msi_data st) l →
  ∃ m h st',
    heap st !! dev_msi_data st = Some (OData m) ∧
    device_cleanup_walk (walk_fuel (heap st)) (heap st) (dev_msi_data st)
      (next (data_list m)) = Some h ∧
    h !! dev_msi_data st =
      Some (OData (MsiDeviceData
              (ListHead (dev_msi_data st) (dev_msi_data st))
              (num_vectors m))) ∧
    msi_device_cleanup st = Some st' ∧
    heap st' = delete (dev_msi_data st) h ∧
    dev_msi_data st' = NULL ∧
    (∀ x dx, x ∈ l → heap st !! x = Some (ODesc dx) →
       if decide (refcount dx = 1) then heap st' !! x = None
       else ∃ dx', heap st' !! x = Some (ODesc dx') ∧
                   refcount dx' = refcount dx - 1 ∧
                   irq dx' = irq dx ∧ hwirq dx' = hwirq dx) ∧
    (∀ k, k ≠ dev_msi_data st → k ∉ l → heap st' !! k = heap st !! k).
Proof.
  intros Hs Hlk. pose proof (linked_length_lt _ _ _ Hlk) as Hlen.
  pose proof (linked_sentinel_notin _ _ _ Hlk) as Hsl.
  destruct Hlk as (m & Hm & Hseg & Hnd).
  destruct (device_cleanup_walk_spec l (walk_fuel (heap st)) (heap st)
              (dev_msi_data st) m Hm Hseg Hnd)
    as (h & Hwalk & Hsent & Hdescs & Hframe).
  { unfold walk_fuel. lia. }
  exists m, h. eexists. split; [done|]. split; [done|]. split; [done|].
  unfold msi_device_cleanup.
  destruct (Z.eqb_spec (dev_msi_data st) NULL); [done|].
  rewrite (load_data_Some _ _ _ Hm). cbn [mbind option_bind].
  rewrite Hwalk. cbn [mbind option_bind].
  rewrite (kfree_Some _ _ _ Hsent). simpl.
  split; [done|]. split; [done|]. split; [done|]. split.
  - intros x dx Hx Hdx. assert (x ≠ dev_msi_data st) by (by intros ->).
    simpl. rewrite lookup_delete_ne by done. by apply Hdescs.
  - intros k Hks Hkl. simpl. rewrite lookup_delete_ne by done.
    by apply Hframe.
Qed.

(** A descriptor that is live in [h] and gone in [h'] was at its last
    reference: the decrement has brought its count to zero. *)
Definition destroys_at_zero (h h' : gmap Z object) : Prop :=
  ∀ x d, h !! x = Some (ODesc d) → h' !! x = None → refcount d - 1 = 0.

Lemma msi_desc_free_at_zero h a h' :
  counted h → msi_desc_free h a = Some h' → destroys_at_zero h h'.
Proof.
  intros Hcounted Hfree x d Hd Hgone.
  pose proof (Hcounted x d Hd) as Hone.
  pose proof (msi_desc_free_only_at_zero _ _ _ Hfree x d Hd Hgone). lia.
Qed.

Lemma msi_device_cleanup_at_zero st l st' :
  dev_msi_data st ≠ NULL → linked (heap st) (dev_msi_data st) l →
  msi_device_cleanup st = Some st' →
  destroys_at_zero (heap st) (heap st').
Proof.
  intros Hs Hlk Hclean x d Hx Hgone.
  destruct (msi_device_cleanup_linked st l Hs Hlk)
    as (m & h & st0 & Hm & _ & _ & Hclean0 & _ & _ & Hdescs & Hframe).
  rewrite Hclean in Hclean0. injection Hclean0 as <-.
  destruct (decide (x = dev_msi_data st)) as [->|Hxs]; [congruence|].
  destruct (decide (x ∈ l)) as [Hxl|Hxl].
  - specialize (Hdescs x d Hxl Hx). case_decide; [lia|].
    destruct Hdescs as (d' & Hd' & _). congruence.
  - rewrite Hframe in Hgone by done. congruence.
Qed.


Lemma linked_set_refcount h s l a v :
  linked h s l → linked (alter (on_desc (desc_set_refcount v)) a h) s l.
Proof.
  intros (m & Hm & Hseg & Hnd). exists m.
  split.
  { rewrite lookup_alter. case_decide; [subst; by rewrite Hm|done]. }
  split; [|done]. apply (dseg_links h); [|done].
  intros x d _ Hd. rewrite lookup_alter.
  case_decide; [subst; rewrite Hd; by eexists|by exists d].
Qed.


Lemma lowered_vector_free :
  msi_desc_free (heap four_vectors) 3 = Some (heap lowered_vector).
Proof. vm_compute. reflexivity. Qed.

Lemma lowered_vector_reachable : api_reachable lowered_vector.
Proof.
  assert (lowered_vector = set_heap (heap lowered_vector) four_vectors) as E
    by (vm_compute; reflexivity).
  rewrite E.
  refine (api_desc_free four_vectors 3 (heap lowered_vector) _
            lowered_vector_free).
  refine (api_alloc_vectors bump_env ready_device 3 7 0 4 four_vectors _ _);
    [|vm_compute; reflexivity].
  refine (api_device_init bump_env fresh_device 0 ready_device _ _);
    [|vm_compute; reflexivity].
  refine (api_start fresh_device _).
  intros x d. unfold fresh_device. simpl. by rewrite lookup_empty.
Qed.

Lemma lowered_vector_linked :
  dev_msi_data lowered_vector ≠ NULL ∧
  linked (heap lowered_vector) (dev_msi_data lowered_vector) [2; 3; 4; 5].
Proof.
  assert (dev_msi_data lowered_vector = dev_msi_data four_vectors) as ->
    by (vm_compute; reflexivity).
  assert (heap lowered_vector
          = alter (on_desc (desc_set_refcount 1)) 3 (heap four_vectors))
    as -> by (vm_compute; reflexivity).
  split; [intros E; vm_compute in E; discriminate E|].
  apply linked_set_refcount, registry_linked.
  exact (inv_registry _ _ four_vectors_inv).
Qed.

(** ** The claims about reference counts *)











End Msi.

(** ** kernel/drivers/irqchip/riscv-imsic.c *)

Module Imsic.

Import Ffs.

(** Constants of [irqchip/riscv-imsic.h]. *)
Definition IMSIC_MAX_IDS : Z := 256.
Definition IMSIC_REG_SETEIPNUM : Z := 0x000.
Definition IMSIC_REG_CLREIPNUM : Z := 0x004.
Definition IMSIC_REG_EITHRESHOLD : Z := 0x070.
Definition IMSIC_REG_EIP_BASE : Z := 0x080.
Definition IMSIC_REG_EIE_BASE : Z := 0x0C0.

Definition NULL : Z := 0.

(** [struct imsic_file] and [struct imsic_data]; pointers are addresses. *)
Record imsic_file := ImsicFile {
  base : Z;
  hart_id : Z;
  num_ids : Z;
  pending_bitmap : Z;
  enabled_bitmap : Z;
}.

Record imsic_data := ImsicData {
  files : Z;
  num_harts : Z;
  data_num_ids : Z;
  base_ppn : Z;
  domain : Z;
  msi_domain : Z;
}.

(** Modelled from the spec: [struct resource] and [struct device]
    ([device/resource.h], [device/device.h]) are not among the sources.  A
    device has a name, its memory resources in index order, its
    device-tree properties, and the driver data pointer. *)
Record resource := Resource {
  start : Z;
  mapped_addr : Z;
}.

Record device := Device {
  name : string;
  mem_resources : list resource;
  properties : gmap string Z;
  driver_data : Z;
}.

(** Modelled from the spec: [device_get_resource(dev, RES_TYPE_MEM, index)]
    is the memory resource of that index, or NULL. *)
Definition device_get_resource_mem (dev : device) (index : nat)
  : option resource :=
  mem_resources dev !! index.

(** Modelled from the spec: [device_get_property_u32(dev, key, default)] is
    the value of the property, or the default when the device has none of
    this name. *)
Definition device_get_property_u32 (dev : device) (key : string) (def : Z)
  : Z :=
  default def (properties dev !! key).

(** Modelled from the spec: [device_set_driver_data(dev, ptr)]. *)
Definition device_set_driver_data (dev : device) (ptr : Z) : device :=
  Device (name dev) (mem_resources dev) (properties dev) ptr.

(** The file-scope statics of the driver. *)
Record driver_state := DriverState {
  primary_imsic_data : imsic_data;
  primary_imsic_file : imsic_file;
  imsic_initialized : bool;
}.

(** What the rest of the kernel decides: the addresses of the two statics,
    the domain [irq_domain_create_linear] returns for a size (NULL when it
    fails), the virtual IRQ [irq_find_mapping] returns for a hardware id of
    the controller's domain (0 for none), and the word an MMIO read of an
    address returns. *)
Record environment := Environment {
  primary_imsic_data_addr : Z;
  primary_imsic_file_addr : Z;
  irq_domain_create_linear : Z → Z;
  irq_find_mapping : Z → Z → Z;
  mmio_read32 : Z → Z;
}.

(** What a handler run does to the outside, in order. *)
Inductive event :=
  | MmioRead (addr : Z)
  | MmioWrite (addr val : Z)
  | GenericHandleIrq (virq : Z).

Global Instance event_eq_dec : EqDecision event.
Proof. solve_decision. Defined.

Section Model.

Variable env : environment.

(** [imsic_attach]: the return value, the statics and the device.  (The
    UART log lines are left out.) *)
Definition imsic_attach (dev : device) (st : driver_state)
  : Z * driver_state * device :=
  if imsic_initialized st then (-1, st, dev)
  else
    match device_get_resource_mem dev 0 with
    | None => (-1, st, dev)
    | Some res =>
        let file_base :=
          if mapped_addr res =? NULL then start res else mapped_addr res in
        let base_phys := start res in
        let file :=
          ImsicFile file_base 0
            (device_get_property_u32 dev "riscv,num-ids" IMSIC_MAX_IDS)
            NULL NULL in
        let dom := irq_domain_create_linear env (num_ids file) in
        let imsic :=
          ImsicData (primary_imsic_file_addr env) 1 (num_ids file)
                    (base_phys ≫ 12) dom 0 in
        if dom =? NULL
        then (-1, DriverState imsic file (imsic_initialized st), dev)
        else
          let imsic :=
            ImsicData (files imsic) (num_harts imsic) (data_num_ids imsic)
                      (base_ppn imsic) (domain imsic) NULL in
          (0, DriverState imsic file true,
           device_set_driver_data dev (primary_imsic_data_addr env))
    end.

(** [imsic_read_reg], [imsic_write_reg], [imsic_clear_pending]. *)
Definition imsic_read_reg (file : imsic_file) (reg : Z) : Z * list event :=
  (mmio_read32 env (base file + reg), [MmioRead (base file + reg)]).
Definition imsic_write_reg (file : imsic_file) (reg val : Z) : list event :=
  [MmioWrite (base file + reg) val].
Definition imsic_clear_pending (file : imsic_file) (id : Z) : list event :=
  imsic_write_reg file IMSIC_REG_CLREIPNUM id.

(** The scan loop of [imsic_handle_irq] with [n] words left, at index [i]:
    the value of [hwirq] after the loop and the reads made. *)
Fixpoint scan_pending (n : nat) (i : Z) (file : imsic_file)
  : Z * list event :=
  match n with
  | O => (0, [])
  | S n =>
      let '(pending, ev) :=
        imsic_read_reg file (IMSIC_REG_EIP_BASE + i * 4) in
      if pending =? 0 then
        let '(hwirq, ev') := scan_pending n (i + 1) file in (hwirq, ev ++ ev')
      else (wrap32 (i * 32 + ffs (to_int32 pending) - 1), ev)
  end.

(** [imsic_handle_irq]: the events of one run.  The loop bound
    [(imsic->num_ids + 31) / 32] is computed on [uint32_t].  The file is
    [imsic->files[0]], which is the static [primary_imsic_file] from the
    moment [imsic_attach] gives [num_ids] a value; before that the loop has
    no turn and the file is not read. *)
Definition imsic_handle_irq (st : driver_state) : list event :=
  let imsic := primary_imsic_data st in
  let file := primary_imsic_file st in
  let words := wrap32 (data_num_ids imsic + 31) / 32 in
  let '(hwirq, ev) := scan_pending (Z.to_nat words) 0 file in
  if hwirq =? 0 then ev
  else
    let virq := irq_find_mapping env (domain imsic) hwirq in
    ev ++ (if virq =? 0 then [] else [GenericHandleIrq virq])
       ++ imsic_clear_pending file hwirq.

End Model.


(** *** Attaching *)

(** C6.  [imsic_attach] fails when [imsic_initialized] is already set, and
    then changes nothing; it fails exactly in that case, when the device has
    no memory resource 0, or when the IRQ domain cannot be created; a failed
    attach leaves [imsic_initialized] as it was and a successful one sets it,
    so that every later attach fails and leaves it set. *)
Theorem imsic_attach_initialized env dev st r st' dev' :
  imsic_attach env dev st = (r, st', dev') →
  (imsic_initialized st = true → r = -1 ∧ st' = st ∧ dev' = dev) ∧
  (r = -1 ↔
     imsic_initialized st = true ∨
     device_get_resource_mem dev 0 = None ∨
     irq_domain_create_linear env
       (device_get_property_u32 dev "riscv,num-ids" IMSIC_MAX_IDS) = NULL) ∧
  (r = 0 ∨ r = -1) ∧
  (r ≠ 0 → imsic_initialized st' = imsic_initialized st) ∧
  (r = 0 → imsic_initialized st' = true) ∧
  (r = 0 → ∀ dev2,
     imsic_attach env dev2 st' = (-1, st', dev2) ∧
     imsic_initialized (imsic_attach env dev2 st').1.2 = true).
Proof.
  unfold imsic_attach.
  destruct (imsic_initialized st) eqn:Hinit.
  { intros [= <- <- <-]. rewrite Hinit.
    split; [done|]. split; [split; [by left|done]|].
    split; [by right|]. done. }
  destruct (device_get_resource_mem dev 0) as [res|].
  2: { intros [= <- <- <-]. rewrite Hinit.
       split; [done|]. split; [split; [by right; left|done]|].
       split; [by right|]. done. }
  simpl.
  destruct (Z.eqb_spec (irq_domain_create_linear env
              (device_get_property_u32 dev "riscv,num-ids" IMSIC_MAX_IDS))
              NULL) as [Hdom|Hdom].
  { intros [= <- <- <-]. simpl.
    split; [done|]. split; [split; [by right; right|done]|].
    split; [by right|]. done. }
  intros [= <- <- <-]. simpl.
  split; [done|]. split.
  { split; [done|]. intros [?|[?|?]]; done. }
  split; [by left|]. split; [done|]. split; [done|].
  intros _ dev2. done.
Qed.

(** C9, amended.  After a successful [imsic_attach] the file's [num_ids]
    is the value of the [riscv,num-ids] property of the device, or 256 when
    the device has no such property; the controller's [num_ids] is the same;
    it is at most 256 exactly when the property is absent or at most 256. *)
Theorem imsic_attach_num_ids env dev st st' dev' :
  imsic_attach env dev st = (0, st', dev') →
  num_ids (primary_imsic_file st') =
    default IMSIC_MAX_IDS (properties dev !! "riscv,num-ids") ∧
  data_num_ids (primary_imsic_data st') = num_ids (primary_imsic_file st') ∧
  (properties dev !! "riscv,num-ids" = None →
   num_ids (primary_imsic_file st') = 256) ∧
  (num_ids (primary_imsic_file st') ≤ IMSIC_MAX_IDS ↔
   ∀ v, properties dev !! "riscv,num-ids" = Some v → v ≤ IMSIC_MAX_IDS).
Proof.
  unfold imsic_attach.
  destruct (imsic_initialized st); [done|].
  destruct (device_get_resource_mem dev 0) as [res|]; [|done].
  simpl. destruct (_ =? NULL); [done|].
  intros [= <- <-]. simpl. unfold device_get_property_u32.
  split; [done|]. split; [done|].
  destruct (properties dev !! "riscv,num-ids") as [v|]; simpl.
  - split; [done|]. split.
    + by intros Hle ? [= <-].
    + intros Hall. by apply Hall.
  - split; [done|]. split; [done|]. intros _. unfold IMSIC_MAX_IDS. lia.
Qed.

(** A controller at [0x24000000] whose device tree announces 512 ids. *)
Definition sample_env : environment :=
  Environment 0x8000 0x9000 (λ _, 0x7000) (λ _ hwirq, hwirq + 100) (λ _, 0).
Definition sample_device (ids : option Z) : device :=
  Device "imsics@24000000" [Resource 0x24000000 0]
         (match ids with
          | Some v => {["riscv,num-ids" := v]}
          | None => ∅
          end) 0.
Definition unattached : driver_state :=
  DriverState (ImsicData 0 0 0 0 0 0) (ImsicFile 0 0 0 0 0) false.

(** C9 as stated does not hold: nothing bounds [num_ids] by 256. *)
Lemma imsic_attach_num_ids_unbounded :
  (imsic_attach sample_env (sample_device (Some 512)) unattached).1.1 = 0 ∧
  ¬ num_ids (primary_imsic_file
       (imsic_attach sample_env (sample_device (Some 512)) unattached).1.2)
    ≤ IMSIC_MAX_IDS.
Proof. split; [reflexivity|]. vm_compute. by intros H. Qed.

Lemma imsic_attach_num_ids_witness :
  imsic_attach sample_env (sample_device None) unattached =
    (0, (imsic_attach sample_env (sample_device None) unattached).1.2,
        (imsic_attach sample_env (sample_device None) unattached).2) ∧
  num_ids (primary_imsic_file
     (imsic_attach sample_env (sample_device None) unattached).1.2) = 256.
Proof.
  assert (imsic_attach sample_env (sample_device None) unattached =
    (0, (imsic_attach sample_env (sample_device None) unattached).1.2,
        (imsic_attach sample_env (sample_device None) unattached).2)) as Hcall
    by reflexivity.
  split; [exact Hcall|].
  destruct (imsic_attach_num_ids _ _ _ _ _ Hcall) as (_ & _ & Hdef & _).
  apply Hdef. reflexivity.
Defined.

Lemma imsic_attach_initialized_witness :
  imsic_attach sample_env (sample_device None) unattached =
    (0, (imsic_attach sample_env (sample_device None) unattached).1.2,
        (imsic_attach sample_env (sample_device None) unattached).2) ∧
  (imsic_attach sample_env (sample_device None)
     (imsic_attach sample_env (sample_device None) unattached).1.2).1.1 = -1.
Proof.
  assert (imsic_attach sample_env (sample_device None) unattached =
    (0, (imsic_attach sample_env (sample_device None) unattached).1.2,
        (imsic_attach sample_env (sample_device None) unattached).2)) as Hcall
    by reflexivity.
  split; [exact Hcall|].
  destruct (imsic_attach_initialized _ _ _ _ _ _ Hcall)
    as (_ & _ & _ & _ & _ & Hagain).
  destruct (Hagain eq_refl (sample_device None)) as [Hsecond _].
  rewrite Hsecond. reflexivity.
Defined.


(** *** Dispatch *)

Section Dispatch.

Variable env : environment.

(** The pending word [EIP[k]] of a file, and the reads of [EIP[i]] up to
    [EIP[i+n-1]] in index order. *)
Definition eip_word (file : imsic_file) (k : Z) : Z :=
  mmio_read32 env (base file + (IMSIC_REG_EIP_BASE + k * 4)).

Definition eip_reads (file : imsic_file) (i n : Z) : list event :=
  (λ k, MmioRead (base file + (IMSIC_REG_EIP_BASE + k * 4))) <$> seqZ i n.

Lemma eip_reads_S file i (n : nat) :
  eip_reads file i (Z.of_nat (S n)) =
    MmioRead (base file + (IMSIC_REG_EIP_BASE + i * 4))
      :: eip_reads file (i + 1) (Z.of_nat n).
Proof.
  unfold eip_reads. rewrite seqZ_cons by lia. simpl.
  by rewrite Nat2Z.inj_succ, Z.pred_succ, Z.add_1_r.
Qed.

Lemma scan_pending_none n : ∀ i file,
  (∀ k, i ≤ k < i + Z.of_nat n → eip_word file k = 0) →
  scan_pending env n i file = (0, eip_reads file i (Z.of_nat n)).
Proof.
  induction n as [|n IH]; intros i file Hzero; [done|].
  rewrite eip_reads_S. cbn [scan_pending imsic_read_reg].
  fold (eip_word file i). rewrite (Hzero i) by lia. simpl.
  rewrite IH; [done|]. intros k Hk. apply Hzero. lia.
Qed.

Lemma scan_pending_first (j : nat) : ∀ n i file,
  (j < n)%nat →
  (∀ k, i ≤ k < i + Z.of_nat j → eip_word file k = 0) →
  eip_word file (i + Z.of_nat j) ≠ 0 →
  scan_pending env n i file =
    (wrap32 ((i + Z.of_nat j) * 32
             + ffs (to_int32 (eip_word file (i + Z.of_nat j))) - 1),
     eip_reads file i (Z.of_nat (S j))).
Proof.
  induction j as [|j IH]; intros n i file Hj Hzero Hnz;
    (destruct n as [|n]; [lia|]);
    rewrite eip_reads_S; cbn [scan_pending imsic_read_reg];
    fold (eip_word file i).
  - rewrite Z.add_0_r in *.
    destruct (Z.eqb_spec (eip_word file i) 0); [done|]. done.
  - rewrite (Hzero i) by lia. simpl.
    rewrite (IH n (i + 1) file); [|lia| |].
    + by replace (i + 1 + Z.of_nat j) with (i + Z.of_nat (S j)) by lia.
    + intros k Hk. apply Hzero. lia.
    + by replace (i + 1 + Z.of_nat j) with (i + Z.of_nat (S j)) by lia.
Qed.

(** C4.  [imsic_handle_irq] reads the EIP words in index order.  When all
    of them are zero it does nothing else.  Otherwise it stops at the first
    non-zero word, at index [k], and computes
    [hwirq = 32·k + ffs(word) − 1], which is [32·k] plus the index of the
    lowest set bit of the word.  When [hwirq ≠ 0] it calls
    [generic_handle_irq] on the virtual IRQ [irq_find_mapping] returns,
    provided that is non-zero, and then writes [hwirq] to CLREIPNUM.  When
    [hwirq = 0], that is when id 0 is the lowest pending id, it dispatches
    nothing and clears nothing. *)
Theorem imsic_handle_irq_dispatch (st : driver_state) :
  let imsic := primary_imsic_data st in
  let file := primary_imsic_file st in
  let words := wrap32 (data_num_ids imsic + 31) / 32 in
  ((∀ k, 0 ≤ k < words → eip_word file k = 0) →
   imsic_handle_irq env st = eip_reads file 0 words) ∧
  (∀ k,
     0 ≤ k < words →
     (∀ j, 0 ≤ j < k → eip_word file j = 0) →
     0 < eip_word file k < 2 ^ 32 →
     let hwirq := 32 * k + ffs (to_int32 (eip_word file k)) - 1 in
     let virq := irq_find_mapping env (domain imsic) hwirq in
     (∃ b, lowest_set_bit (eip_word file k) b ∧ hwirq = 32 * k + b) ∧
     (hwirq = 0 ↔ k = 0 ∧ Z.testbit (eip_word file 0) 0 = true) ∧
     imsic_handle_irq env st =
       eip_reads file 0 (k + 1) ++
       (if hwirq =? 0 then []
        else (if virq =? 0 then [] else [GenericHandleIrq virq]) ++
             [MmioWrite (base file + IMSIC_REG_CLREIPNUM) hwirq])).
Proof.
  intros imsic file words.
  assert (0 ≤ words < 2 ^ 27) as Hwords.
  { unfold words, wrap32.
    pose proof (Z.mod_pos_bound (data_num_ids imsic + 31) (2 ^ 32)
                  ltac:(lia)) as Hm.
    split; [apply Z.div_pos; lia|].
    apply Z.div_lt_upper_bound; lia. }
  split.
  - intros Hzero. unfold imsic_handle_irq. fold imsic file words.
    rewrite scan_pending_none; [simpl; by rewrite Z2Nat.id by lia|].
    intros k Hk. apply Hzero. lia.
  - intros k Hk Hzero Hword hwirq virq.
    destruct (ffs_word _ Hword) as (b & Hb & Hlsb & Hffs).
    assert (hwirq = 32 * k + b) as Hhw by (unfold hwirq; lia).
    split; [by exists b|]. split.
    { rewrite Hhw. split.
      - intros E. assert (k = 0 ∧ b = 0) as [-> ->] by lia.
        split; [done|]. by destruct Hlsb as (_ & ? & _).
      - intros [-> Hbit]. destruct Hlsb as (_ & _ & Hlow).
        destruct (decide (b = 0)) as [->|]; [done|].
        rewrite Hlow in Hbit by lia. done. }
    unfold imsic_handle_irq. fold imsic file words.
    rewrite (scan_pending_first (Z.to_nat k)); [|lia| |]; cycle 1.
    { intros j Hj. apply Hzero. lia. }
    { rewrite Z.add_0_l, Z2Nat.id by lia. lia. }
    rewrite Z.add_0_l, Nat2Z.inj_succ, !Z2Nat.id by lia.
    replace (k * 32 + ffs (to_int32 (eip_word file k)) - 1) with hwirq
      by (unfold hwirq; lia).
    rewrite wrap32_small by lia.
    replace (Z.succ k) with (k + 1) by lia.
    fold virq. destruct (hwirq =? 0); [by rewrite app_nil_r|]. done.
Qed.

End Dispatch.

(** Scenario of the design document: bit 5 of [EIP[0]] is set and hardware
    id 5 is mapped; the handler reads [EIP[0]], dispatches the virtual IRQ
    and clears id 5. *)
Definition pending_5_env : environment :=
  Environment 0x8000 0x9000 (λ _, 0x7000) (λ _ hwirq, hwirq + 100)
              (λ addr, if addr =? 0x24000080 then 32 else 0).
Definition attached : driver_state :=
  (imsic_attach pending_5_env (sample_device None) unattached).1.2.

Example handle_irq_pending_5 :
  imsic_handle_irq pending_5_env attached =
    [MmioRead 0x24000080; GenericHandleIrq 105; MmioWrite 0x24000004 5].
Proof. reflexivity. Qed.

(** Only id 0 pending: one read, no dispatch, no clear. *)
Example handle_irq_pending_0 :
  imsic_handle_irq
    (Environment 0x8000 0x9000 (λ _, 0x7000) (λ _ hwirq, hwirq + 100)
                 (λ addr, if addr =? 0x24000080 then 1 else 0))
    attached
  = [MmioRead 0x24000080].
Proof. reflexivity. Qed.

Lemma imsic_handle_irq_dispatch_witness :
  0 ≤ 0 < wrap32 (data_num_ids (primary_imsic_data attached) + 31) / 32 ∧
  0 < eip_word pending_5_env (primary_imsic_file attached) 0 < 2 ^ 32 ∧
  imsic_handle_irq pending_5_env attached =
    [MmioRead 0x24000080; GenericHandleIrq 105; MmioWrite 0x24000004 5].
Proof.
  assert (0 ≤ 0 < wrap32 (data_num_ids (primary_imsic_data attached) + 31)
                  / 32) as Hk by (by vm_compute).
  assert (0 < eip_word pending_5_env (primary_imsic_file attached) 0
          < 2 ^ 32) as Hw by (by vm_compute).
  split; [exact Hk|]. split; [exact Hw|].
  destruct (imsic_handle_irq_dispatch pending_5_env attached) as [_ Hfirst].
  destruct (Hfirst 0 Hk ltac:(intros; lia) Hw) as (_ & _ & Hrun).
  rewrite Hrun. reflexivity.
Defined.


(** *** The register interface *)

(** [imsic_set_pending] and [imsic_set_threshold]. *)
Definition imsic_set_pending (file : imsic_file) (id : Z) : list event :=
  imsic_write_reg file IMSIC_REG_SETEIPNUM id.
Definition imsic_set_threshold (file : imsic_file) (threshold : Z)
  : list event :=
  imsic_write_reg file IMSIC_REG_EITHRESHOLD threshold.

(** [imsic_set_enabled]: a read of the word [EIE[id / 32]], then the write of
    the word with bit [id % 32] set or cleared.  [reg], [mask] and [val] are
    [uint32_t]; [1 << (id % 32)] is converted to [uint32_t], and [~mask] is
    the complement on 32 bits. *)
Definition imsic_set_enabled (env : environment) (file : imsic_file)
    (id : Z) (enabled : bool) : list event :=
  let reg := wrap32 (IMSIC_REG_EIE_BASE + wrap32 (id / 32 * 4)) in
  let mask := wrap32 (1 ≪ (id `mod` 32)) in
  let '(val, ev) := imsic_read_reg env file reg in
  let val :=
    if enabled then Z.lor val mask
    else Z.land val (wrap32 (Z.lnot mask)) in
  ev ++ imsic_write_reg file reg val.

(** What is read back after a run from registers that keep the word last
    written to them, as the enable words do. *)
Definition mmio_after (read : Z → Z) (evs : list event) : Z → Z :=
  foldl (λ read e,
           match e with
           | MmioWrite addr val => λ a, if a =? addr then val else read a
           | _ => read
           end) read evs.

(** Whether interrupt [id] is enabled according to the enable words read
    with [read]. *)
Definition eie_enabled (read : Z → Z) (file : imsic_file) (id : Z) : bool :=
  Z.testbit (read (base file + (IMSIC_REG_EIE_BASE + id / 32 * 4)))
            (id `mod` 32).

Lemma testbit_word_high x j : 0 ≤ x < 2 ^ 32 → 32 ≤ j → Z.testbit x j = false.
Proof.
  intros Hx Hj. destruct (decide (x = 0)) as [->|Hne]; [apply Z.bits_0|].
  apply Z.bits_above_log2; [lia|].
  assert (Z.log2 x < 32) by (apply Z.log2_lt_pow2; lia). lia.
Qed.

Lemma word_of_bits x :
  0 ≤ x → (∀ j, 32 ≤ j → Z.testbit x j = false) → 0 ≤ x < 2 ^ 32.
Proof.
  intros Hx Hhigh. split; [done|].
  assert (x `mod` 2 ^ 32 = x) as <-.
  { apply Z.bits_inj'. intros j Hj.
    destruct (Z.lt_ge_cases j 32).
    - apply Z.mod_pow2_bits_low. lia.
    - rewrite Z.mod_pow2_bits_high by lia. symmetry. by apply Hhigh. }
  apply Z.mod_pos_bound. lia.
Qed.

(** The word [imsic_set_enabled] writes back. *)
Lemma set_enabled_word (old b : Z) (enabled : bool) :
  0 ≤ old < 2 ^ 32 → 0 ≤ b < 32 →
  let new :=
    if enabled then Z.lor old (wrap32 (1 ≪ b))
    else Z.land old (wrap32 (Z.lnot (wrap32 (1 ≪ b)))) in
  0 ≤ new < 2 ^ 32 ∧
  ∀ j, 0 ≤ j → Z.testbit new j = if decide (j = b) then enabled
                                  else Z.testbit old j.
Proof.
  intros Hold Hb new.
  assert (wrap32 (1 ≪ b) = 2 ^ b) as Hmask.
  { rewrite Z.shiftl_1_l. apply wrap32_small. split; [lia|].
    apply Z.pow_lt_mono_r; lia. }
  assert (∀ j, 0 ≤ j →
            Z.testbit new j = if decide (j = b) then enabled
                              else Z.testbit old j) as Hbits.
  { intros j Hj. unfold new. rewrite Hmask. destruct enabled.
    - rewrite Z.lor_spec, Z.pow2_bits_eqb by lia.
      case_decide as E; [subst; by rewrite Z.eqb_refl, orb_true_r|].
      destruct (Z.eqb_spec b j); [by subst|]. by rewrite orb_false_r.
    - rewrite Z.land_spec. unfold wrap32.
      destruct (Z.lt_ge_cases j 32) as [Hlo|Hhi].
      + rewrite Z.mod_pow2_bits_low, Z.lnot_spec, Z.pow2_bits_eqb by lia.
        case_decide as E; [subst; by rewrite Z.eqb_refl, andb_false_r|].
        destruct (Z.eqb_spec b j); [by subst|]. by rewrite andb_true_r.
      + rewrite Z.mod_pow2_bits_high, andb_false_r by lia.
        rewrite decide_False by lia. symmetry.
        by apply testbit_word_high. }
  split; [|done]. apply word_of_bits.
  - unfold new. destruct enabled.
    + apply Z.lor_nonneg. split; [lia|]. rewrite Hmask. lia.
    + apply Z.land_nonneg. left. lia.
  - intros j Hj. rewrite Hbits by lia. rewrite decide_False by lia.
    by apply testbit_word_high.
Qed.

Lemma set_enabled_reg id :
  0 ≤ id < 2 ^ 32 →
  wrap32 (IMSIC_REG_EIE_BASE + wrap32 (id / 32 * 4))
  = IMSIC_REG_EIE_BASE + id / 32 * 4.
Proof.
  intros Hid. unfold IMSIC_REG_EIE_BASE.
  assert (0 ≤ id / 32 < 2 ^ 27).
  { split; [apply Z.div_pos; lia|]. apply Z.div_lt_upper_bound; lia. }
  rewrite (wrap32_small (id / 32 * 4)) by lia. apply wrap32_small. lia.
Qed.

(** X15.  [imsic_set_enabled] reads the enable word [EIE[id / 32]] of the
    file, at offset [0xC0 + 4·(id / 32)], and writes one word back to the
    same address; it touches no other register.  The word written is a
    32-bit word whose bit [id % 32] is the requested state and whose other
    bits are those of the word read. *)
Theorem imsic_set_enabled_word env file id enabled :
  0 ≤ id < 2 ^ 32 →
  let addr := base file + (IMSIC_REG_EIE_BASE + id / 32 * 4) in
  0 ≤ mmio_read32 env addr < 2 ^ 32 →
  ∃ new,
    imsic_set_enabled env file id enabled
      = [MmioRead addr; MmioWrite addr new] ∧
    0 ≤ new < 2 ^ 32 ∧
    Z.testbit new (id `mod` 32) = enabled ∧
    ∀ j, 0 ≤ j → j ≠ id `mod` 32 →
      Z.testbit new j = Z.testbit (mmio_read32 env addr) j.
Proof.
  intros Hid addr Hold.
  assert (0 ≤ id `mod` 32 < 32) as Hb by (apply Z.mod_pos_bound; lia).
  destruct (set_enabled_word (mmio_read32 env addr) (id `mod` 32) enabled
              Hold Hb) as [Hrange Hbits].
  eexists. split.
  { unfold imsic_set_enabled, imsic_read_reg, imsic_write_reg.
    rewrite set_enabled_reg by done. fold addr. simpl. reflexivity. }
  split; [done|]. split.
  - rewrite Hbits by lia. by rewrite decide_True.
  - intros j Hj Hne. rewrite Hbits by lia. by rewrite decide_False.
Qed.

(** A file at [0x24000000] all of whose registers read [0x81]. *)
Definition reads_81 : environment :=
  Environment 0x8000 0x9000 (λ _, 0x7000) (λ _ hwirq, hwirq + 100)
              (λ _, 0x81).
Definition file_24 : imsic_file := ImsicFile 0x24000000 0 256 0 0.

Lemma imsic_set_enabled_word_witness :
  0 ≤ 37 < 2 ^ 32 ∧
  ∃ new,
    imsic_set_enabled reads_81 file_24 37 true
    = [MmioRead 0x240000C4; MmioWrite 0x240000C4 new] ∧
    Z.testbit new 5 = true ∧ Z.testbit new 0 = true.
Proof.
  split; [lia|].
  destruct (imsic_set_enabled_word reads_81 file_24 37 true)
    as (new & Hrun & _ & Hbit & Hrest); [lia|simpl; lia|].
  exists new. split; [exact Hrun|]. split; [exact Hbit|].
  rewrite Hrest; [reflexivity|lia|]. intros E. vm_compute in E. lia.
Defined.

(** X16.  On enable registers that keep what is written to them,
    [imsic_set_enabled] is an update of one entry of the enable bitmap:
    afterwards interrupt [id] is enabled or disabled as requested, and every
    other interrupt, in the same word or in another, is enabled exactly
    when it was before. *)
Theorem imsic_set_enabled_lookup env file id enabled id' :
  0 ≤ id < 2 ^ 32 → 0 ≤ id' < 2 ^ 32 →
  (∀ a, 0 ≤ mmio_read32 env a < 2 ^ 32) →
  eie_enabled
    (mmio_after (mmio_read32 env) (imsic_set_enabled env file id enabled))
    file id'
  = if decide (id' = id) then enabled
    else eie_enabled (mmio_read32 env) file id'.
Proof.
  intros Hid Hid' Hread.
  set (addr := base file + (IMSIC_REG_EIE_BASE + id / 32 * 4)).
  assert (0 ≤ id `mod` 32 < 32) as Hb by (apply Z.mod_pos_bound; lia).
  assert (0 ≤ id' `mod` 32 < 32) as Hb' by (apply Z.mod_pos_bound; lia).
  destruct (set_enabled_word (mmio_read32 env addr) (id `mod` 32) enabled
              (Hread addr) Hb) as [_ Hbits].
  unfold eie_enabled, imsic_set_enabled, imsic_read_reg, imsic_write_reg.
  rewrite set_enabled_reg by done. fold addr. simpl.
  destruct (Z.eqb_spec (base file + (IMSIC_REG_EIE_BASE + id' / 32 * 4)) addr)
    as [Eaddr|Naddr].
  - assert (id' / 32 = id / 32) as Ediv by (unfold addr in Eaddr; lia).
    rewrite Hbits by lia.
    pose proof (Z.div_mod id 32 ltac:(lia)).
    pose proof (Z.div_mod id' 32 ltac:(lia)).
    destruct (decide (id' = id)) as [->|Hne]; [by rewrite decide_True|].
    rewrite decide_False by lia. by rewrite Eaddr.
  - rewrite decide_False; [done|]. intros ->. by apply Naddr.
Qed.

Lemma imsic_set_enabled_lookup_witness :
  0 ≤ 37 < 2 ^ 32 ∧ 0 ≤ 32 < 2 ^ 32 ∧
  eie_enabled
    (mmio_after (mmio_read32 reads_81)
       (imsic_set_enabled reads_81 file_24 37 false))
    file_24 32
  = true ∧
  eie_enabled
    (mmio_after (mmio_read32 reads_81)
       (imsic_set_enabled reads_81 file_24 37 false))
    file_24 37
  = false.
Proof.
  split; [lia|]. split; [lia|]. split.
  - rewrite (imsic_set_enabled_lookup reads_81 file_24 37 false 32);
      [reflexivity|lia|lia|intros a; simpl; lia].
  - rewrite (imsic_set_enabled_lookup reads_81 file_24 37 false 37);
      [reflexivity|lia|lia|intros a; simpl; lia].
Defined.


(** *** What a handler run can do *)

(** The scan stops at the first non-zero pending word, if there is one. *)
Lemma first_pending env file (n : nat) : ∀ i,
  (∀ k, i ≤ k < i + Z.of_nat n → eip_word env file k = 0) ∨
  ∃ j : nat, (j < n)%nat ∧
    (∀ k, i ≤ k < i + Z.of_nat j → eip_word env file k = 0) ∧
    eip_word env file (i + Z.of_nat j) ≠ 0.
Proof.
  induction n as [|n IH]; intros i; [left; intros; lia|].
  destruct (decide (eip_word env file i = 0)) as [Hz|Hnz].
  - destruct (IH (i + 1)) as [Hall|(j & Hj & Hzero & Hnz)].
    + left. intros k Hk. destruct (decide (k = i)) as [->|]; [done|].
      apply Hall. lia.
    + right. exists (S j). split; [lia|]. split.
      * intros k Hk. destruct (decide (k = i)) as [->|]; [done|].
        apply Hzero. lia.
      * by replace (i + Z.of_nat (S j)) with (i + 1 + Z.of_nat j) by lia.
  - right. exists 0%nat. split; [lia|]. split; [intros; lia|].
    by rewrite Z.add_0_r.
Qed.

Lemma handle_irq_shape env st :
  (∀ a, 0 ≤ mmio_read32 env a < 2 ^ 32) →
  let imsic := primary_imsic_data st in
  let file := primary_imsic_file st in
  let words := wrap32 (data_num_ids imsic + 31) / 32 in
  ∃ k rest,
    imsic_handle_irq env st = eip_reads file 0 k ++ rest ∧
    0 ≤ k ≤ words ∧
    (rest = [] ∨
     ∃ hwirq,
       0 < hwirq ∧ 32 * (k - 1) ≤ hwirq < 32 * k ∧
       rest = (if irq_find_mapping env (domain imsic) hwirq =? 0 then []
               else [GenericHandleIrq
                       (irq_find_mapping env (domain imsic) hwirq)])
              ++ [MmioWrite (base file + IMSIC_REG_CLREIPNUM) hwirq]).
Proof.
  intros Hread imsic file words.
  assert (0 ≤ words < 2 ^ 27) as Hwords.
  { unfold words, wrap32.
    pose proof (Z.mod_pos_bound (data_num_ids imsic + 31) (2 ^ 32)
                  ltac:(lia)) as Hm.
    split; [apply Z.div_pos; lia|].
    apply Z.div_lt_upper_bound; lia. }
  unfold imsic_handle_irq. fold imsic file words.
  destruct (first_pending env file (Z.to_nat words) 0)
    as [Hall|(j & Hj & Hzero & Hnz)].
  - rewrite scan_pending_none by done. simpl. rewrite Z2Nat.id by lia.
    exists words, []. split; [by rewrite app_nil_r|]. split; [lia|by left].
  - rewrite (scan_pending_first env j) by done.
    rewrite Z.add_0_l in *.
    set (w := eip_word env file (Z.of_nat j)) in *.
    assert (0 < w < 2 ^ 32) as Hw.
    { pose proof (Hread (base file + (IMSIC_REG_EIP_BASE + Z.of_nat j * 4))).
      unfold w, eip_word. unfold w, eip_word in Hnz. lia. }
    destruct (ffs_word w Hw) as (b & Hb & _ & ->).
    replace (Z.of_nat j * 32 + (b + 1) - 1) with (32 * Z.of_nat j + b)
      by lia.
    rewrite wrap32_small by lia.
    exists (Z.of_nat (S j)). destruct (Z.eqb_spec (32 * Z.of_nat j + b) 0).
    + exists []. split; [by rewrite app_nil_r|]. split; [lia|by left].
    + eexists. split; [reflexivity|]. split; [lia|]. right.
      exists (32 * Z.of_nat j + b). split; [lia|]. split; [lia|]. done.
Qed.

(** X17.  Whatever the pending words are, a run of [imsic_handle_irq] is a
    prefix of the reads of [EIP[0]], [EIP[1]], ... of at most
    [(num_ids + 31) / 32] words, followed by nothing or by the service of
    one interrupt: at most one call of [generic_handle_irq], never with
    virtual IRQ 0, and one write, to CLREIPNUM, of a hardware id that is
    not 0 and lies in the last word read.  Before [imsic_attach] has given
    [num_ids] a value the handler does nothing at all. *)
Theorem imsic_handle_irq_bounds env st :
  (∀ a, 0 ≤ mmio_read32 env a < 2 ^ 32) →
  let imsic := primary_imsic_data st in
  let file := primary_imsic_file st in
  let words := wrap32 (data_num_ids imsic + 31) / 32 in
  (∃ k rest,
     imsic_handle_irq env st = eip_reads file 0 k ++ rest ∧
     0 ≤ k ≤ words ∧
     (rest = [] ∨
      ∃ hwirq,
        0 < hwirq < 32 * words ∧ 32 * (k - 1) ≤ hwirq < 32 * k ∧
        rest = (if irq_find_mapping env (domain imsic) hwirq =? 0 then []
                else [GenericHandleIrq
                        (irq_find_mapping env (domain imsic) hwirq)])
               ++ [MmioWrite (base file + IMSIC_REG_CLREIPNUM) hwirq])) ∧
  (data_num_ids imsic = 0 → imsic_handle_irq env st = []).
Proof.
  intros Hread imsic file words.
  destruct (handle_irq_shape env st Hread) as (k & rest & Hrun & Hk & Hrest).
  fold imsic file words in Hrun, Hk, Hrest. split.
  - exists k, rest. split; [done|]. split; [done|].
    destruct Hrest as [?|(hw & Hhw & Hin & ->)]; [by left|right].
    exists hw. split; [lia|]. done.
  - intros Hzero. unfold imsic in Hzero. unfold imsic_handle_irq.
    by rewrite Hzero.
Qed.

Lemma imsic_handle_irq_bounds_witness :
  (∀ a, 0 ≤ mmio_read32 pending_5_env a < 2 ^ 32) ∧
  ∃ k rest,
    imsic_handle_irq pending_5_env attached
    = eip_reads (primary_imsic_file attached) 0 k ++ rest ∧
    0 ≤ k ≤ 8.
Proof.
  assert (∀ a, 0 ≤ mmio_read32 pending_5_env a < 2 ^ 32) as Hread.
  { intros a. simpl. destruct (a =? 603979904); lia. }
  split; [exact Hread|].
  destruct (imsic_handle_irq_bounds pending_5_env attached Hread)
    as [(k & rest & Hrun & Hk & _) _].
  exists k, rest. split; [exact Hrun|exact Hk].
Defined.

(** X18.  After a successful [imsic_attach] of a device whose
    [riscv,num-ids] property is absent or at most 256, every run of the
    handler stays within the file: it reads only the eight pending words at
    offsets [0x80 .. 0x9C] of the file's base, it writes only to CLREIPNUM
    and only a hardware id in [1 .. 255], and it dispatches only non-zero
    virtual IRQs. *)
Theorem imsic_attach_then_handle env dev st st' dev' :
  imsic_attach env dev st = (0, st', dev') →
  (∀ v, properties dev !! "riscv,num-ids" = Some v → 0 ≤ v ≤ IMSIC_MAX_IDS) →
  (∀ a, 0 ≤ mmio_read32 env a < 2 ^ 32) →
  Forall (λ e,
            match e with
            | MmioRead a =>
                ∃ k, 0 ≤ k < 8 ∧
                     a = base (primary_imsic_file st')
                         + (IMSIC_REG_EIP_BASE + k * 4)
            | MmioWrite a v =>
                a = base (primary_imsic_file st') + IMSIC_REG_CLREIPNUM ∧
                0 < v < 256
            | GenericHandleIrq virq => virq ≠ 0
            end)
         (imsic_handle_irq env st').
Proof.
  intros Hattach Hprop Hread.
  assert (0 ≤ data_num_ids (primary_imsic_data st') ≤ 256) as Hids.
  { revert Hattach. unfold imsic_attach.
    destruct (imsic_initialized st); [done|].
    destruct (device_get_resource_mem dev 0) as [res|]; [|done].
    simpl. destruct (_ =? NULL); [done|].
    intros [= <- <-]. simpl. unfold device_get_property_u32.
    destruct (properties dev !! "riscv,num-ids") as [v|] eqn:E; simpl.
    - apply (Hprop v). done.
    - unfold IMSIC_MAX_IDS. lia. }
  destruct (handle_irq_shape env st' Hread) as (k & rest & -> & Hk & Hrest).
  set (words := wrap32 (data_num_ids (primary_imsic_data st') + 31) / 32)
    in *.
  assert (words ≤ 8) as Hwords.
  { unfold words. rewrite wrap32_small by lia.
    apply Z.lt_succ_r. apply Z.div_lt_upper_bound; lia. }
  apply Forall_app. split.
  - unfold eip_reads. apply Forall_fmap, list.Forall_forall.
    intros j Hj%elem_of_seqZ. simpl. exists j. split; [lia|done].
  - destruct Hrest as [->|(hw & Hhw & Hin & ->)]; [constructor|].
    apply Forall_app. split.
    + destruct (Z.eqb_spec (irq_find_mapping env
                  (domain (primary_imsic_data st')) hw) 0);
        [constructor|]. constructor; [done|constructor].
    + constructor; [|constructor]. split; [done|lia].
Qed.

Lemma imsic_attach_then_handle_witness :
  imsic_attach pending_5_env (sample_device None) unattached
    = (0, attached,
       (imsic_attach pending_5_env (sample_device None) unattached).2) ∧
  (∀ a, 0 ≤ mmio_read32 pending_5_env a < 2 ^ 32) ∧
  Forall (λ e, match e with
               | MmioRead a => ∃ k, 0 ≤ k < 8 ∧ a = 0x24000000 + (0x80 + k * 4)
               | MmioWrite a v => a = 0x24000000 + 0x04 ∧ 0 < v < 256
               | GenericHandleIrq virq => virq ≠ 0
               end)
         (imsic_handle_irq pending_5_env attached).
Proof.
  assert (imsic_attach pending_5_env (sample_device None) unattached
    = (0, attached,
       (imsic_attach pending_5_env (sample_device None) unattached).2))
    as Hattach by reflexivity.
  assert (∀ a, 0 ≤ mmio_read32 pending_5_env a < 2 ^ 32) as Hread.
  { intros a. simpl. destruct (a =? 603979904); lia. }
  split; [exact Hattach|]. split; [exact Hread|].
  apply (imsic_attach_then_handle pending_5_env (sample_device None)
           unattached attached _ Hattach); [|exact Hread].
  intros v Hv. vm_compute in Hv. discriminate Hv.
Defined.


(** *** Attaching again, and the driver skeleton *)

(** X19.  On a driver that is not initialised, [imsic_attach] of a device
    with a memory resource 0 does not look at the statics: its result is the
    same whatever they held.  When the IRQ domain cannot be created the
    attach fails after it has rewritten them: the file then has the base and
    the [num_ids] of this device and the controller has no domain, while
    [imsic_initialized] and the device are as before; a later attach of the
    device, once the domain can be created, succeeds. *)
Theorem imsic_attach_rewrites env dev st1 st2 res :
  device_get_resource_mem dev 0 = Some res →
  imsic_initialized st1 = false → imsic_initialized st2 = false →
  imsic_attach env dev st1 = imsic_attach env dev st2 ∧
  (irq_domain_create_linear env
     (device_get_property_u32 dev "riscv,num-ids" IMSIC_MAX_IDS) = NULL →
   ∃ st',
     imsic_attach env dev st1 = (-1, st', dev) ∧
     imsic_initialized st' = false ∧
     base (primary_imsic_file st') =
       (if mapped_addr res =? NULL then start res else mapped_addr res) ∧
     num_ids (primary_imsic_file st') =
       device_get_property_u32 dev "riscv,num-ids" IMSIC_MAX_IDS ∧
     data_num_ids (primary_imsic_data st') = num_ids (primary_imsic_file st') ∧
     domain (primary_imsic_data st') = NULL ∧
     ∀ env2,
       irq_domain_create_linear env2
         (device_get_property_u32 dev "riscv,num-ids" IMSIC_MAX_IDS) ≠ NULL →
       (imsic_attach env2 dev st').1.1 = 0).
Proof.
  intros Hres H1 H2. unfold imsic_attach. rewrite H1, H2, Hres. simpl.
  split; [done|]. intros Hfail. rewrite Hfail. simpl.
  eexists. split; [reflexivity|]. simpl.
  split; [done|]. split; [done|]. split; [done|]. split; [done|].
  split; [done|]. intros env2 Hok.
  by destruct (Z.eqb_spec (irq_domain_create_linear env2
       (device_get_property_u32 dev "riscv,num-ids" IMSIC_MAX_IDS)) NULL).
Qed.

(** The sample controller in a kernel that cannot create IRQ domains. *)
Definition no_domain_env : environment :=
  Environment 0x8000 0x9000 (λ _, NULL) (λ _ hwirq, hwirq + 100) (λ _, 0).

Lemma imsic_attach_rewrites_witness :
  device_get_resource_mem (sample_device (Some 64)) 0
    = Some (Resource 0x24000000 0) ∧
  imsic_initialized unattached = false ∧
  ∃ st',
    imsic_attach no_domain_env (sample_device (Some 64)) unattached
      = (-1, st', sample_device (Some 64)) ∧
    num_ids (primary_imsic_file st') = 64 ∧
    (imsic_attach sample_env (sample_device (Some 64)) st').1.1 = 0.
Proof.
  assert (device_get_resource_mem (sample_device (Some 64)) 0
          = Some (Resource 0x24000000 0)) as Hres by reflexivity.
  assert (imsic_initialized unattached = false) as Hinit by reflexivity.
  split; [exact Hres|]. split; [exact Hinit|].
  destruct (imsic_attach_rewrites no_domain_env (sample_device (Some 64))
              unattached unattached _ Hres Hinit Hinit) as [_ Hfail].
  destruct Hfail as (st' & Hrun & _ & _ & Hids & _ & _ & Hretry);
    [reflexivity|].
  exists st'. split; [exact Hrun|]. split; [exact Hids|].
  apply Hretry. intros E. vm_compute in E. lia.
Defined.

Module Skeleton.

(** [imsic_attach] of the driver skeleton, the earlier state of the same
    file: no IRQ domain is created. *)
Definition imsic_attach (env : environment) (dev : device)
    (st : driver_state) : Z * driver_state * device :=
  if imsic_initialized st then (-1, st, dev)
  else
    match device_get_resource_mem dev 0 with
    | None => (-1, st, dev)
    | Some res =>
        let file_base :=
          if mapped_addr res =? NULL then start res else mapped_addr res in
        let base_phys := start res in
        let file :=
          ImsicFile file_base 0
            (device_get_property_u32 dev "riscv,num-ids" IMSIC_MAX_IDS)
            NULL NULL in
        let imsic :=
          ImsicData (primary_imsic_file_addr env) 1 (num_ids file)
                    (base_phys ≫ 12) NULL NULL in
        (0, DriverState imsic file true,
         device_set_driver_data dev (primary_imsic_data_addr env))
    end.

End Skeleton.

(** X20.  The driver and its skeleton.  The skeleton's [imsic_attach]
    fails exactly when the driver is already initialised or the device has no
    memory resource 0, and then the driver's fails too, both without any
    change.  When the driver's succeeds, the skeleton's succeeds with the
    same device and the same statics, but for the controller's domain, which
    the skeleton leaves NULL. *)
Theorem imsic_attach_skeleton env dev st :
  let '(r, st', dev') := imsic_attach env dev st in
  let '(r0, st0, dev0) := Skeleton.imsic_attach env dev st in
  (r0 = -1 ∨ r0 = 0) ∧
  (r0 = -1 ↔
     imsic_initialized st = true ∨ device_get_resource_mem dev 0 = None) ∧
  (r0 = -1 → r = -1 ∧ st0 = st ∧ dev0 = dev ∧ st' = st ∧ dev' = dev) ∧
  (r = 0 →
     r0 = 0 ∧ dev0 = dev' ∧
     imsic_initialized st0 = true ∧ imsic_initialized st' = true ∧
     primary_imsic_file st0 = primary_imsic_file st' ∧
     domain (primary_imsic_data st0) = NULL ∧
     domain (primary_imsic_data st') ≠ NULL ∧
     primary_imsic_data st0 =
       ImsicData (files (primary_imsic_data st'))
                 (num_harts (primary_imsic_data st'))
                 (data_num_ids (primary_imsic_data st'))
                 (base_ppn (primary_imsic_data st'))
                 NULL
                 (msi_domain (primary_imsic_data st'))).
Proof.
  unfold imsic_attach, Skeleton.imsic_attach.
  destruct (imsic_initialized st) eqn:Hinit.
  { split; [by left|]. split; [split; [by left|done]|]. done. }
  destruct (device_get_resource_mem dev 0) as [res|].
  2: { split; [by left|]. split; [split; [by right|done]|]. done. }
  simpl.
  destruct (Z.eqb_spec (irq_domain_create_linear env
              (device_get_property_u32 dev "riscv,num-ids" IMSIC_MAX_IDS))
              NULL) as [Hdom|Hdom].
  - split; [by right|]. split; [split; [done|by intros [?|?]]|]. done.
  - split; [by right|]. split; [split; [done|by intros [?|?]]|].
    split; [done|]. intros _. simpl. done.
Qed.


(** *** Probing *)

(** Modelled from the spec: the probe scores are declared in
    [drivers/driver.h], which is not among the sources; [imsic_probe]
    returns one of these two. *)
Inductive probe_score := PROBE_SCORE_NONE | PROBE_SCORE_EXACT.

(** [strstr(haystack, needle)]: the position of the first occurrence of
    [needle] in [haystack], [None] for the NULL result. *)
Definition strstr (haystack needle : string) : option nat :=
  String.index 0 needle haystack.

(** [imsic_probe], on [dev->compatible]; the argument is [None] when the
    device or its [compatible] string is NULL. *)
Definition imsic_probe (compatible : option string) : probe_score :=
  match compatible with
  | None => PROBE_SCORE_NONE
  | Some c =>
      match strstr c "riscv,imsics", strstr c "qemu,imsics" with
      | None, None => PROBE_SCORE_NONE
      | _, _ => PROBE_SCORE_EXACT
      end
  end.

Lemma substring_prefix t : ∀ post,
  String.substring 0 (String.length t) (t +:+ post) = t.
Proof.
  induction t as [|c t IH]; intros post; simpl.
  - by destruct post.
  - by rewrite IH.
Qed.

Lemma substring_skip pre : ∀ s n,
  String.substring (String.length pre) n (pre +:+ s) = String.substring 0 n s.
Proof. induction pre as [|c pre IH]; intros s n; simpl; [done|apply IH]. Qed.

Lemma substring_0_inv n : ∀ s t,
  String.substring 0 n s = t → String.length t = n → ∃ post, s = t +:+ post.
Proof.
  induction n as [|n IH]; intros s t Hsub Hlen.
  - destruct t; [|done]. by exists s.
  - destruct s as [|c s]; simpl in Hsub; [by subst|].
    subst t. simpl in Hlen.
    destruct (IH s _ eq_refl) as [post Hpost]; [lia|].
    exists post.
    change (String c s = String c (String.substring 0 n s +:+ post)).
    by f_equal.
Qed.

Lemma substring_inv m : ∀ n s t,
  String.substring m n s = t → String.length t = n →
  ∃ pre post, s = pre +:+ t +:+ post.
Proof.
  induction m as [|m IH]; intros n s t Hsub Hlen.
  - destruct (substring_0_inv n s t Hsub Hlen) as [post ->].
    by exists "", post.
  - destruct s as [|c s]; simpl in Hsub.
    + subst t. by exists "", "".
    + destruct (IH n s t Hsub Hlen) as (pre & post & ->).
      by exists (String c pre), post.
Qed.

Lemma strstr_occurs haystack needle :
  needle ≠ "" →
  is_Some (strstr haystack needle) ↔
  ∃ pre post, haystack = pre +:+ needle +:+ post.
Proof.
  intros Hne. unfold strstr. split.
  - intros [m Hm]. apply String.index_correct1 in Hm.
    by apply (substring_inv m (String.length needle)).
  - intros (pre & post & ->).
    destruct (String.index 0 needle (pre +:+ needle +:+ post)) eqn:E;
      [by eexists|].
    exfalso.
    apply (String.index_correct3 0 (String.length pre) _ _ E Hne); [lia|].
    rewrite substring_skip. apply substring_prefix.
Qed.

(** X21.  [imsic_probe] answers [PROBE_SCORE_EXACT] exactly when the
    [compatible] string of the device contains ["riscv,imsics"] or
    ["qemu,imsics"] somewhere, with anything before or after it, and
    [PROBE_SCORE_NONE] otherwise, in particular for a device without a
    [compatible] string. *)
Theorem imsic_probe_substring :
  imsic_probe None = PROBE_SCORE_NONE ∧
  ∀ c,
    (imsic_probe (Some c) = PROBE_SCORE_EXACT ↔
     ∃ pre post, c = pre +:+ "riscv,imsics" +:+ post ∨
                 c = pre +:+ "qemu,imsics" +:+ post) ∧
    (imsic_probe (Some c) ≠ PROBE_SCORE_EXACT →
     imsic_probe (Some c) = PROBE_SCORE_NONE).
Proof.
  split; [done|]. intros c.
  pose proof (strstr_occurs c "riscv,imsics" ltac:(done)) as Hr.
  pose proof (strstr_occurs c "qemu,imsics" ltac:(done)) as Hq.
  unfold imsic_probe.
  destruct (strstr c "riscv,imsics") as [i|];
    [|destruct (strstr c "qemu,imsics") as [j|]].
  - split; [|done]. split; [|done]. intros _.
    destruct Hr as [Hr _]. destruct Hr as (pre & post & ->); [by eexists|].
    exists pre, post. by left.
  - split; [|done]. split; [|done]. intros _.
    destruct Hq as [Hq _]. destruct Hq as (pre & post & ->); [by eexists|].
    exists pre, post. by right.
  - split; [|done]. split; [done|]. intros (pre & post & [E|E]).
    + destruct Hr as [_ Hr]. destruct Hr as [? ?]; [by exists pre, post|done].
    + destruct Hq as [_ Hq]. destruct Hq as [? ?]; [by exists pre, post|done].
Qed.

End Imsic.

(** ** kernel/drivers/irqchip/riscv-aplic-msi.c *)

Module AplicMsi.

(** [struct aplic_data] as far as this file uses it. *)
Record aplic_data := AplicData { nr_sources : Z }.

(** A register write [aplic_write(aplic, offset, val)]. *)
Inductive event := AplicWrite (offset val : Z).

Section Init.

(** The register offsets and the layout of the target registers are
    declared in [irqchip/riscv-aplic.h], which is not among the sources; the
    model holds for any values of them. *)
Variables APLIC_MMSIADDRCFG APLIC_MMSIADDRCFGH : Z.
Variables APLIC_TARGET_EIID_SHIFT APLIC_TARGET_EIID_MASK : Z.
Variable aplic_target_offset : Z → Z.

(** The word written to the target register of source [i]; [eiid] and
    [target] are [uint32_t]. *)
Definition target_word (i : Z) : Z :=
  let eiid := i in
  Z.land (wrap32 (eiid ≪ APLIC_TARGET_EIID_SHIFT))
         (wrap32 (APLIC_TARGET_EIID_MASK ≪ APLIC_TARGET_EIID_SHIFT)).

(** The loop [for (i = 1; i <= aplic->nr_sources; i++)] from [i] on, on
    [uint32_t].  It ends after at most [nr_sources] turns or, when
    [nr_sources] is the largest [uint32_t], never. *)
Fixpoint target_loop (fuel : nat) (aplic : aplic_data) (i : Z)
  : option (list event) :=
  match fuel with
  | O => None
  | S fuel =>
      if i <=? nr_sources aplic then
        rest ← target_loop fuel aplic (wrap32 (i + 1));
        Some (AplicWrite (aplic_target_offset i) (target_word i) :: rest)
      else Some []
  end.

(** [aplic_msi_init]: the return value and the register writes.  (The UART
    log lines are left out.) *)
Definition aplic_msi_init (aplic : aplic_data) : option (Z * list event) :=
  let msi_addr := 0 in
  let ev :=
    [AplicWrite APLIC_MMSIADDRCFG (wrap32 msi_addr);
     AplicWrite APLIC_MMSIADDRCFGH (wrap32 (msi_addr ≫ 32))] in
  rest ← target_loop (S (Z.to_nat (nr_sources aplic))) aplic 1;
  Some (0, ev ++ rest).

Lemma target_loop_S fuel aplic i :
  target_loop (S fuel) aplic i =
    if i <=? nr_sources aplic then
      rest ← target_loop fuel aplic (wrap32 (i + 1));
      Some (AplicWrite (aplic_target_offset i) (target_word i) :: rest)
    else Some [].
Proof. reflexivity. Qed.

Lemma target_loop_spec aplic (n : nat) : ∀ i,
  1 ≤ i → i + Z.of_nat n = nr_sources aplic + 1 →
  nr_sources aplic < 2 ^ 32 - 1 →
  target_loop (S n) aplic i
  = Some ((λ k, AplicWrite (aplic_target_offset k) (target_word k))
            <$> seqZ i (Z.of_nat n)).
Proof.
  induction n as [|n IH]; intros i Hi Hn Hmax.
  - rewrite target_loop_S.
    destruct (Z.leb_spec i (nr_sources aplic)); [lia|done].
  - rewrite target_loop_S.
    destruct (Z.leb_spec i (nr_sources aplic)); [|lia].
    rewrite wrap32_small by lia.
    rewrite seqZ_cons by lia. rewrite IH by lia.
    cbn [mbind option_bind fmap list_fmap].
    by rewrite Nat2Z.inj_succ, Z.pred_succ, Z.add_1_r.
Qed.

Lemma target_loop_wraps aplic (fuel : nat) : ∀ i,
  nr_sources aplic = 2 ^ 32 - 1 → 0 ≤ i < 2 ^ 32 →
  target_loop fuel aplic i = None.
Proof.
  induction fuel as [|fuel IH]; intros i Hmax Hi; [done|].
  rewrite target_loop_S. destruct (Z.leb_spec i (nr_sources aplic)); [|lia].
  rewrite IH; [done|done|]. apply Z.mod_pos_bound. lia.
Qed.

End Init.

(** X22.  [aplic_msi_init] on a controller with [n] sources makes
    [n + 2] register writes and returns 0: it first sets both halves of the
    MSI address to 0, then, for the sources [1, 2, ..., n] in this order, it
    writes the target register of the source; source 0 is never written.
    The word written for source [i] has the number [i], cut to the width of
    the EIID field, in the EIID field and zeros elsewhere.  With
    [nr_sources] at the largest 32-bit value the loop does not end. *)
Theorem aplic_msi_init_writes cfg cfgh shift mask offset aplic :
  0 ≤ nr_sources aplic < 2 ^ 32 →
  (nr_sources aplic < 2 ^ 32 - 1 →
   aplic_msi_init cfg cfgh shift mask offset aplic =
     Some (0, [AplicWrite cfg 0; AplicWrite cfgh 0]
              ++ ((λ i, AplicWrite (offset i) (target_word shift mask i))
                    <$> seqZ 1 (nr_sources aplic)))) ∧
  (nr_sources aplic = 2 ^ 32 - 1 →
   aplic_msi_init cfg cfgh shift mask offset aplic = None) ∧
  (∀ width i,
     0 ≤ shift → 0 ≤ width → shift + width ≤ 32 → mask = Z.ones width →
     0 ≤ i →
     target_word shift mask i = (i `mod` 2 ^ width) ≪ shift).
Proof.
  intros Hn. split; [|split].
  - intros Hmax. unfold aplic_msi_init.
    rewrite (target_loop_spec shift mask offset aplic
               (Z.to_nat (nr_sources aplic)) 1) by lia.
    rewrite Z2Nat.id by lia. done.
  - intros Hmax. unfold aplic_msi_init.
    by rewrite target_loop_wraps.
  - intros width i Hs Hw Hsw -> Hi. unfold target_word, wrap32.
    apply Z.bits_inj'. intros j Hj.
    rewrite Z.land_spec.
    destruct (Z.lt_ge_cases j shift) as [Hlo|Hge].
    { rewrite Z.mod_pow2_bits_low, !Z.shiftl_spec_low by lia. done. }
    rewrite (Z.shiftl_spec (i `mod` 2 ^ width)) by lia.
    destruct (Z.lt_ge_cases (j - shift) width) as [Hin|Hout].
    + rewrite !Z.mod_pow2_bits_low, !Z.shiftl_spec by lia.
      rewrite Z.ones_spec_low by lia. by rewrite andb_true_r.
    + rewrite (Z.mod_pow2_bits_high i) by lia.
      destruct (Z.lt_ge_cases j 32).
      * rewrite !Z.mod_pow2_bits_low, !Z.shiftl_spec by lia.
        rewrite Z.ones_spec_high by lia. by rewrite andb_false_r.
      * rewrite !Z.mod_pow2_bits_high by lia. done.
Qed.

Lemma aplic_msi_init_writes_witness :
  0 ≤ nr_sources (AplicData 3) < 2 ^ 32 ∧
  aplic_msi_init 0x1BC0 0x1BC4 0 0x7FF (λ i, 0x3004 + (i - 1) * 4)
    (AplicData 3)
  = Some (0, [AplicWrite 0x1BC0 0; AplicWrite 0x1BC4 0;
              AplicWrite 0x3004 1; AplicWrite 0x3008 2;
              AplicWrite 0x300C 3]).
Proof.
  assert (0 ≤ nr_sources (AplicData 3) < 2 ^ 32) as Hn by (simpl; lia).
  split; [exact Hn|].
  destruct (aplic_msi_init_writes 0x1BC0 0x1BC4 0 0x7FF
              (λ i, 0x3004 + (i - 1) * 4) (AplicData 3) Hn) as [Hrun _].
  rewrite Hrun by (simpl; lia). reflexivity.
Defined.

End AplicMsi.

